(** * Labeled collections of the PG model: a shallow embedding

    This development embeds [pg_utils/pg_model/base.py] -- the classes
    [LabeledCollection], [LabeledSubCollection], [CollectionPG] and the two
    mapping helpers [map_collection] and [map_PG_fields] -- and checks the
    properties the design document states about them.

    Python objects live in a heap indexed by locations, so that a sub-view and
    its base, or the receiver and the result of an in-place [apply], share
    storage exactly as the references in the source do.  An instance of
    [LabeledCollection] is its class tag together with its attribute
    dictionary: the fields are attributes, and so are the bookkeeping entries
    [_field_names], [n_fields], [_is_locked], [_iter_name], [_iter_filter] and
    [n_iter], as in the source.  Methods are computations in a monad that
    threads the heap and may raise a Python exception; the heap reached when an
    exception is raised is kept.  The recursion limit of the interpreter is
    modelled where the source recurses: [__next__], which calls itself once
    for every field it skips, takes the number of calls that can still be
    nested inside it, and raises [RecursionError] when they run out.

    Scope.  Field names are arbitrary strings.  The attribute lookup covers the
    instance dictionary, the members written in the class bodies and the two
    properties [iter_name] and [iter_filter]; attributes every Python object
    inherits from [object] (names that start with two underscores) are not
    modelled, and the predicate [plain_name] keeps user field names clear of
    them and of every other reserved name. *)

From stdpp Require Import base strings list gmap.
From Stdlib Require Import ZArith Lia.

(** ** Python values, errors and the heap *)

Inductive pyerr :=
| TypeError | KeyError | IndexError | AttributeError | AssertionError
| StopIteration | RecursionError.

Inductive result (A : Type) :=
| Ok (a : A)
| Raise (e : pyerr).
Arguments Ok {A} a.
Arguments Raise {A} e.

Abbreviation loc := nat.

(** The values a slot or a bookkeeping attribute can hold.  [PyExpr] is the
    opaque value supplied by the algebra engine. *)
Inductive pyval (Expr : Type) :=
| PyNone
| PyBool (b : bool)
| PyInt (z : Z)
| PyStrList (l : list string)
| PyMethod (self : loc) (name : string)
| PyExpr (e : Expr).
Arguments PyNone {Expr}.
Arguments PyBool {Expr} b.
Arguments PyInt {Expr} z.
Arguments PyStrList {Expr} l.
Arguments PyMethod {Expr} self name.
Arguments PyExpr {Expr} e.

Inductive pyclass := LabeledCollection_cls | CollectionPG_cls.

(** The instance attributes of a [LabeledSubCollection].  [n_iter] only
    exists once [__iter__] has run. *)
Record subcollection := SubCollection {
  base_collection : loc;
  _sub_names : list string;
  _sub_idx : list Z;
  n_fields : Z;
  _iter_name : bool;
  _iter_filter : bool;
  n_iter : option Z
}.

Inductive object (Expr : Type) :=
| Collection (cls : pyclass) (dict : gmap string (pyval Expr))
| View (s : subcollection).
Arguments Collection {Expr} cls dict.
Arguments View {Expr} s.

Abbreviation heap Expr := (list (object Expr)).

(** Keys of [obj[key]].  [KSlice start stop] is [slice(start, stop)], the
    contiguous ranges the source takes; [KObj] stands for a key of any other
    kind, a float for instance. *)
Inductive pykey (Expr : Type) :=
| KInt (z : Z)
| KBool (b : bool)
| KStr (s : string)
| KSlice (start stop : option Z)
| KNone
| KObj (e : Expr).
Arguments KInt {Expr} z.
Arguments KBool {Expr} b.
Arguments KStr {Expr} s.
Arguments KSlice {Expr} start stop.
Arguments KNone {Expr}.
Arguments KObj {Expr} e.

(** What [obj[key]] evaluates to: one value, or a list of values for a slice. *)
Inductive item (Expr : Type) :=
| Single (v : pyval Expr)
| Many (vs : list (pyval Expr)).
Arguments Single {Expr} v.
Arguments Many {Expr} vs.

(** What one step of an iteration yields. *)
Inductive yielded (Expr : Type) :=
| Bare (v : pyval Expr)
| Named (name : string) (v : pyval Expr).
Arguments Bare {Expr} v.
Arguments Named {Expr} name v.

(** ** The heap-and-exception monad *)

Definition M (Expr A : Type) : Type := heap Expr → heap Expr * result A.

Section Monad.
Context {Expr : Type}.

Definition ret {A} (a : A) : M Expr A := λ h, (h, Ok a).
Definition raise {A} (e : pyerr) : M Expr A := λ h, (h, Raise e).
Definition bind {A B} (m : M Expr A) (k : A → M Expr B) : M Expr B :=
  λ h, match m h with
       | (h', Ok a) => k a h'
       | (h', Raise e) => (h', Raise e)
       end.

Definition alloc (o : object Expr) : M Expr loc :=
  λ h, (h ++ [o], Ok (length h)).

Definition lift {A} (r : result A) : M Expr A := λ h, (h, r).
End Monad.

Notation "x <- m ;; k" := (bind m (λ x, k))
  (at level 100, m at next level, right associativity).
Notation "m ;;; k" := (bind m (λ _, k))
  (at level 100, right associativity).

(** ** Python's list and integer primitives *)

Section Primitives.
Context {Expr : Type} `{!EqDecision Expr}.

(** [l[i]] with Python's negative indexing; [None] is an [IndexError]. *)
Definition py_index {A} (l : list A) (i : Z) : option A :=
  let n := Z.of_nat (length l) in
  if decide (0 ≤ i < n)%Z then l !! Z.to_nat i
  else if decide (- n ≤ i < 0)%Z then l !! Z.to_nat (n + i)
  else None.

Definition slice_bound (n default : Z) (b : option Z) : Z :=
  match b with
  | None => default
  | Some z => if (z <? 0)%Z then Z.max 0 (z + n) else Z.min z n
  end.

(** [l[start:stop]]. *)
Definition py_slice {A} (l : list A) (start stop : option Z) : list A :=
  let n := Z.of_nat (length l) in
  let a := slice_bound n 0 start in
  let b := slice_bound n n stop in
  take (Z.to_nat (b - a)) (drop (Z.to_nat a) l).

(** [list(range(n))]. *)
Definition py_range (n : Z) : list Z := seqZ 0 n.

Definition truthy (v : pyval Expr) : bool :=
  match v with
  | PyNone => false
  | PyBool b => b
  | PyInt z => negb (z =? 0)%Z
  | PyStrList l => negb (bool_decide (l = []))
  | PyMethod _ _ => true
  | PyExpr _ => true
  end.

Definition is_none (v : pyval Expr) : bool :=
  match v with PyNone => true | _ => false end.

(** Integers, with [bool] a subclass of [int]. *)
Definition as_int (v : pyval Expr) : result Z :=
  match v with
  | PyInt z => Ok z
  | PyBool b => Ok (Z.b2z b)
  | _ => Raise TypeError
  end.

(** The list behind [len(x)], [x[i]], [name in x] and [for name in x]. *)
Definition as_names (v : pyval Expr) : result (list string) :=
  match v with
  | PyStrList l => Ok l
  | _ => Raise TypeError
  end.

Definition index_names (l : list string) (i : Z) : result string :=
  match py_index l i with
  | Some name => Ok name
  | None => Raise IndexError
  end.

(** [v == w].  Opaque values are equal when they are the same value of
    [Expr], whose decidable equality stands for that of the algebra engine;
    [True == 1] and [False == 0] as in Python. *)
Definition py_eq (v w : pyval Expr) : bool :=
  match v, w with
  | PyNone, PyNone => true
  | PyBool a, PyBool b => bool_decide (a = b)
  | PyBool a, PyInt z | PyInt z, PyBool a => (Z.b2z a =? z)%Z
  | PyInt a, PyInt b => (a =? b)%Z
  | PyStrList a, PyStrList b => bool_decide (a = b)
  | PyMethod s m, PyMethod s' m' => bool_decide (s = s' ∧ m = m')
  | PyExpr a, PyExpr b => bool_decide (a = b)
  | _, _ => false
  end.

(** Lists cannot be dictionary keys. *)
Definition hashable (v : pyval Expr) : bool :=
  match v with PyStrList _ => false | _ => true end.

(** A Python [dict] whose keys are values: insertion order, one entry per
    key up to [==], an assignment to a present key replaces the value and
    keeps the key. *)
Definition pydict := list (pyval Expr * pyval Expr).

Fixpoint dict_set (d : pydict) (k v : pyval Expr) : pydict :=
  match d with
  | [] => [(k, v)]
  | (k', v') :: d' =>
      if py_eq k' k then (k', v) :: d' else (k', v') :: dict_set d' k v
  end.

Fixpoint dict_get (d : pydict) (k : pyval Expr) : option (pyval Expr) :=
  match d with
  | [] => None
  | (k', v') :: d' => if py_eq k' k then Some v' else dict_get d' k
  end.

Definition dict_setitem (d : pydict) (k v : pyval Expr) : result pydict :=
  if hashable k then Ok (dict_set d k v) else Raise TypeError.

Fixpoint for_each {A} (l : list A) (body : A → M Expr unit) : M Expr unit :=
  match l with
  | [] => ret tt
  | x :: l' => body x;;; for_each l' body
  end.

(** [[body(x) for x in l if ...]]: the body yields [None] for an element the
    condition drops. *)
Fixpoint list_comp {A B} (l : list A) (body : A → M Expr (option B))
  : M Expr (list B) :=
  match l with
  | [] => ret []
  | x :: l' =>
      y <- body x;;
      ys <- list_comp l' body;;
      ret (match y with Some b => b :: ys | None => ys end)
  end.

(** [{k: v for ...}] as keyword arguments: a later assignment to the same key
    replaces the earlier one. *)
Definition dict_of_pairs (kvs : list (string * pyval Expr))
  : gmap string (pyval Expr) :=
  foldl (λ d kv, <[kv.1 := kv.2]> d) ∅ kvs.

(** [{key(x): value(x) for x in l}] with values as keys.  Each step evaluates
    the key, then the value, then inserts. *)
Fixpoint dict_comp {A} (l : list A) (body : A → M Expr (pyval Expr * pyval Expr))
    (d : pydict) : M Expr pydict :=
  match l with
  | [] => ret d
  | x :: l' =>
      kv <- body x;;
      d' <- lift (dict_setitem d kv.1 kv.2);;
      dict_comp l' body d'
  end.

(** [enumerate(l)]. *)
Definition enumerate {A} (l : list A) : list (nat * A) :=
  zip (seq 0 (length l)) l.
End Primitives.

(** ** The class bodies *)

(** The names bound in the body of [LabeledCollection]: every method and the
    two properties. *)
Definition class_members : list string :=
  ["__init__"; "_validate_field_entries"; "iter_name"; "iter_filter";
   "__setattr__"; "_enable_attribute_addition"; "_disable_attribute_addition";
   "__getitem__"; "_getitem_by_idx"; "_getitem_by_slice"; "_getitem_by_name";
   "__setitem__"; "_setitem_by_idx"; "_setitem_by_name"; "__iter__";
   "__next__"; "__len__"; "_extract_subset"; "apply"; "_new_obj"; "copy";
   "generate_collection"].

(** [CollectionPG.pg_field_names], the class attribute. *)
Definition pg_field_names : list string :=
  ["Psi";
   "Mss"; "Mpp"; "Msp"; "Msz"; "Mpz"; "zMss"; "zMpp"; "zMsp";
   "Bs_e"; "Bp_e"; "Bz_e"; "dBs_dz_e"; "dBp_dz_e";
   "Br_b"; "Bs_p"; "Bp_p"; "Bz_p"; "Bs_m"; "Bp_m"; "Bz_m"].

(** The names bound in the body of [CollectionPG]. *)
Definition pg_class_members : list string :=
  ["pg_field_names"; "vorticity"; "subset_mag"; "subset_moments";
   "subset_B_equator"; "subset_B_bound"; "subset_B_bound_cyl"].

Definition members_of (cls : pyclass) : list string :=
  match cls with
  | LabeledCollection_cls => class_members
  | CollectionPG_cls => pg_class_members ++ class_members
  end.

(** ** class LabeledCollection *)

Module LabeledCollection.
Section WithExpr.
Context {Expr : Type} `{!EqDecision Expr}.
Local Abbreviation M := (M Expr).
Local Abbreviation pyval := (pyval Expr).

(** The two properties are data descriptors: they are found before the
    instance dictionary, and each reads and writes one private attribute. *)
Definition property_slot (name : string) : option string :=
  if decide (name = "iter_name") then Some "_iter_name"
  else if decide (name = "iter_filter") then Some "_iter_filter"
  else None.

(** An attribute found on the class and not on the instance. *)
Definition class_attr (cls : pyclass) (self : loc) (name : string) : pyval :=
  match cls with
  | CollectionPG_cls =>
      if decide (name = "pg_field_names") then PyStrList pg_field_names
      else PyMethod self name
  | LabeledCollection_cls => PyMethod self name
  end.

(** [self.__dict__[name]], then the class. *)
Definition lookup_attr (self : loc) (name : string) : M pyval :=
  λ h, match h !! self with
       | Some (Collection cls dict) =>
           match dict !! name with
           | Some v => (h, Ok v)
           | None =>
               if decide (name ∈ members_of cls)
               then (h, Ok (class_attr cls self name))
               else (h, Raise AttributeError)
           end
       | _ => (h, Raise AttributeError)
       end.

(** [getattr(self, name)], that is [self.name]. *)
Definition getattr (self : loc) (name : string) : M pyval :=
  match property_slot name with
  | Some slot => lookup_attr self slot
  | None => lookup_attr self name
  end.

(** [hasattr(self, name)]: the attribute can be read without an
    [AttributeError]. *)
Definition hasattr (self : loc) (name : string) : M bool :=
  λ h, match getattr self name h with
       | (h', Ok _) => (h', Ok true)
       | (h', Raise AttributeError) => (h', Ok false)
       | (h', Raise e) => (h', Raise e)
       end.

(** [self.__dict__[name] = value]. *)
Definition store (self : loc) (name : string) (value : pyval) : M unit :=
  λ h, match h !! self with
       | Some (Collection cls dict) =>
           (<[self := Collection cls (<[name := value]> dict)]> h, Ok tt)
       | _ => (h, Raise AttributeError)
       end.

(** The guard at the head of [__setattr__]. *)
Definition lock_guard (self : loc) (name : string) : M unit :=
  has_lock <- hasattr self "_is_locked";;
  if has_lock : bool then
    locked <- getattr self "_is_locked";;
    if truthy locked then
      present <- hasattr self name;;
      if present : bool then ret tt else raise AttributeError
    else ret tt
  else ret tt.

(** [object.__setattr__], reached through [super()]: a property runs its
    setter, whose own assignment to the private attribute goes through the
    guard again; any other name is stored in the instance dictionary. *)
Definition object_setattr (self : loc) (name : string) (value : pyval)
  : M unit :=
  match property_slot name with
  | Some slot =>
      match value with
      | PyBool _ => lock_guard self slot;;; store self slot value
      | _ => raise TypeError
      end
  | None => store self name value
  end.

Definition __setattr__ (self : loc) (name : string) (value : pyval) : M unit :=
  lock_guard self name;;;
  object_setattr self name value.

Definition _enable_attribute_addition (self : loc) : M unit :=
  object_setattr self "_is_locked" (PyBool false).

Definition _disable_attribute_addition (self : loc) : M unit :=
  __setattr__ self "_is_locked" (PyBool true).

(** The names list an attribute holds, for [len], indexing, [in] and [for]. *)
Definition names_of (self : loc) (attr : string) : M (list string) :=
  v <- getattr self attr;;
  lift (as_names v).

Definition int_of (self : loc) (attr : string) : M Z :=
  v <- getattr self attr;;
  lift (as_int v).

Definition _validate_field_entries (self : loc) (fields : gmap string pyval)
  : M unit :=
  for_each (map_to_list fields).*1 (λ field_key,
    names <- names_of self "_field_names";;
    if decide (field_key ∈ names) then ret tt else raise TypeError).

Definition __init__ (self : loc) (names : list string)
    (fields : gmap string pyval) : M unit :=
  _enable_attribute_addition self;;;
  __setattr__ self "_field_names" (PyStrList names);;;
  _validate_field_entries self fields;;;
  for_each names (λ field_key,
    match fields !! field_key with
    | Some value => __setattr__ self field_key value
    | None => __setattr__ self field_key PyNone
    end);;;
  field_names <- names_of self "_field_names";;
  __setattr__ self "n_fields" (PyInt (Z.of_nat (length field_names)));;;
  __setattr__ self "_iter_name" (PyBool false);;;
  __setattr__ self "_iter_filter" (PyBool false);;;
  __setattr__ self "n_iter" (PyInt 0).

(** The call [LabeledCollection(names, **fields)]: a keyword that repeats a
    positional parameter of [__init__] is a [TypeError]. *)
Definition new (names : list string) (fields : gmap string pyval) : M loc :=
  self <- alloc (Collection LabeledCollection_cls ∅);;
  match fields !! "self", fields !! "names" with
  | None, None => __init__ self names fields;;; ret self
  | _, _ => raise TypeError
  end.

Definition _getitem_by_name (self : loc) (name : string) : M pyval :=
  names <- names_of self "_field_names";;
  if decide (name ∈ names) then getattr self name else raise KeyError.

Definition _getitem_by_idx (self : loc) (idx : Z) : M pyval :=
  names <- names_of self "_field_names";;
  name <- lift (index_names names idx);;
  _getitem_by_name self name.

Definition _getitem_by_slice (self : loc) (start stop : option Z)
  : M (list pyval) :=
  names <- names_of self "_field_names";;
  list_comp (py_slice names start stop) (λ name,
    v <- _getitem_by_name self name;; ret (Some v)).

Definition __getitem__ (self : loc) (key : pykey Expr) : M (item Expr) :=
  match key with
  | KInt z => v <- _getitem_by_idx self z;; ret (Single v)
  | KBool b => v <- _getitem_by_idx self (Z.b2z b);; ret (Single v)
  | KSlice start stop => vs <- _getitem_by_slice self start stop;; ret (Many vs)
  | KStr name => v <- _getitem_by_name self name;; ret (Single v)
  | KNone | KObj _ => raise TypeError
  end.

Definition _setitem_by_name (self : loc) (name : string) (val : pyval)
  : M unit :=
  names <- names_of self "_field_names";;
  if decide (name ∈ names) then __setattr__ self name val else raise KeyError.

Definition _setitem_by_idx (self : loc) (idx : Z) (val : pyval) : M unit :=
  names <- names_of self "_field_names";;
  name <- lift (index_names names idx);;
  _setitem_by_name self name val.

(** The last branch is [return TypeError]: the exception class is returned,
    not raised, and the assignment statement discards it. *)
Definition __setitem__ (self : loc) (key : pykey Expr) (val : pyval) : M unit :=
  match key with
  | KInt z => _setitem_by_idx self z val
  | KBool b => _setitem_by_idx self (Z.b2z b) val
  | KStr name => _setitem_by_name self name val
  | KSlice _ _ | KNone | KObj _ => ret tt
  end.

Definition __iter__ (self : loc) : M loc :=
  __setattr__ self "n_iter" (PyInt 0);;;
  ret self.

(** The call [self._getitem_by_idx(idx)] made where the interpreter's
    recursion limit allows [frames] more nested calls.  The call takes one
    frame and the call of [_getitem_by_name] inside it a second one; a call
    for which no frame is left raises [RecursionError]. *)
Definition _getitem_by_idx_within (frames : nat) (self : loc) (idx : Z)
  : M pyval :=
  match frames with
  | O => raise RecursionError
  | S O =>
      names <- names_of self "_field_names";;
      _ <- lift (index_names names idx);;
      raise RecursionError
  | S (S _) => _getitem_by_idx self idx
  end.

(** One activation of [__next__], in which [frames] more calls can be
    nested; [None] stands for the recursive call [return self.__next__()].
    The read of the item is the deepest chain of calls of an activation. *)
Definition next_step (frames : nat) (self : loc) : M (option (yielded Expr)) :=
  n_iter <- int_of self "n_iter";;
  n_fields <- int_of self "n_fields";;
  if (n_iter <? n_fields)%Z then
    it <- _getitem_by_idx_within frames self n_iter;;
    n_iter <- int_of self "n_iter";;
    __setattr__ self "n_iter" (PyInt (n_iter + 1));;;
    iter_filter <- getattr self "_iter_filter";;
    if truthy iter_filter && is_none it then ret None
    else
      iter_name <- getattr self "_iter_name";;
      if truthy iter_name then
        names <- names_of self "_field_names";;
        n_iter <- int_of self "n_iter";;
        name <- lift (index_names names n_iter);;
        ret (Some (Named name it))
      else ret (Some (Bare it))
  else raise StopIteration.

(** The activations of one call: the recursive call takes one of the frames
    that are left. *)
Fixpoint next_loop (frames : nat) (self : loc) : M (yielded Expr) :=
  r <- next_step frames self;;
  match r with
  | Some y => ret y
  | None =>
      match frames with
      | O => raise RecursionError
      | S frames' => next_loop frames' self
      end
  end.

(** [self.__next__()], called where [frames] more calls can be nested inside
    it: the recursion limit of the interpreter less the depth of the stack
    at the call. *)
Definition __next__ (frames : nat) (self : loc) : M (yielded Expr) :=
  next_loop frames self.

Definition __len__ (self : loc) : M pyval := getattr self "n_fields".

Definition _new_obj (self : loc) : M loc :=
  names <- names_of self "_field_names";;
  new names ∅.

(** [self[fname]] for a string subscript. *)
Definition subscript (self : loc) (key : pykey Expr) : M pyval :=
  it <- __getitem__ self key;;
  match it with
  | Single v => ret v
  | Many _ => raise TypeError
  end.

Definition copy (self : loc) : M loc :=
  names <- names_of self "_field_names";;
  names' <- names_of self "_field_names";;
  kvs <- list_comp names' (λ fname,
    v <- subscript self (KStr fname);; ret (Some (fname, v)));;
  new names (dict_of_pairs kvs).

Definition generate_collection (self : loc) (index_array : list bool) : M loc :=
  n_fields <- getattr self "n_fields";;
  if py_eq (PyInt (Z.of_nat (length index_array))) n_fields then
    names <- names_of self "_field_names";;
    new_names <- list_comp (enumerate names) (λ p,
      match index_array !! p.1 with
      | Some true => ret (Some p.2)
      | Some false => ret None
      | None => raise IndexError
      end);;
    names' <- names_of self "_field_names";;
    kvs <- list_comp (enumerate names') (λ p,
      match index_array !! p.1 with
      | Some true => v <- subscript self (KStr p.2);; ret (Some (p.2, v))
      | Some false => ret None
      | None => raise IndexError
      end);;
    new new_names (dict_of_pairs kvs)
  else raise AssertionError.

(** The body of the loop of [apply] for the index [i_field]: [func] (the parameter [fun]) gets the
    field's name as well when [metadata] is set. *)
Definition apply_item (self apply_to : loc)
    (func : option string → pyval → pyval) (metadata : bool) (i_field : Z)
  : M unit :=
  if metadata then
    names <- names_of self "_field_names";;
    name <- lift (index_names names i_field);;
    v <- subscript self (KInt i_field);;
    __setitem__ apply_to (KInt i_field) (func (Some name) v)
  else
    v <- subscript self (KInt i_field);;
    __setitem__ apply_to (KInt i_field) (func None v).

(** [new_obj] is [self._new_obj], the one method a subclass overrides: the
    caller passes the implementation of the receiver's class. *)
Definition apply (new_obj : loc → M loc) (self : loc)
    (func : option string → pyval → pyval) (inplace metadata : bool) : M loc :=
  apply_to <- (if inplace then ret self else new_obj self);;
  n_fields <- int_of self "n_fields";;
  for_each (py_range n_fields) (apply_item self apply_to func metadata);;;
  ret apply_to.

End WithExpr.
End LabeledCollection.

(** ** class LabeledSubCollection *)

Module LabeledSubCollection.
Section WithExpr.
Context {Expr : Type} `{!EqDecision Expr}.
Local Abbreviation M := (M Expr).
Local Abbreviation pyval := (pyval Expr).

Definition view_of (self : loc) : M subcollection :=
  λ h, match h !! self with
       | Some (View s) => (h, Ok s)
       | _ => (h, Raise AttributeError)
       end.

Definition put_view (self : loc) (s : subcollection) : M unit :=
  λ h, match h !! self with
       | Some (View _) => (<[self := View s]> h, Ok tt)
       | _ => (h, Raise AttributeError)
       end.

(** The call [LabeledSubCollection(base_collection, sub_slice)] with
    [sub_slice = slice(start, stop)]. *)
Definition new (base : loc) (start stop : option Z) : M loc :=
  n_fields <- LabeledCollection.int_of base "n_fields";;
  let tmp_idx := py_range n_fields in
  names <- LabeledCollection.names_of base "_field_names";;
  let sub_names := py_slice names start stop in
  alloc (View {| base_collection := base;
                 _sub_names := sub_names;
                 _sub_idx := py_slice tmp_idx start stop;
                 n_fields := Z.of_nat (length sub_names);
                 _iter_name := false;
                 _iter_filter := false;
                 n_iter := None |}).

(** The setters of the two properties. *)
Definition set_iter_name (self : loc) (option : pyval) : M unit :=
  match option with
  | PyBool b =>
      s <- view_of self;;
      put_view self {| base_collection := base_collection s;
                       _sub_names := _sub_names s; _sub_idx := _sub_idx s;
                       n_fields := n_fields s; _iter_name := b;
                       _iter_filter := _iter_filter s; n_iter := n_iter s |}
  | _ => raise TypeError
  end.


Definition set_n_iter (self : loc) (n : Z) : M unit :=
  s <- view_of self;;
  put_view self {| base_collection := base_collection s;
                   _sub_names := _sub_names s; _sub_idx := _sub_idx s;
                   n_fields := n_fields s; _iter_name := _iter_name s;
                   _iter_filter := _iter_filter s; n_iter := Some n |}.

Definition _getitem_by_idx (self : loc) (idx : Z) : M pyval :=
  s <- view_of self;;
  name <- lift (index_names (_sub_names s) idx);;
  LabeledCollection._getitem_by_name (base_collection s) name.

Definition _getitem_by_slice (self : loc) (start stop : option Z)
  : M (list pyval) :=
  s <- view_of self;;
  list_comp (py_slice (_sub_names s) start stop) (λ name,
    v <- LabeledCollection._getitem_by_name (base_collection s) name;;
    ret (Some v)).

Definition _getitem_by_name (self : loc) (name : string) : M pyval :=
  s <- view_of self;;
  if decide (name ∈ _sub_names s)
  then LabeledCollection._getitem_by_name (base_collection s) name
  else raise KeyError.

Definition __getitem__ (self : loc) (key : pykey Expr) : M (item Expr) :=
  match key with
  | KInt z => v <- _getitem_by_idx self z;; ret (Single v)
  | KBool b => v <- _getitem_by_idx self (Z.b2z b);; ret (Single v)
  | KSlice start stop => vs <- _getitem_by_slice self start stop;; ret (Many vs)
  | KStr name => v <- _getitem_by_name self name;; ret (Single v)
  | KNone | KObj _ => raise TypeError
  end.

Definition _setitem_by_idx (self : loc) (idx : Z) (val : pyval) : M unit :=
  s <- view_of self;;
  name <- lift (index_names (_sub_names s) idx);;
  LabeledCollection._setitem_by_name (base_collection s) name val.

Definition _setitem_by_name (self : loc) (name : string) (val : pyval)
  : M unit :=
  s <- view_of self;;
  if decide (name ∈ _sub_names s)
  then LabeledCollection._setitem_by_name (base_collection s) name val
  else raise KeyError.

(** As in the base class, the last branch is [return TypeError]. *)
Definition __setitem__ (self : loc) (key : pykey Expr) (val : pyval) : M unit :=
  match key with
  | KInt z => _setitem_by_idx self z val
  | KBool b => _setitem_by_idx self (Z.b2z b) val
  | KStr name => _setitem_by_name self name val
  | KSlice _ _ | KNone | KObj _ => ret tt
  end.

Definition __iter__ (self : loc) : M loc :=
  set_n_iter self 0;;;
  ret self.

Definition get_n_iter (self : loc) : M Z :=
  s <- view_of self;;
  match n_iter s with
  | Some z => ret z
  | None => raise AttributeError
  end.

(** The call [self._getitem_by_idx(idx)] made where [frames] more calls can
    be nested: one frame for the call, one for the call of the base's
    [_getitem_by_name] inside it. *)
Definition _getitem_by_idx_within (frames : nat) (self : loc) (idx : Z)
  : M pyval :=
  match frames with
  | O => raise RecursionError
  | S O =>
      s <- view_of self;;
      _ <- lift (index_names (_sub_names s) idx);;
      raise RecursionError
  | S (S _) => _getitem_by_idx self idx
  end.

(** One activation of [__next__], in which [frames] more calls can be
    nested; [None] stands for the recursive call.  With [_iter_name] set the
    step reads [self._field_names], an attribute a view does not have. *)
Definition next_step (frames : nat) (self : loc) : M (option (yielded Expr)) :=
  i <- get_n_iter self;;
  s <- view_of self;;
  if (i <? n_fields s)%Z then
    it <- _getitem_by_idx_within frames self i;;
    i' <- get_n_iter self;;
    set_n_iter self (i' + 1);;;
    s' <- view_of self;;
    if _iter_filter s' && is_none it then ret None
    else if _iter_name s' then raise AttributeError
    else ret (Some (Bare it))
  else raise StopIteration.

Fixpoint next_loop (frames : nat) (self : loc) : M (yielded Expr) :=
  r <- next_step frames self;;
  match r with
  | Some y => ret y
  | None =>
      match frames with
      | O => raise RecursionError
      | S frames' => next_loop frames' self
      end
  end.

(** [self.__next__()], called where [frames] more calls can be nested inside
    it. *)
Definition __next__ (frames : nat) (self : loc) : M (yielded Expr) :=
  next_loop frames self.

End WithExpr.
End LabeledSubCollection.

(** [LabeledCollection._extract_subset], for [sub_slice = slice(start, stop)]. *)
Definition _extract_subset {Expr : Type} (self : loc) (start stop : option Z)
  : M Expr loc :=
  LabeledSubCollection.new self start stop.

(** ** class CollectionPG *)

Module CollectionPG.
Section WithExpr.
Context {Expr : Type} `{!EqDecision Expr}.
Local Abbreviation M := (M Expr).
Local Abbreviation pyval := (pyval Expr).

(** [super().__init__(self.pg_field_names, **fields)], then the lock. *)
Definition __init__ (self : loc) (fields : gmap string pyval) : M unit :=
  names <- LabeledCollection.names_of self "pg_field_names";;
  match fields !! "names" with
  | None => LabeledCollection.__init__ self names fields
  | Some _ => raise TypeError
  end;;;
  LabeledCollection._disable_attribute_addition self.

(** The call [CollectionPG] with keyword arguments [fields]. *)
Definition new (fields : gmap string pyval) : M loc :=
  self <- alloc (Collection CollectionPG_cls ∅);;
  match fields !! "self" with
  | None => __init__ self fields;;; ret self
  | Some _ => raise TypeError
  end.

Definition vorticity (self : loc) : M pyval :=
  LabeledCollection.getattr self "Psi".

Definition subset_mag (self : loc) : M loc :=
  _extract_subset self (Some 1%Z) None.

Definition subset_moments (self : loc) : M loc :=
  _extract_subset self (Some 1%Z) (Some 9%Z).

Definition subset_B_equator (self : loc) : M loc :=
  _extract_subset self (Some 9%Z) (Some 14%Z).

Definition subset_B_bound (self : loc) : M loc :=
  _extract_subset self (Some 14%Z) None.

Definition subset_B_bound_cyl (self : loc) : M loc :=
  _extract_subset self (Some 15%Z) None.

Definition _new_obj (self : loc) : M loc := new ∅.

Definition copy (self : loc) : M loc :=
  names <- LabeledCollection.names_of self "_field_names";;
  kvs <- list_comp names (λ fname,
    v <- LabeledCollection.subscript self (KStr fname);;
    ret (Some (fname, v)));;
  new (dict_of_pairs kvs).

End WithExpr.
End CollectionPG.

(** ** Method resolution on the receiver's class *)

Module Virtual.
Section WithExpr.
Context {Expr : Type} `{!EqDecision Expr}.
Local Abbreviation M := (M Expr).
Local Abbreviation pyval := (pyval Expr).

Definition class_of (self : loc) : M pyclass :=
  λ h, match h !! self with
       | Some (Collection cls _) => (h, Ok cls)
       | _ => (h, Raise AttributeError)
       end.

(** [self._new_obj()] on a collection of either class. *)
Definition _new_obj (self : loc) : M loc :=
  cls <- class_of self;;
  match cls with
  | LabeledCollection_cls => LabeledCollection._new_obj self
  | CollectionPG_cls => CollectionPG._new_obj self
  end.

(** [self.copy()] on a collection of either class. *)
Definition copy (self : loc) : M loc :=
  cls <- class_of self;;
  match cls with
  | LabeledCollection_cls => LabeledCollection.copy self
  | CollectionPG_cls => CollectionPG.copy self
  end.

(** [self.apply(fun, inplace, metadata)]: [CollectionPG.apply] only calls
    [super().apply]. *)
Definition apply (self : loc) (func : option string → pyval → pyval)
    (inplace metadata : bool) : M loc :=
  LabeledCollection.apply _new_obj self func inplace metadata.

End WithExpr.
End Virtual.

(** ** The module-level functions *)

Section Functions.
Context {Expr : Type} `{!EqDecision Expr}.
Local Abbreviation M := (M Expr).
Local Abbreviation pyval := (pyval Expr).

Definition map_collection (maps_from maps_to : loc) : M pydict :=
  names_from <- LabeledCollection.getattr maps_from "_field_names";;
  names_to <- LabeledCollection.getattr maps_to "_field_names";;
  if py_eq names_from names_to then
    names <- LabeledCollection.names_of maps_to "_field_names";;
    dict_comp names (λ fname,
      k <- LabeledCollection.subscript maps_from (KStr fname);;
      v <- LabeledCollection.subscript maps_to (KStr fname);;
      ret (k, v)) []
  else raise AssertionError.

Definition map_PG_fields (maps_from maps_to : loc) : M pydict :=
  n_fields <- LabeledCollection.int_of maps_from "n_fields";;
  dict_comp (py_range n_fields) (λ i_field,
    k <- LabeledCollection.subscript maps_from (KInt i_field);;
    v <- LabeledCollection.subscript maps_to (KInt i_field);;
    ret (k, v)) [].

End Functions.


(** ** Well-formed collections *)

Section WellFormed.
Context {Expr : Type} `{!EqDecision Expr}.
Local Abbreviation M := (M Expr).
Local Abbreviation pyval := (pyval Expr).

(** The bookkeeping attributes [LabeledCollection.__init__] creates. *)
Definition bookkeeping : list string :=
  ["_is_locked"; "_field_names"; "n_fields"; "_iter_name"; "_iter_filter";
   "n_iter"].

(** Names a field cannot have without colliding with the class: the
    bookkeeping attributes, the class members, and the two positional
    parameters of [__init__], which a keyword argument may not repeat. *)
Definition reserved_names : list string :=
  bookkeeping ++ ["self"; "names"] ++ pg_class_members ++ class_members.

Definition plain_name (name : string) : bool :=
  bool_decide (name ∉ reserved_names) && negb (String.prefix "__" name).

(** [schema_of h c] is the class, the schema and the lock of the collection at
    [c], when the object at [c] is a collection in the state [__init__] leaves
    it in and the field assignments keep it in: the bookkeeping attributes
    have their types, [n_fields] is the length of the schema, every field
    name is plain and is an attribute, and a [CollectionPG] has the 21 names. *)
Definition schema_of (h : heap Expr) (c : loc)
  : option (pyclass * list string * bool) :=
  match h !! c with
  | Some (Collection cls dict) =>
      match dict !! "_field_names", dict !! "n_fields", dict !! "_is_locked",
            dict !! "_iter_name", dict !! "_iter_filter", dict !! "n_iter" with
      | Some (PyStrList names), Some (PyInt n), Some (PyBool locked),
        Some (PyBool _), Some (PyBool _), Some (PyInt _) =>
          if (n =? Z.of_nat (length names))%Z
             && forallb (λ name,
                  plain_name name && bool_decide (is_Some (dict !! name))) names
             && match cls with
                | CollectionPG_cls => bool_decide (names = pg_field_names)
                | LabeledCollection_cls => true
                end
          then Some (cls, names, locked)
          else None
      | _, _, _, _, _, _ => None
      end
  | _ => None
  end.

(** The value of attribute [name] in the dictionary of the collection at [c]. *)
Definition slot (h : heap Expr) (c : loc) (name : string) : option pyval :=
  match h !! c with
  | Some (Collection _ dict) => dict !! name
  | _ => None
  end.

(** What [schema_of] checks, as the facts the proofs use, with the dictionary
    of the collection named. *)
Record collection_at (h : heap Expr) (c : loc) (cls : pyclass)
    (names : list string) (locked : bool) (dict : gmap string pyval) : Prop := {
  ca_obj : h !! c = Some (Collection cls dict);
  ca_names : dict !! "_field_names" = Some (PyStrList names);
  ca_n_fields : dict !! "n_fields" = Some (PyInt (Z.of_nat (length names)));
  ca_locked : dict !! "_is_locked" = Some (PyBool locked);
  ca_iter_name : ∃ b, dict !! "_iter_name" = Some (PyBool b);
  ca_iter_filter : ∃ b, dict !! "_iter_filter" = Some (PyBool b);
  ca_n_iter : ∃ i, dict !! "n_iter" = Some (PyInt i);
  ca_fields :
    Forall (λ name, plain_name name = true ∧ is_Some (dict !! name)) names;
  ca_class : cls = CollectionPG_cls → names = pg_field_names
}.

(** The attribute dictionary [__init__] builds: the loop over [names] assigns
    the supplied value or [None] to each field in turn. *)
Definition init_fields (names : list string) (fields : gmap string pyval)
    (dict : gmap string pyval) : gmap string pyval :=
  foldl (λ d name, <[name := default PyNone (fields !! name)]> d) dict names.

Definition init_dict (names : list string) (fields : gmap string pyval)
  : gmap string pyval :=
  <["n_iter" := PyInt 0]> (<["_iter_filter" := PyBool false]>
    (<["_iter_name" := PyBool false]>
      (<["n_fields" := PyInt (Z.of_nat (length names))]>
        (init_fields names fields
          (<["_field_names" := PyStrList names]>
            (<["_is_locked" := PyBool false]> ∅)))))).

(** The keyword arguments [generate_collection] and [copy] build from the
    fields [l] of a collection with dictionary [dict]. *)
Definition carried (dict : gmap string pyval) (l : list string)
  : gmap string pyval :=
  dict_of_pairs ((λ name, (name, default PyNone (dict !! name))) <$> l).

(** The dictionary after the assignments [d[name] = g name] for the names of
    [l] in turn. *)
Definition assign_all (g : string → pyval) (l : list string)
    (dict : gmap string pyval) : gmap string pyval :=
  foldl (λ d name, <[name := g name]> d) dict l.

(** What [apply] stores at the field [name] of a collection whose dictionary
    was [dict] at the call. *)
Definition applied (func : option string → pyval → pyval) (metadata : bool)
    (dict : gmap string pyval) (name : string) : pyval :=
  func (if metadata then Some name else None) (default PyNone (dict !! name)).

(** The dictionary the assignments [d[k] = v] build, for the pairs of [kvs]
    in turn. *)
Definition of_pairs (kvs : list (pyval * pyval)) : pydict :=
  foldl (λ d kv, dict_set d kv.1 kv.2) [] kvs.

(** The value paired with the last key of [kvs] that equals [k]. *)
Fixpoint last_value (kvs : list (pyval * pyval)) (k : pyval) : option pyval :=
  match kvs with
  | [] => None
  | (k0, v0) :: rest =>
      match last_value rest k with
      | Some v => Some v
      | None => if py_eq k0 k then Some v0 else None
      end
  end.

(** No two of the keys are equal. *)
Fixpoint keys_distinct (ks : list pyval) : Prop :=
  match ks with
  | [] => True
  | k :: ks' => Forall (λ k', py_eq k k' = false) ks' ∧ keys_distinct ks'
  end.

(** The values of the collection at [c] along the names [l]. *)
Definition values_along (h : heap Expr) (c : loc) (l : list string)
  : list pyval :=
  (λ name, default PyNone (slot h c name)) <$> l.

(** A computation that leaves every object but the one at [r] as it is. *)
Definition only_writes {A} (r : loc) (m : M A) : Prop :=
  ∀ h c, c ≠ r → (m h).1 !! c = h !! c.

(** The elements of [l] at the positions where [mask] is true. *)
Fixpoint select {A} (mask : list bool) (l : list A) : list A :=
  match mask, l with
  | b :: mask', x :: l' => if b then x :: select mask' l' else select mask' l'
  | _, _ => []
  end.

End WellFormed.

(** ** Concrete scenarios *)

(** The scenarios take the names of symbols for the opaque values. *)
Abbreviation sym := (PyExpr (Expr := string)).

(** [CollectionPG(Psi=x0, Mss=x1, Bs_e=x2)] at location 0 of an empty heap,
    then [subset_moments()] at location 1. *)
Definition pg_fields : gmap string (pyval string) :=
  <["Psi" := sym "x0"]> (<["Mss" := sym "x1"]> (<["Bs_e" := sym "x2"]> ∅)).

Definition pg_heap : heap string :=
  (bind (CollectionPG.new pg_fields) CollectionPG.subset_moments []).1.

(** [LabeledCollection(["a", "b"], a=x1, b=x2)] at location 0 and
    [LabeledCollection(["p"], p=y1)] at location 1, with a view of the first
    over [0:2] at location 2. *)
Definition ab_fields : gmap string (pyval string) :=
  <["a" := sym "x1"]> (<["b" := sym "x2"]> ∅).

Definition ab_heap : heap string :=
  (bind (LabeledCollection.new ["a"; "b"] ab_fields) (λ c,
     bind (LabeledCollection.new ["p"] (<["p" := sym "y1"]> ∅)) (λ _,
       _extract_subset c (Some 0%Z) (Some 2%Z))) []).1.

(** Two collections over the names [u], [v], [w]; in the first, [u] and [w]
    hold the same value. *)
Definition uvw_heap : heap string :=
  (bind (LabeledCollection.new ["u"; "v"; "w"]
           (<["u" := sym "x"]> (<["v" := sym "y"]> (<["w" := sym "x"]> ∅))))
     (λ _, LabeledCollection.new ["u"; "v"; "w"]
             (<["u" := sym "t1"]> (<["v" := sym "t2"]> (<["w" := sym "t3"]> ∅))))
     []).1.

(** Two collections over the names [u], [v]; in the first, [v] holds a list,
    which cannot be a dictionary key. *)
Definition list_heap : heap string :=
  (bind (LabeledCollection.new ["u"; "v"]
           (<["u" := sym "x"]> (<["v" := PyStrList ["p"; "q"]]> ∅)))
     (λ _, LabeledCollection.new ["u"; "v"]
             (<["u" := sym "t1"]> (<["v" := sym "t2"]> ∅)))
     []).1.



(** The calls that can be nested inside a call of [next] made by a loop at
    the top level of a script: the interpreter's default recursion limit of
    1000, less the frame of the script and that of [next] itself. *)
Definition script_frames : nat := 998.

(** [n] calls of [next] on a collection, and on a view, collecting what they
    yield. *)
Fixpoint nexts (c : loc) (n : nat) : M string (list (yielded string)) :=
  match n with
  | O => ret []
  | S n' =>
      y <- LabeledCollection.__next__ script_frames c;;
      ys <- nexts c n';;
      ret (y :: ys)
  end.

Fixpoint view_nexts (v : loc) (n : nat) : M string (list (yielded string)) :=
  match n with
  | O => ret []
  | S n' =>
      y <- LabeledSubCollection.__next__ script_frames v;;
      ys <- view_nexts v n';;
      ret (y :: ys)
  end.

(** [c.iter_name = flag], then [iter(c)] and [n] calls of [next]. *)
Definition iterate (c : loc) (flag : bool) (n : nat)
  : M string (list (yielded string)) :=
  LabeledCollection.__setattr__ c "iter_name" (PyBool flag);;;
  _ <- LabeledCollection.__iter__ c;;
  nexts c n.

Definition iterate_view (v : loc) (flag : bool) (n : nat)
  : M string (list (yielded string)) :=
  LabeledSubCollection.set_iter_name v (PyBool flag);;;
  _ <- LabeledSubCollection.__iter__ v;;
  view_nexts v n.

(** An example of [fun] for [apply]: priming a symbol. *)
Definition prime (name : option string) (v : pyval string) : pyval string :=
  match v with
  | PyExpr e => PyExpr (e +:+ "'")
  | _ => v
  end.

(** The mask of the first 14 of the 21 fields. *)
Definition first_14 : list bool := replicate 14 true ++ replicate 7 false.

(** The view [subset_moments()] leaves at location 1 of [pg_heap]. *)
Definition moments_view : subcollection :=
  {| base_collection := 0;
     _sub_names := ["Mss"; "Mpp"; "Msp"; "Msz"; "Mpz"; "zMss"; "zMpp"; "zMsp"];
     _sub_idx := [1; 2; 3; 4; 5; 6; 7; 8]%Z;
     n_fields := 8;
     _iter_name := false;
     _iter_filter := false;
     n_iter := None |}.

(** [pg_heap] after [subset_mag()], whose view is at location 2. *)
Definition mag_heap : heap string := (CollectionPG.subset_mag 0 pg_heap).1.

Definition mag_view : subcollection :=
  {| base_collection := 0;
     _sub_names := py_slice pg_field_names (Some 1%Z) None;
     _sub_idx := py_slice (py_range 21) (Some 1%Z) None;
     n_fields := 20;
     _iter_name := false;
     _iter_filter := false;
     n_iter := None |}.

(** ** Iterating and masking, for any values *)

Section Iterating.
Context {Expr : Type} `{!EqDecision Expr}.
Local Abbreviation M := (M Expr).
Local Abbreviation pyval := (pyval Expr).






(** The boolean array [np.full(n, False)] after [mask[:k] = True], as
    [expand_daria_malkus] builds its [field_indexer]. *)
Definition prefix_mask (n k : nat) : list bool :=
  replicate (k `min` n) true ++ replicate (n - k) false.


(** The base and the names of the view at [v]. *)
Definition view_schema (h : heap Expr) (v : loc) : option (loc * list string) :=
  match h !! v with
  | Some (View s) => Some (base_collection s, _sub_names s)
  | _ => None
  end.

End Iterating.

(** * Properties *)

(** ** The monad *)

Section MonadLemmas.
Context {Expr : Type}.

Lemma bind_ok {A B} (m : M Expr A) (k : A → M Expr B) h h' a :
  m h = (h', Ok a) → bind m k h = k a h'.
Proof. intros Hm. unfold bind. by rewrite Hm. Qed.

Lemma bind_raise {A B} (m : M Expr A) (k : A → M Expr B) h h' e :
  m h = (h', Raise e) → bind m k h = (h', Raise e).
Proof. intros Hm. unfold bind. by rewrite Hm. Qed.

Lemma bind_ret {A B} (a : A) (k : A → M Expr B) h : bind (ret a) k h = k a h.
Proof. done. Qed.

Lemma bind_lift_ok {A B} (a : A) (k : A → M Expr B) h :
  bind (lift (Ok a)) k h = k a h.
Proof. done. Qed.

End MonadLemmas.

(** [mstep lem] runs the first computation of a sequence with the equation
    [lem] gives for it. *)
Tactic Notation "mstep" uconstr(lem) :=
  erewrite bind_ok; [| by eapply lem]; cbn beta iota.

(** [ca_open H] names the facts a [collection_at] hypothesis holds. *)
Ltac ca_open H :=
  pose proof H as [Hobj Hnames Hnf Hlocked Hitn Hitf Hnit Hfields Hcls].

(** ** Attribute access on a well-formed collection *)

Section Attributes.
Context {Expr : Type} `{!EqDecision Expr}.
Local Abbreviation M := (M Expr).
Local Abbreviation pyval := (pyval Expr).
Implicit Types (h : heap Expr) (c : loc) (dict : gmap string pyval).
Import LabeledCollection.

Lemma schema_of_unfold h c cls names locked :
  schema_of h c = Some (cls, names, locked) ↔
  ∃ dict, collection_at h c cls names locked dict.
Proof.
  unfold schema_of. split.
  - destruct (h !! c) as [[cls' dict|]|] eqn:Hc; try done.
    destruct (dict !! "_field_names") as [[]|] eqn:H1; try done.
    destruct (dict !! "n_fields") as [[]|] eqn:H2; try done.
    destruct (dict !! "_is_locked") as [[]|] eqn:H3; try done.
    destruct (dict !! "_iter_name") as [[]|] eqn:H4; try done.
    destruct (dict !! "_iter_filter") as [[]|] eqn:H5; try done.
    destruct (dict !! "n_iter") as [[]|] eqn:H6; try done.
    case_match eqn:Hb; [|done]. intros [= -> -> ->].
    apply andb_prop in Hb as [Hb Hcls]. apply andb_prop in Hb as [Hn Hf].
    apply Z.eqb_eq in Hn as ->.
    exists dict. split; eauto.
    + apply Forall_forall. intros name Hin.
      rewrite forallb_forall in Hf. apply list_elem_of_In, Hf in Hin.
      apply andb_prop in Hin as [? ?%bool_decide_eq_true]. done.
    + intros ->. by apply bool_decide_eq_true in Hcls.
  - intros [dict [Hc H1 H2 H3 [b4 H4] [b5 H5] [i H6] Hf Hcls]].
    rewrite Hc, H1, H2, H3, H4, H5, H6, Z.eqb_refl. simpl.
    assert (forallb (λ name, plain_name name
              && bool_decide (is_Some (dict !! name))) names = true) as ->.
    { apply forallb_forall. intros name Hin%list_elem_of_In.
      rewrite Forall_forall in Hf. destruct (Hf _ Hin) as [-> ?].
      by apply bool_decide_eq_true. }
    destruct cls; [done|]. simpl.
    rewrite bool_decide_eq_true_2; [done|]. by apply Hcls.
Qed.

Lemma plain_name_not_reserved name r :
  plain_name name = true → r ∈ reserved_names → name ≠ r.
Proof.
  unfold plain_name. intros [Hn _]%andb_prop Hr ->.
  by apply bool_decide_eq_true in Hn.
Qed.

Lemma plain_name_property_slot name :
  plain_name name = true → property_slot name = None.
Proof.
  intros Hp. unfold property_slot.
  destruct (decide (name = "iter_name")) as [->|]; [by vm_compute in Hp|].
  destruct (decide (name = "iter_filter")) as [->|]; [by vm_compute in Hp|].
  done.
Qed.

Lemma plain_name_not_member name cls :
  plain_name name = true → name ∉ members_of cls.
Proof.
  unfold plain_name. intros [Hn _]%andb_prop Hin.
  apply bool_decide_eq_true in Hn. apply Hn. unfold reserved_names.
  destruct cls; unfold members_of in Hin; rewrite !elem_of_app in *; tauto.
Qed.

Lemma getattr_dict h c cls dict name v :
  h !! c = Some (Collection cls dict) →
  property_slot name = None →
  dict !! name = Some v →
  getattr c name h = (h, Ok v).
Proof.
  intros Hc Hp Hv. unfold getattr, lookup_attr. by rewrite Hp, Hc, Hv.
Qed.

Lemma getattr_missing h c cls dict name :
  h !! c = Some (Collection cls dict) →
  property_slot name = None →
  dict !! name = None →
  name ∉ members_of cls →
  getattr c name h = (h, Raise AttributeError).
Proof.
  intros Hc Hp Hv Hm. unfold getattr, lookup_attr. rewrite Hp, Hc, Hv.
  by rewrite decide_False.
Qed.

Lemma getattr_class h c cls dict name :
  h !! c = Some (Collection cls dict) →
  property_slot name = None →
  dict !! name = None →
  name ∈ members_of cls →
  getattr c name h = (h, Ok (class_attr cls c name)).
Proof.
  intros Hc Hp Hv Hm. unfold getattr, lookup_attr. rewrite Hp, Hc, Hv.
  by rewrite decide_True.
Qed.

Lemma hasattr_dict h c cls dict name v :
  h !! c = Some (Collection cls dict) →
  property_slot name = None →
  dict !! name = Some v →
  hasattr c name h = (h, Ok true).
Proof.
  intros Hc Hp Hv. unfold hasattr. by erewrite getattr_dict.
Qed.

Lemma hasattr_missing h c cls dict name :
  h !! c = Some (Collection cls dict) →
  property_slot name = None →
  dict !! name = None →
  name ∉ members_of cls →
  hasattr c name h = (h, Ok false).
Proof.
  intros Hc Hp Hv Hm. unfold hasattr. by erewrite getattr_missing.
Qed.

(** The guard lets an assignment through when the collection is not locked,
    or when the attribute exists already. *)
Lemma lock_guard_ok h c cls dict name locked :
  h !! c = Some (Collection cls dict) →
  dict !! "_is_locked" = Some (PyBool locked) →
  property_slot name = None →
  locked = false ∨ is_Some (dict !! name) →
  lock_guard c name h = (h, Ok tt).
Proof.
  intros Hc Hl Hp Hor. unfold lock_guard.
  mstep hasattr_dict. mstep getattr_dict.
  destruct locked; cbn [truthy]; [|done].
  destruct Hor as [|[v Hv]]; [done|].
  mstep hasattr_dict. done.
Qed.

(** It stops the introduction of a new attribute on a locked collection. *)
Lemma lock_guard_reject h c cls dict name :
  h !! c = Some (Collection cls dict) →
  dict !! "_is_locked" = Some (PyBool true) →
  property_slot name = None →
  dict !! name = None →
  name ∉ members_of cls →
  lock_guard c name h = (h, Raise AttributeError).
Proof.
  intros Hc Hl Hp Hv Hm. unfold lock_guard.
  mstep hasattr_dict. mstep getattr_dict. cbn [truthy].
  mstep hasattr_missing. done.
Qed.

Lemma store_ok h c cls dict name v :
  h !! c = Some (Collection cls dict) →
  store c name v h = (<[c := Collection cls (<[name := v]> dict)]> h, Ok tt).
Proof. intros Hc. unfold store. by rewrite Hc. Qed.

Lemma setattr_ok h c cls dict name locked v :
  h !! c = Some (Collection cls dict) →
  dict !! "_is_locked" = Some (PyBool locked) →
  property_slot name = None →
  locked = false ∨ is_Some (dict !! name) →
  __setattr__ c name v h
  = (<[c := Collection cls (<[name := v]> dict)]> h, Ok tt).
Proof.
  intros Hc Hl Hp Hor. unfold __setattr__.
  mstep lock_guard_ok.
  unfold object_setattr. rewrite Hp. by apply store_ok.
Qed.

Lemma setattr_reject h c cls dict name v :
  h !! c = Some (Collection cls dict) →
  dict !! "_is_locked" = Some (PyBool true) →
  property_slot name = None →
  dict !! name = None →
  name ∉ members_of cls →
  __setattr__ c name v h = (h, Raise AttributeError).
Proof.
  intros Hc Hl Hp Hv Hm. unfold __setattr__.
  erewrite bind_raise; [done|]. by eapply lock_guard_reject.
Qed.

Lemma heap_lookup_update h c (o : object Expr) :
  is_Some (h !! c) → <[c := o]> h !! c = Some o.
Proof. intros Hc. apply list_lookup_insert_eq. by apply lookup_lt_is_Some. Qed.

Lemma heap_lookup_frame h c c' (o : object Expr) :
  c ≠ c' → <[c := o]> h !! c' = h !! c'.
Proof. intros Hne. by apply list_lookup_insert_ne. Qed.

(** Assigning a field, or any attribute with a plain name, keeps the
    collection well formed. *)
Lemma collection_at_store h c cls names locked dict name v :
  collection_at h c cls names locked dict →
  plain_name name = true →
  collection_at (<[c := Collection cls (<[name := v]> dict)]> h) c cls names
    locked (<[name := v]> dict).
Proof.
  intros [Hc H1 H2 H3 [b4 H4] [b5 H5] [i H6] Hf Hcls] Hp.
  assert (∀ r, r ∈ reserved_names → <[name := v]> dict !! r = dict !! r) as Hr.
  { intros r Hr. apply lookup_insert_ne. by eapply plain_name_not_reserved. }
  split.
  - apply heap_lookup_update. by rewrite Hc.
  - rewrite Hr; [done|]. by apply (bool_decide_unpack _).
  - rewrite Hr; [done|]. by apply (bool_decide_unpack _).
  - rewrite Hr; [done|]. by apply (bool_decide_unpack _).
  - exists b4. rewrite Hr; [done|]. by apply (bool_decide_unpack _).
  - exists b5. rewrite Hr; [done|]. by apply (bool_decide_unpack _).
  - exists i. rewrite Hr; [done|]. by apply (bool_decide_unpack _).
  - eapply Forall_impl; [exact Hf|]. intros x [? Hx]. split; [done|].
    rewrite lookup_insert. case_decide; [by eexists|done].
  - done.
Qed.

Lemma collection_at_field h c cls names locked dict name :
  collection_at h c cls names locked dict →
  name ∈ names →
  plain_name name = true ∧ is_Some (dict !! name).
Proof.
  intros Hca Hin. pose proof (ca_fields _ _ _ _ _ _ Hca) as Hf.
  rewrite Forall_forall in Hf. by apply Hf.
Qed.

Lemma names_of_field_names h c cls names locked dict :
  collection_at h c cls names locked dict →
  names_of c "_field_names" h = (h, Ok names).
Proof.
  intros Hca. ca_open Hca. unfold names_of. by mstep getattr_dict.
Qed.

Lemma int_of_n_fields h c cls names locked dict :
  collection_at h c cls names locked dict →
  int_of c "n_fields" h = (h, Ok (Z.of_nat (length names))).
Proof.
  intros Hca. ca_open Hca. unfold int_of. by mstep getattr_dict.
Qed.

Lemma getitem_by_name_ok h c cls names locked dict name v :
  collection_at h c cls names locked dict →
  name ∈ names →
  dict !! name = Some v →
  _getitem_by_name c name h = (h, Ok v).
Proof.
  intros Hca Hin Hv. unfold _getitem_by_name.
  mstep names_of_field_names. rewrite decide_True by done.
  eapply getattr_dict; [apply Hca| |done].
  apply plain_name_property_slot. by eapply collection_at_field.
Qed.

Lemma getitem_by_name_missing h c cls names locked dict name :
  collection_at h c cls names locked dict →
  name ∉ names →
  _getitem_by_name c name h = (h, Raise KeyError).
Proof.
  intros Hca Hin. unfold _getitem_by_name.
  mstep names_of_field_names. by rewrite decide_False.
Qed.

Lemma setitem_by_name_ok h c cls names locked dict name v :
  collection_at h c cls names locked dict →
  name ∈ names →
  _setitem_by_name c name v h
  = (<[c := Collection cls (<[name := v]> dict)]> h, Ok tt).
Proof.
  intros Hca Hin. unfold _setitem_by_name.
  mstep names_of_field_names. rewrite decide_True by done.
  destruct (collection_at_field _ _ _ _ _ _ _ Hca Hin) as [Hp Hs].
  eapply setattr_ok; [apply Hca..| |by right].
  by apply plain_name_property_slot.
Qed.

Lemma setitem_by_name_missing h c cls names locked dict name v :
  collection_at h c cls names locked dict →
  name ∉ names →
  _setitem_by_name c name v h = (h, Raise KeyError).
Proof.
  intros Hca Hin. unfold _setitem_by_name.
  mstep names_of_field_names. by rewrite decide_False.
Qed.

Lemma getitem_by_idx_ok h c cls names locked dict idx name v :
  collection_at h c cls names locked dict →
  py_index names idx = Some name →
  dict !! name = Some v →
  _getitem_by_idx c idx h = (h, Ok v).
Proof.
  intros Hca Hi Hv. unfold _getitem_by_idx.
  mstep names_of_field_names. unfold index_names. rewrite Hi.
  rewrite bind_lift_ok. eapply getitem_by_name_ok; [done| |done].
  unfold py_index in Hi. repeat case_decide; try done;
    by eapply list_elem_of_lookup_2.
Qed.

Lemma py_index_elem_of {A} (l : list A) i x : py_index l i = Some x → x ∈ l.
Proof.
  unfold py_index. intros Hi.
  repeat case_decide; try done; by eapply list_elem_of_lookup_2.
Qed.

Lemma setitem_by_idx_ok h c cls names locked dict idx name v :
  collection_at h c cls names locked dict →
  py_index names idx = Some name →
  _setitem_by_idx c idx v h
  = (<[c := Collection cls (<[name := v]> dict)]> h, Ok tt).
Proof.
  intros Hca Hi. unfold _setitem_by_idx.
  mstep names_of_field_names. unfold index_names. rewrite Hi.
  rewrite bind_lift_ok. eapply setitem_by_name_ok; [done|].
  by eapply py_index_elem_of.
Qed.

(** Python's negative indices count from the end. *)
Lemma py_index_negative {A} (l : list A) (k : Z) :
  (- Z.of_nat (length l) ≤ k ≤ -1)%Z →
  py_index l k = l !! Z.to_nat (Z.of_nat (length l) + k)
  ∧ is_Some (l !! Z.to_nat (Z.of_nat (length l) + k)).
Proof.
  intros Hk. unfold py_index.
  rewrite decide_False by lia. rewrite decide_True by lia.
  split; [done|]. apply lookup_lt_is_Some. lia.
Qed.

Lemma py_slice_subseteq {A} (l : list A) start stop : py_slice l start stop ⊆ l.
Proof.
  unfold py_slice. etrans; [apply subseteq_take|apply subseteq_drop].
Qed.

End Attributes.

(** ** Views *)

Section Views.
Context {Expr : Type} `{!EqDecision Expr}.
Local Abbreviation M := (M Expr).
Local Abbreviation pyval := (pyval Expr).
Implicit Types (h : heap Expr) (c v : loc) (dict : gmap string pyval).
Implicit Types (s : subcollection) (x : pyval).

Lemma view_of_ok h v s :
  h !! v = Some (View s) → LabeledSubCollection.view_of v h = (h, Ok s).
Proof. intros Hv. unfold LabeledSubCollection.view_of. by rewrite Hv. Qed.

Lemma view_setitem_by_name h v s name x :
  h !! v = Some (View s) →
  name ∈ _sub_names s →
  LabeledSubCollection._setitem_by_name v name x h
  = LabeledCollection._setitem_by_name (base_collection s) name x h.
Proof.
  intros Hv Hin. unfold LabeledSubCollection._setitem_by_name.
  mstep view_of_ok. by rewrite decide_True.
Qed.

Lemma view_setitem_by_idx h v s idx name x :
  h !! v = Some (View s) →
  py_index (_sub_names s) idx = Some name →
  LabeledSubCollection._setitem_by_idx v idx x h
  = LabeledCollection._setitem_by_name (base_collection s) name x h.
Proof.
  intros Hv Hi. unfold LabeledSubCollection._setitem_by_idx.
  mstep view_of_ok. unfold index_names. by rewrite Hi.
Qed.

Lemma view_getitem_by_name h v s name :
  h !! v = Some (View s) →
  name ∈ _sub_names s →
  LabeledSubCollection._getitem_by_name v name h
  = LabeledCollection._getitem_by_name (base_collection s) name h.
Proof.
  intros Hv Hin. unfold LabeledSubCollection._getitem_by_name.
  mstep view_of_ok. by rewrite decide_True.
Qed.

Lemma view_getitem_by_idx h v s idx name :
  h !! v = Some (View s) →
  py_index (_sub_names s) idx = Some name →
  LabeledSubCollection._getitem_by_idx v idx h
  = LabeledCollection._getitem_by_name (base_collection s) name h.
Proof.
  intros Hv Hi. unfold LabeledSubCollection._getitem_by_idx.
  mstep view_of_ok. unfold index_names. by rewrite Hi.
Qed.

(** A view stays where it is when its base is written. *)
Lemma view_frame h v s c (o : object Expr) cls dict :
  h !! v = Some (View s) →
  h !! c = Some (Collection cls dict) →
  <[c := o]> h !! v = Some (View s).
Proof.
  intros Hv Hc. rewrite heap_lookup_frame; [done|]. intros ->. congruence.
Qed.

Lemma elem_of_py_index {A} (l : list A) (a : A) :
  a ∈ l → ∃ i, (0 ≤ i)%Z ∧ py_index l i = Some a.
Proof.
  intros [i Hi]%list_elem_of_lookup_1. exists (Z.of_nat i). split; [lia|].
  unfold py_index. apply lookup_lt_Some in Hi as Hlt.
  rewrite decide_True by lia. by rewrite Nat2Z.id.
Qed.

(** C1: a view extracted from a collection over a range shares the storage of
    its base.  For a name [n] of the view, writing [x] through the view, by
    name or by an index [n] has within the view, is the same heap update as
    writing [x] on the base by name; after it the base and the view both read
    [x] at [n], so a write on either side is observed on the other. *)
Theorem view_shares_storage_with_base h c cls names locked v s start stop n x :
  schema_of h c = Some (cls, names, locked) →
  h !! v = Some (View s) →
  base_collection s = c →
  _sub_names s = py_slice names start stop →
  n ∈ _sub_names s →
  ∃ h',
    LabeledSubCollection.__setitem__ v (KStr n) x h = (h', Ok tt)
    ∧ LabeledCollection.__setitem__ c (KStr n) x h = (h', Ok tt)
    ∧ (∃ i, (0 ≤ i)%Z ∧ py_index (_sub_names s) i = Some n)
    ∧ (∀ i, py_index (_sub_names s) i = Some n →
         LabeledSubCollection.__setitem__ v (KInt i) x h = (h', Ok tt))
    ∧ LabeledCollection.__getitem__ c (KStr n) h' = (h', Ok (Single x))
    ∧ LabeledSubCollection.__getitem__ v (KStr n) h' = (h', Ok (Single x))
    ∧ (∀ i, py_index (_sub_names s) i = Some n →
         LabeledSubCollection.__getitem__ v (KInt i) h' = (h', Ok (Single x)))
    ∧ schema_of h' c = Some (cls, names, locked)
    ∧ h' !! v = Some (View s).
Proof.
  intros [dict Hca]%schema_of_unfold Hv Hbase Hsub Hn.
  assert (n ∈ names) as Hin.
  { rewrite Hsub in Hn. by eapply py_slice_subseteq. }
  destruct (collection_at_field _ _ _ _ _ _ _ Hca Hin) as [Hplain _].
  pose proof (setitem_by_name_ok _ _ _ _ _ _ _ x Hca Hin) as Hset.
  pose proof (collection_at_store _ _ _ _ _ _ _ x Hca Hplain) as Hca'.
  set (h' := <[c := Collection cls (<[n := x]> dict)]> h) in *.
  assert (h' !! v = Some (View s)) as Hv'.
  { eapply view_frame; [done|apply Hca]. }
  assert (LabeledCollection._getitem_by_name c n h' = (h', Ok x)) as Hget.
  { eapply getitem_by_name_ok; [done..|]. apply lookup_insert_eq. }
  exists h'. repeat split.
  - cbn [LabeledSubCollection.__setitem__].
    erewrite view_setitem_by_name by done. by rewrite Hbase.
  - done.
  - by apply elem_of_py_index.
  - intros i Hi. cbn [LabeledSubCollection.__setitem__].
    erewrite view_setitem_by_idx by done. by rewrite Hbase.
  - cbn [LabeledCollection.__getitem__]. by mstep Hget.
  - cbn [LabeledSubCollection.__getitem__].
    erewrite bind_ok; [done|].
    erewrite view_getitem_by_name by done. by rewrite Hbase.
  - intros i Hi. cbn [LabeledSubCollection.__getitem__].
    erewrite bind_ok; [done|].
    erewrite view_getitem_by_idx by done. by rewrite Hbase.
  - apply schema_of_unfold. by eexists.
  - done.
Qed.

(** C4: an assignment [self[key] = val] whose key is neither an integer nor
    a string -- [None], a slice, any other object -- does not fail: the branch
    returns the exception class instead of raising it, so the statement
    completes and leaves the heap as it was, on a collection and on a view
    alike.  The read [self[key]] with such a key does raise [TypeError]. *)
Theorem setitem_unsupported_key_is_silent h (self : loc) x (e : Expr)
    (start stop : option Z) :
  LabeledCollection.__setitem__ self KNone x h = (h, Ok tt)
  ∧ LabeledCollection.__setitem__ self (KObj e) x h = (h, Ok tt)
  ∧ LabeledCollection.__setitem__ self (KSlice start stop) x h = (h, Ok tt)
  ∧ LabeledSubCollection.__setitem__ self KNone x h = (h, Ok tt)
  ∧ LabeledSubCollection.__setitem__ self (KObj e) x h = (h, Ok tt)
  ∧ LabeledSubCollection.__setitem__ self (KSlice start stop) x h = (h, Ok tt)
  ∧ LabeledCollection.__getitem__ self KNone h = (h, Raise TypeError)
  ∧ LabeledCollection.__getitem__ self (KObj e) h = (h, Raise TypeError)
  ∧ LabeledSubCollection.__getitem__ self KNone h = (h, Raise TypeError)
  ∧ LabeledSubCollection.__getitem__ self (KObj e) h = (h, Raise TypeError).
Proof. repeat split. Qed.

Lemma py_index_nonnegative {A} (l : list A) (i : Z) :
  (0 ≤ i < Z.of_nat (length l))%Z → py_index l i = l !! Z.to_nat i.
Proof. intros Hi. unfold py_index. by rewrite decide_True. Qed.

(** C9: a negative integer key counts from the end.  On a collection with
    [n] fields and for [-n ≤ k ≤ -1], reading at [k] is reading at [n + k] and
    returns the value of the field at that position, and writing at [k] is
    writing at [n + k] and stores into that field; the same holds for a view,
    with [n] the number of fields of the view. *)
Theorem negative_index_counts_from_end :
  (∀ h c cls names locked (k : Z) x,
     schema_of h c = Some (cls, names, locked) →
     (- Z.of_nat (length names) ≤ k ≤ -1)%Z →
     let pos := (Z.of_nat (length names) + k)%Z in
     ∃ name val h',
       names !! Z.to_nat pos = Some name
       ∧ slot h c name = Some val
       ∧ LabeledCollection.__getitem__ c (KInt k) h = (h, Ok (Single val))
       ∧ LabeledCollection.__getitem__ c (KInt pos) h = (h, Ok (Single val))
       ∧ LabeledCollection.__setitem__ c (KInt k) x h = (h', Ok tt)
       ∧ LabeledCollection.__setitem__ c (KInt pos) x h = (h', Ok tt)
       ∧ slot h' c name = Some x
       ∧ LabeledCollection.__getitem__ c (KInt k) h' = (h', Ok (Single x)))
  ∧ (∀ h v s cls names locked start stop (k : Z) x,
     h !! v = Some (View s) →
     schema_of h (base_collection s) = Some (cls, names, locked) →
     _sub_names s = py_slice names start stop →
     n_fields s = Z.of_nat (length (_sub_names s)) →
     (- n_fields s ≤ k ≤ -1)%Z →
     let pos := (n_fields s + k)%Z in
     ∃ name val h',
       _sub_names s !! Z.to_nat pos = Some name
       ∧ slot h (base_collection s) name = Some val
       ∧ LabeledSubCollection.__getitem__ v (KInt k) h = (h, Ok (Single val))
       ∧ LabeledSubCollection.__getitem__ v (KInt pos) h = (h, Ok (Single val))
       ∧ LabeledSubCollection.__setitem__ v (KInt k) x h = (h', Ok tt)
       ∧ LabeledSubCollection.__setitem__ v (KInt pos) x h = (h', Ok tt)
       ∧ slot h' (base_collection s) name = Some x
       ∧ LabeledSubCollection.__getitem__ v (KInt k) h' = (h', Ok (Single x))).
Proof.
  split.
  - intros h c cls names locked k x [dict Hca]%schema_of_unfold Hk pos.
    destruct (py_index_negative names k Hk) as [Hidx [name Hname]].
    fold pos in Hidx, Hname. rewrite Hname in Hidx.
    assert (py_index names pos = Some name) as Hpos.
    { rewrite py_index_nonnegative; [done|]. unfold pos. lia. }
    assert (name ∈ names) as Hin by (by eapply py_index_elem_of).
    destruct (collection_at_field _ _ _ _ _ _ _ Hca Hin) as [Hplain [val Hval]].
    pose proof (collection_at_store _ _ _ _ _ _ _ x Hca Hplain) as Hca'.
    exists name, val, (<[c := Collection cls (<[name := x]> dict)]> h).
    repeat split.
    + done.
    + unfold slot. by rewrite (ca_obj _ _ _ _ _ _ Hca).
    + cbn [LabeledCollection.__getitem__]. by mstep getitem_by_idx_ok.
    + cbn [LabeledCollection.__getitem__]. by mstep getitem_by_idx_ok.
    + cbn [LabeledCollection.__setitem__]. by eapply setitem_by_idx_ok.
    + cbn [LabeledCollection.__setitem__]. by eapply setitem_by_idx_ok.
    + unfold slot. rewrite (ca_obj _ _ _ _ _ _ Hca'). apply lookup_insert_eq.
    + cbn [LabeledCollection.__getitem__].
      erewrite bind_ok; [done|].
      eapply getitem_by_idx_ok; [done..|]. apply lookup_insert_eq.
  - intros h v s cls names locked start stop k x Hv
      [dict Hca]%schema_of_unfold Hsub Hn Hk pos.
    rewrite Hn in Hk. unfold pos. rewrite Hn. clear pos.
    set (pos := (Z.of_nat (length (_sub_names s)) + k)%Z).
    destruct (py_index_negative (_sub_names s) k Hk) as [Hidx [name Hname]].
    fold pos in Hidx, Hname. rewrite Hname in Hidx.
    assert (py_index (_sub_names s) pos = Some name) as Hpos.
    { rewrite py_index_nonnegative; [done|]. unfold pos. lia. }
    assert (name ∈ names) as Hin.
    { eapply py_slice_subseteq. rewrite <- Hsub. by eapply py_index_elem_of. }
    destruct (collection_at_field _ _ _ _ _ _ _ Hca Hin) as [Hplain [val Hval]].
    pose proof (collection_at_store _ _ _ _ _ _ _ x Hca Hplain) as Hca'.
    pose proof (setitem_by_name_ok _ _ _ _ _ _ _ x Hca Hin) as Hset.
    set (h' := <[base_collection s := Collection cls (<[name := x]> dict)]> h)
      in *.
    assert (h' !! v = Some (View s)) as Hv'.
    { eapply view_frame; [done|apply Hca]. }
    exists name, val, h'. repeat split.
    + done.
    + unfold slot. by rewrite (ca_obj _ _ _ _ _ _ Hca).
    + cbn [LabeledSubCollection.__getitem__]. erewrite bind_ok; [done|].
      erewrite view_getitem_by_idx by done. by eapply getitem_by_name_ok.
    + cbn [LabeledSubCollection.__getitem__]. erewrite bind_ok; [done|].
      erewrite view_getitem_by_idx by done. by eapply getitem_by_name_ok.
    + cbn [LabeledSubCollection.__setitem__].
      by erewrite view_setitem_by_idx.
    + cbn [LabeledSubCollection.__setitem__].
      by erewrite view_setitem_by_idx.
    + unfold slot. rewrite (ca_obj _ _ _ _ _ _ Hca'). apply lookup_insert_eq.
    + cbn [LabeledSubCollection.__getitem__]. erewrite bind_ok; [done|].
      erewrite view_getitem_by_idx by done.
      eapply getitem_by_name_ok; [done..|]. apply lookup_insert_eq.
Qed.

End Views.

(** ** Construction *)

Section Construction.
Context {Expr : Type} `{!EqDecision Expr}.
Local Abbreviation M := (M Expr).
Local Abbreviation pyval := (pyval Expr).
Implicit Types (h : heap Expr) (c : loc) (dict : gmap string pyval).
Implicit Types (fields : gmap string pyval) (names : list string).
Import LabeledCollection.

Lemma keys_of_fields fields k :
  k ∈ (map_to_list fields).*1 ↔ is_Some (fields !! k).
Proof.
  rewrite list_elem_of_fmap. split.
  - intros [[k' v] [-> Hin]]. apply elem_of_map_to_list in Hin. by eexists.
  - intros [v Hv]. exists (k, v). split; [done|]. by apply elem_of_map_to_list.
Qed.

Lemma validate_loop_ok h c names keys :
  names_of c "_field_names" h = (h, Ok names) →
  Forall (λ k, k ∈ names) keys →
  for_each keys (λ field_key,
    names <- names_of c "_field_names";;
    if decide (field_key ∈ names) then ret tt else raise TypeError) h
  = (h, Ok tt).
Proof.
  intros Hn. induction 1 as [|k keys Hk _ IH]; [done|].
  cbn [for_each]. erewrite bind_ok; [exact IH|].
  mstep Hn. by rewrite decide_True.
Qed.

Lemma validate_loop_raises h c names keys k :
  names_of c "_field_names" h = (h, Ok names) →
  k ∈ keys → k ∉ names →
  for_each keys (λ field_key,
    names <- names_of c "_field_names";;
    if decide (field_key ∈ names) then ret tt else raise TypeError) h
  = (h, Raise TypeError).
Proof.
  intros Hn Hin Hk. induction keys as [|k' keys IH]; [by inversion Hin|].
  cbn [for_each]. destruct (decide (k' ∈ names)) as [Hk'|Hk'].
  - erewrite bind_ok; [apply IH|].
    + apply elem_of_cons in Hin as [->|]; done.
    + mstep Hn. by rewrite decide_True.
  - erewrite bind_raise; [done|]. mstep Hn. by rewrite decide_False.
Qed.

Lemma init_fields_lookup names fields dict k :
  init_fields names fields dict !! k
  = if decide (k ∈ names) then Some (default PyNone (fields !! k))
    else dict !! k.
Proof.
  unfold init_fields. revert dict.
  induction names as [|name names IH]; intros dict; cbn [foldl].
  - rewrite decide_False; [done|]. by apply not_elem_of_nil.
  - rewrite IH. destruct (decide (k ∈ names)) as [Hin|Hin].
    + rewrite decide_True; [done|]. by right.
    + destruct (decide (k = name)) as [->|Hne].
      * rewrite decide_True by left. by rewrite lookup_insert_eq.
      * rewrite decide_False; [by rewrite lookup_insert_ne|].
        rewrite elem_of_cons. tauto.
Qed.

Lemma init_fields_reserved names fields dict r :
  Forall (λ name, plain_name name = true) names →
  r ∈ reserved_names →
  init_fields names fields dict !! r = dict !! r.
Proof.
  intros Hp Hr. rewrite init_fields_lookup. rewrite decide_False; [done|].
  intros Hin. rewrite Forall_forall in Hp.
  by eapply (plain_name_not_reserved r r); [apply Hp|..].
Qed.

(** The loop of [__init__] over the names. *)
Lemma init_loop_ok h c cls dict names fields :
  h !! c = Some (Collection cls dict) →
  dict !! "_is_locked" = Some (PyBool false) →
  Forall (λ name, plain_name name = true) names →
  for_each names (λ field_key,
    match fields !! field_key with
    | Some value => __setattr__ c field_key value
    | None => __setattr__ c field_key PyNone
    end) h
  = (<[c := Collection cls (init_fields names fields dict)]> h, Ok tt).
Proof.
  intros Hc Hl Hp. revert h dict Hc Hl.
  induction Hp as [|name names Hname _ IH]; intros h dict Hc Hl.
  - cbn [for_each]. unfold init_fields. cbn [foldl].
    by rewrite list_insert_id.
  - cbn [for_each].
    assert (__setattr__ c name (default PyNone (fields !! name)) h
      = (<[c := Collection cls
            (<[name := default PyNone (fields !! name)]> dict)]> h, Ok tt))
      as Hset.
    { eapply setattr_ok; [done..| |by left].
      by apply plain_name_property_slot. }
    assert (match fields !! name with
            | Some value => __setattr__ c name value
            | None => __setattr__ c name PyNone
            end h
      = (<[c := Collection cls
            (<[name := default PyNone (fields !! name)]> dict)]> h, Ok tt))
      as Hset'.
    { revert Hset. by destruct (fields !! name). }
    rewrite (bind_ok _ _ _ _ _ Hset').
    cbn beta. rewrite (IH _ (<[name := default PyNone (fields !! name)]> dict)).
    + by rewrite list_insert_insert_eq.
    + apply heap_lookup_update. by rewrite Hc.
    + rewrite lookup_insert_ne; [done|].
      eapply plain_name_not_reserved; [done|].
      by apply (bool_decide_unpack _).
Qed.

Lemma names_of_ok h c cls dict attr names :
  h !! c = Some (Collection cls dict) →
  property_slot attr = None →
  dict !! attr = Some (PyStrList names) →
  names_of c attr h = (h, Ok names).
Proof. intros Hc Hp Hn. unfold names_of. by mstep getattr_dict. Qed.

Lemma setattr_unlocked h c cls dict name v :
  is_Some (h !! c) →
  dict !! "_is_locked" = Some (PyBool false) →
  property_slot name = None →
  __setattr__ c name v (<[c := Collection cls dict]> h)
  = (<[c := Collection cls (<[name := v]> dict)]> h, Ok tt).
Proof.
  intros Hc Hl Hp. erewrite setattr_ok; [|by apply heap_lookup_update|done..|by left].
  by rewrite list_insert_insert_eq.
Qed.

Lemma init_dict_reserved names fields r :
  Forall (λ name, plain_name name = true) names →
  r ∈ reserved_names →
  init_dict names fields !! r
  = (<["n_iter" := PyInt 0]> (<["_iter_filter" := PyBool false]>
      (<["_iter_name" := PyBool false]>
        (<["n_fields" := PyInt (Z.of_nat (length names))]>
          (<["_field_names" := PyStrList names]>
            (<["_is_locked" := PyBool false]> (∅ : gmap string pyval))))))) !! r.
Proof.
  intros Hp Hr. unfold init_dict.
  rewrite !(lookup_insert _ _ r), init_fields_reserved by done.
  by rewrite !(lookup_insert _ _ r).
Qed.

Lemma init_dict_field names fields name :
  Forall (λ name, plain_name name = true) names →
  name ∈ names →
  init_dict names fields !! name = Some (default PyNone (fields !! name)).
Proof.
  intros Hp Hin. rewrite Forall_forall in Hp. specialize (Hp _ Hin).
  unfold init_dict.
  rewrite !lookup_insert_ne;
    [|eapply not_eq_sym, plain_name_not_reserved;
      [done|by apply (bool_decide_unpack _)]..].
  rewrite init_fields_lookup. by rewrite decide_True.
Qed.

(** An attribute that is neither a field nor one [__init__] creates is
    absent from a fresh collection. *)
Lemma init_dict_absent names fields name :
  name ∉ names → name ∉ bookkeeping →
  init_dict names fields !! name = None.
Proof.
  intros Hin Hb. unfold init_dict.
  assert (∀ r, r ∈ bookkeeping → r ≠ name) as Hne by (by intros r ? ->).
  rewrite !lookup_insert_ne by (apply Hne; by apply (bool_decide_unpack _)).
  rewrite init_fields_lookup, decide_False by done.
  rewrite !lookup_insert_ne by (apply Hne; by apply (bool_decide_unpack _)).
  done.
Qed.

Lemma init_ok h c cls names fields :
  h !! c = Some (Collection cls ∅) →
  Forall (λ name, plain_name name = true) names →
  (∀ k, is_Some (fields !! k) → k ∈ names) →
  __init__ c names fields h
  = (<[c := Collection cls (init_dict names fields)]> h, Ok tt).
Proof.
  intros Hc Hp Hkeys. unfold __init__.
  assert (is_Some (h !! c)) as Hsome by (by rewrite Hc).
  erewrite bind_ok; [|unfold _enable_attribute_addition, object_setattr;
                       cbn; by apply store_ok].
  cbn beta.
  erewrite bind_ok; [|by apply setattr_unlocked].
  cbn beta.
  set (d2 := <["_field_names" := PyStrList names]>
               (<["_is_locked" := PyBool false]> ∅) : gmap string pyval).
  assert (names_of c "_field_names" (<[c := Collection cls d2]> h)
          = (<[c := Collection cls d2]> h, Ok names)) as Hnames.
  { eapply names_of_ok; [by apply heap_lookup_update|done..]. }
  erewrite bind_ok; [|unfold _validate_field_entries;
    apply (validate_loop_ok _ _ _ _ Hnames), Forall_forall;
    intros k Hk; by apply Hkeys, keys_of_fields].
  cbn beta.
  erewrite bind_ok; [|apply init_loop_ok;
    [by apply heap_lookup_update|done|done]].
  cbn beta. rewrite list_insert_insert_eq.
  set (d3 := init_fields names fields d2).
  assert (∀ r, r ∈ reserved_names → d3 !! r = d2 !! r) as Hd3.
  { intros r Hr. by apply init_fields_reserved. }
  assert (names_of c "_field_names" (<[c := Collection cls d3]> h)
          = (<[c := Collection cls d3]> h, Ok names)) as Hnames3.
  { eapply names_of_ok; [by apply heap_lookup_update|done|].
    rewrite Hd3; [done|]. by apply (bool_decide_unpack _). }
  rewrite (bind_ok _ _ _ _ _ Hnames3). cbn beta.
  erewrite bind_ok; [|apply setattr_unlocked; [done| |done]].
  2:{ rewrite Hd3; [done|]. by apply (bool_decide_unpack _). }
  cbn beta.
  erewrite bind_ok; [|apply setattr_unlocked; [done| |done]].
  2:{ rewrite lookup_insert_ne by done.
      rewrite Hd3; [done|]. by apply (bool_decide_unpack _). }
  cbn beta.
  erewrite bind_ok; [|apply setattr_unlocked; [done| |done]].
  2:{ rewrite !lookup_insert_ne by done.
      rewrite Hd3; [done|]. by apply (bool_decide_unpack _). }
  cbn beta.
  erewrite setattr_unlocked; [done|done| |done].
  rewrite !lookup_insert_ne by done.
  rewrite Hd3; [done|]. by apply (bool_decide_unpack _).
Qed.

Lemma heap_lookup_fresh h (o : object Expr) : (h ++ [o]) !! length h = Some o.
Proof. by apply list_lookup_middle. Qed.

Lemma heap_update_fresh h (o o' : object Expr) :
  <[length h := o']> (h ++ [o]) = h ++ [o'].
Proof. by rewrite insert_app_r_alt, Nat.sub_diag by lia. Qed.

Lemma heap_lookup_old h (o : object Expr) c :
  c ≠ length h → (h ++ [o]) !! c = h !! c.
Proof.
  intros Hne. destruct (decide (c < length h)) as [Hlt|Hge].
  - by apply lookup_app_l.
  - rewrite !lookup_ge_None_2; [done|lia|rewrite length_app; simpl; lia].
Qed.

Lemma pg_field_names_plain :
  Forall (λ name, plain_name name = true) pg_field_names.
Proof. unfold pg_field_names. repeat constructor. Qed.

(** [__init__] leaves a well-formed, unlocked collection. *)
Lemma collection_at_init h c cls names fields :
  h !! c = Some (Collection cls (init_dict names fields)) →
  Forall (λ name, plain_name name = true) names →
  (cls = CollectionPG_cls → names = pg_field_names) →
  collection_at h c cls names false (init_dict names fields).
Proof.
  intros Hc Hp Hcls.
  split; try done; try eexists;
    try (rewrite init_dict_reserved;
         [done|done|by apply (bool_decide_unpack _)]).
  apply Forall_forall. intros name Hin. split.
  - rewrite Forall_forall in Hp. by apply Hp.
  - rewrite init_dict_field by done. by eexists.
Qed.

(** Setting the lock keeps it well formed. *)
Lemma collection_at_lock h c cls names locked dict b :
  collection_at h c cls names locked dict →
  collection_at (<[c := Collection cls (<["_is_locked" := PyBool b]> dict)]> h)
    c cls names b (<["_is_locked" := PyBool b]> dict).
Proof.
  intros Hca. ca_open Hca.
  destruct Hitn as [b4 ?], Hitf as [b5 ?], Hnit as [i ?].
  split; try done; try eexists; try (by rewrite lookup_insert_ne).
  - apply heap_lookup_update. by rewrite Hobj.
  - by rewrite lookup_insert_eq.
  - eapply Forall_impl; [exact Hfields|]. intros name [Hp Hs]. split; [done|].
    rewrite lookup_insert_ne; [done|]. apply not_eq_sym.
    eapply plain_name_not_reserved; [done|by apply (bool_decide_unpack _)].
Qed.

Lemma plain_names_not_keyword names fields r :
  Forall (λ name, plain_name name = true) names →
  (∀ k, is_Some (fields !! k) → k ∈ names) →
  r ∈ reserved_names →
  fields !! r = None.
Proof.
  intros Hp Hkeys Hr. destruct (fields !! r) eqn:Hf; [|done].
  rewrite Forall_forall in Hp.
  destruct (plain_name_not_reserved r r); [|done..].
  apply Hp, Hkeys. by rewrite Hf.
Qed.

(** The call [LabeledCollection(names, **fields)] with plain names and
    keywords among them allocates a collection with the dictionary
    [init_dict names fields]. *)
Lemma new_ok h names fields :
  Forall (λ name, plain_name name = true) names →
  (∀ k, is_Some (fields !! k) → k ∈ names) →
  new names fields h
  = (h ++ [Collection LabeledCollection_cls (init_dict names fields)],
     Ok (length h)).
Proof.
  intros Hp Hkeys. unfold new, alloc.
  erewrite bind_ok; [|done]. cbn beta.
  rewrite (plain_names_not_keyword names fields "self"),
    (plain_names_not_keyword names fields "names");
    [|done|done|by apply (bool_decide_unpack _)
     |done|done|by apply (bool_decide_unpack _)].
  erewrite bind_ok; [|apply init_ok; [apply heap_lookup_fresh|done..]].
  cbn beta. by rewrite heap_update_fresh.
Qed.

Lemma pg_new_ok h fields :
  (∀ k, is_Some (fields !! k) → k ∈ pg_field_names) →
  CollectionPG.new fields h
  = (h ++ [Collection CollectionPG_cls
             (<["_is_locked" := PyBool true]> (init_dict pg_field_names fields))],
     Ok (length h)).
Proof.
  intros Hkeys. unfold CollectionPG.new, alloc.
  pose proof pg_field_names_plain as Hp.
  erewrite bind_ok; [|done]. cbn beta.
  rewrite (plain_names_not_keyword pg_field_names fields "self");
    [|done|done|by apply (bool_decide_unpack _)].
  unfold CollectionPG.__init__.
  assert (names_of (length h) "pg_field_names"
            (h ++ [Collection CollectionPG_cls ∅])
          = (h ++ [Collection CollectionPG_cls ∅], Ok pg_field_names)) as Hn.
  { unfold names_of.
    erewrite bind_ok; [|eapply getattr_class;
      [apply heap_lookup_fresh|done|done|by apply (bool_decide_unpack _)]].
    done. }
  erewrite bind_ok.
  2:{ erewrite bind_ok; [|exact Hn]. cbn beta.
      rewrite (plain_names_not_keyword pg_field_names fields "names");
        [|done|done|by apply (bool_decide_unpack _)].
      erewrite bind_ok; [|apply init_ok; [apply heap_lookup_fresh|done..]].
      cbn beta. rewrite heap_update_fresh.
      unfold _disable_attribute_addition.
      eapply setattr_ok; [apply heap_lookup_fresh| |done|by left].
      rewrite init_dict_reserved;
        [done|done|by apply (bool_decide_unpack _)]. }
  cbn beta. by rewrite heap_update_fresh.
Qed.

(** [__init__] stops at the validation when a keyword is not a name. *)
Lemma init_rejects h c cls names fields k :
  h !! c = Some (Collection cls ∅) →
  is_Some (fields !! k) →
  k ∉ names →
  ∃ h', __init__ c names fields h = (h', Raise TypeError).
Proof.
  intros Hc Hk Hnot. unfold __init__.
  assert (is_Some (h !! c)) as Hsome by (by rewrite Hc).
  erewrite bind_ok; [|unfold _enable_attribute_addition, object_setattr;
                       cbn; by apply store_ok].
  cbn beta.
  erewrite bind_ok; [|by apply setattr_unlocked].
  cbn beta. eexists.
  erewrite bind_raise; [done|].
  unfold _validate_field_entries.
  eapply validate_loop_raises; [|by apply keys_of_fields|done].
  eapply names_of_ok; [by apply heap_lookup_update|done..].
Qed.

(** C7: constructing a collection with a keyword that is not one of the names
    always fails with [TypeError], the exception the source raises for a
    schema violation -- through the constructor of [LabeledCollection] for
    any list of names, and through the constructor of [CollectionPG] for its
    21 names. *)
Theorem unknown_field_key_is_rejected :
  (∀ (h : heap Expr) names fields k,
     is_Some (fields !! k) → k ∉ names →
     ∃ h', LabeledCollection.new names fields h = (h', Raise TypeError))
  ∧ (∀ (h : heap Expr) fields k,
     is_Some (fields !! k) → k ∉ pg_field_names →
     ∃ h', CollectionPG.new fields h = (h', Raise TypeError)).
Proof.
  split.
  - intros h names fields k Hk Hnot. unfold new, alloc.
    erewrite bind_ok; [|done]. cbn beta.
    destruct (fields !! "self"); [by eexists|].
    destruct (fields !! "names"); [by eexists|].
    destruct (init_rejects (h ++ [Collection LabeledCollection_cls ∅])
                (length h) LabeledCollection_cls names fields k)
      as [h' Hinit]; [apply heap_lookup_fresh|done..|].
    exists h'. by erewrite bind_raise.
  - intros h fields k Hk Hnot. unfold CollectionPG.new, alloc.
    erewrite bind_ok; [|done]. cbn beta.
    destruct (fields !! "self"); [by eexists|].
    unfold CollectionPG.__init__.
    assert (names_of (length h) "pg_field_names"
              (h ++ [Collection CollectionPG_cls ∅])
            = (h ++ [Collection CollectionPG_cls ∅], Ok pg_field_names)) as Hn.
    { unfold names_of.
      erewrite bind_ok; [|eapply getattr_class;
        [apply heap_lookup_fresh|done|done|by apply (bool_decide_unpack _)]].
      done. }
    destruct (fields !! "names") eqn:Hnames.
    + eexists. erewrite bind_raise; [done|].
      erewrite bind_ok; [|exact Hn]. cbn beta.
      by erewrite bind_raise.
    + destruct (init_rejects (h ++ [Collection CollectionPG_cls ∅])
                  (length h) CollectionPG_cls pg_field_names fields k)
        as [h' Hinit]; [apply heap_lookup_fresh|done..|].
      exists h'. erewrite bind_raise; [done|].
      erewrite bind_ok; [|exact Hn]. cbn beta.
      by erewrite bind_raise.
Qed.

End Construction.

(** ** Writes stay on the receiver *)

Section Frame.
Context {Expr : Type} `{!EqDecision Expr}.
Local Abbreviation M := (M Expr).
Local Abbreviation pyval := (pyval Expr).
Implicit Types (h : heap Expr) (c r : loc).
Import LabeledCollection.

Lemma only_writes_ret {A} r (a : A) : only_writes (Expr := Expr) r (ret a).
Proof. by intros h c _. Qed.

Lemma only_writes_raise {A} r e : only_writes (Expr := Expr) (A := A) r (raise e).
Proof. by intros h c _. Qed.

Lemma only_writes_lift {A} r (x : result A) : only_writes (Expr := Expr) r (lift x).
Proof. by intros h c _. Qed.

Lemma only_writes_bind {A B} r (m : M A) (k : A → M B) :
  only_writes r m → (∀ a, only_writes r (k a)) → only_writes r (bind m k).
Proof.
  intros Hm Hk h c Hc. unfold bind. specialize (Hm h c Hc).
  destruct (m h) as [h' [a|e]]; simpl in *; [|done].
  by rewrite Hk.
Qed.

Lemma only_writes_getattr r c name : only_writes (Expr := Expr) r (getattr c name).
Proof.
  intros h c' _. unfold getattr, lookup_attr.
  destruct (property_slot name); destruct (h !! c) as [[cls dict|]|];
    try done; destruct (dict !! _); try done; by case_decide.
Qed.

Lemma only_writes_hasattr r c name : only_writes (Expr := Expr) r (hasattr c name).
Proof.
  intros h c' Hc. unfold hasattr.
  pose proof (only_writes_getattr r c name h c' Hc) as Hg.
  by destruct (getattr c name h) as [h' [v|[]]].
Qed.

Lemma only_writes_store r name v : only_writes (Expr := Expr) r (store r name v).
Proof.
  intros h c Hc. unfold store.
  destruct (h !! r) as [[cls dict|]|]; try done.
  simpl. by apply heap_lookup_frame.
Qed.

Lemma only_writes_names_of r c attr : only_writes (Expr := Expr) r (names_of c attr).
Proof.
  apply only_writes_bind; [apply only_writes_getattr|].
  intros. apply only_writes_lift.
Qed.

Lemma only_writes_lock_guard r c name : only_writes (Expr := Expr) r (lock_guard c name).
Proof.
  apply only_writes_bind; [apply only_writes_hasattr|]. intros [|].
  - apply only_writes_bind; [apply only_writes_getattr|]. intros locked.
    destruct (truthy locked); [|apply only_writes_ret].
    apply only_writes_bind; [apply only_writes_hasattr|].
    intros [|]; [apply only_writes_ret|apply only_writes_raise].
  - apply only_writes_ret.
Qed.

Lemma only_writes_setattr r name v : only_writes (Expr := Expr) r (__setattr__ r name v).
Proof.
  apply only_writes_bind; [apply only_writes_lock_guard|]. intros _.
  unfold object_setattr. destruct (property_slot name).
  - destruct v; try apply only_writes_raise.
    apply only_writes_bind; [apply only_writes_lock_guard|]. intros _.
    apply only_writes_store.
  - apply only_writes_store.
Qed.

Lemma only_writes_setitem_by_name r name v :
  only_writes (Expr := Expr) r (_setitem_by_name r name v).
Proof.
  apply only_writes_bind; [apply only_writes_names_of|]. intros names.
  case_decide; [apply only_writes_setattr|apply only_writes_raise].
Qed.

(** An assignment [r[key] = v] changes no object but [r]. *)
Lemma only_writes_setitem r key v : only_writes (Expr := Expr) r (__setitem__ r key v).
Proof.
  assert (∀ idx, only_writes (Expr := Expr) r (_setitem_by_idx r idx v)) as Hidx.
  { intros idx. apply only_writes_bind; [apply only_writes_names_of|].
    intros names. apply only_writes_bind; [apply only_writes_lift|].
    intros name. apply only_writes_setitem_by_name. }
  destruct key; cbn [__setitem__]; try apply only_writes_ret; try apply Hidx.
  apply only_writes_setitem_by_name.
Qed.

End Frame.

(** ** Sub-schemas and copies *)

Section SubSchema.
Context {Expr : Type} `{!EqDecision Expr}.
Local Abbreviation M := (M Expr).
Local Abbreviation pyval := (pyval Expr).
Implicit Types (h : heap Expr) (c r : loc) (dict : gmap string pyval).
Implicit Types (names : list string) (mask : list bool).
Import LabeledCollection.

Lemma select_nil_l {A} (l : list A) : select [] l = [].
Proof. by destruct l. Qed.

Lemma select_subseteq {A} mask (l : list A) : select mask l ⊆ l.
Proof.
  revert mask. induction l as [|a l IH]; intros [|[] mask]; cbn [select];
    try apply list_subseteq_nil.
  - apply list_subseteq_skip, IH.
  - apply list_subseteq_cons, IH.
Qed.

Lemma select_all {A} (l : list A) : select (replicate (length l) true) l = l.
Proof. induction l as [|a l IH]; [done|]. cbn. by rewrite IH. Qed.

(** A comprehension over [enumerate(l)] filtered by a mask long enough. *)
Lemma masked_comp {B} h mask (l : list string) (k : nat)
    (body : nat * string → M (option B)) (f : string → B) :
  length mask = k + length l →
  (∀ (i : nat) (a : string) (b : bool), mask !! i = Some b → a ∈ l →
     body (i, a) h = (h, Ok (if b then Some (f a) else None))) →
  list_comp (zip (seq k (length l)) l) body h
  = (h, Ok (f <$> select (drop k mask) l)).
Proof.
  revert k. induction l as [|a l IH]; intros k Hlen Hbody.
  - cbn. by destruct (drop k mask).
  - cbn [length seq zip zip_with list_comp].
    destruct (lookup_lt_is_Some_2 mask k) as [b Hb]; [simpl in Hlen; lia|].
    rewrite (drop_S _ _ _ Hb). cbn [select].
    erewrite bind_ok; [|apply (Hbody k a b Hb); by left]. cbn beta.
    erewrite bind_ok; [|apply (IH (S k))].
    + by destruct b.
    + simpl in Hlen. lia.
    + intros i a' b' Hi Ha'. apply Hbody; [done|by right].
Qed.

Lemma subscript_name_ok h c cls names locked dict name v :
  collection_at h c cls names locked dict →
  name ∈ names →
  dict !! name = Some v →
  subscript c (KStr name) h = (h, Ok v).
Proof.
  intros Hca Hin Hv. unfold subscript. cbn [__getitem__].
  erewrite bind_ok; [|by mstep getitem_by_name_ok]. done.
Qed.

Lemma subscript_idx_ok h c cls names locked dict idx name v :
  collection_at h c cls names locked dict →
  py_index names idx = Some name →
  dict !! name = Some v →
  subscript c (KInt idx) h = (h, Ok v).
Proof.
  intros Hca Hi Hv. unfold subscript. cbn [__getitem__].
  erewrite bind_ok; [|by mstep getitem_by_idx_ok]. done.
Qed.

Lemma dict_of_pairs_lookup (f : string → pyval) (l : list string) k :
  dict_of_pairs ((λ name, (name, f name)) <$> l) !! k
  = if decide (k ∈ l) then Some (f k) else None.
Proof.
  unfold dict_of_pairs.
  assert (∀ d : gmap string pyval,
    foldl (λ d kv, <[kv.1 := kv.2]> d) d ((λ name, (name, f name)) <$> l) !! k
    = if decide (k ∈ l) then Some (f k) else d !! k) as Hgen.
  { induction l as [|a l IH]; intros d; cbn [fmap list_fmap foldl].
    - rewrite decide_False; [done|]. apply not_elem_of_nil.
    - rewrite IH. cbn. destruct (decide (k ∈ l)) as [Hin|Hin].
      + rewrite decide_True; [done|]. by right.
      + destruct (decide (k = a)) as [->|Hne].
        * rewrite decide_True by left. by rewrite lookup_insert_eq.
        * rewrite decide_False; [by rewrite lookup_insert_ne|].
          rewrite elem_of_cons. tauto. }
  rewrite Hgen. by rewrite lookup_empty.
Qed.

Lemma generate_collection_ok h c cls names locked dict mask :
  collection_at h c cls names locked dict →
  length mask = length names →
  generate_collection c mask h
  = (h ++ [Collection LabeledCollection_cls
             (init_dict (select mask names) (carried dict (select mask names)))],
     Ok (length h)).
Proof.
  intros Hca Hlen. ca_open Hca. unfold generate_collection.
  mstep getattr_dict. cbn [py_eq]. rewrite Hlen, Z.eqb_refl.
  mstep names_of_field_names.
  erewrite bind_ok.
  2:{ unfold enumerate.
      apply (masked_comp h mask names 0 _ (λ name, name)); [done|].
      intros i a b Hi Ha. cbn [fst snd]. rewrite Hi. by destruct b. }
  cbn beta. rewrite drop_0, list_fmap_id.
  mstep names_of_field_names.
  erewrite bind_ok.
  2:{ unfold enumerate.
      apply (masked_comp h mask names 0 _
               (λ name, (name, default PyNone (dict !! name)))); [done|].
      intros i a b Hi Ha. cbn [fst snd]. rewrite Hi. destruct b; [|done].
      destruct (collection_at_field _ _ _ _ _ _ _ Hca Ha) as [_ [v Hv]].
      erewrite bind_ok; [|by eapply subscript_name_ok]. cbn beta.
      by rewrite Hv. }
  cbn beta. rewrite drop_0.
  apply new_ok.
  - apply Forall_forall. intros name Hin%select_subseteq.
    by eapply collection_at_field.
  - intros k [v Hk]. unfold carried in Hk. rewrite dict_of_pairs_lookup in Hk.
    by case_decide.
Qed.

(** Well-formedness only looks at the object itself. *)
Lemma collection_at_transfer h h' c c' cls names locked dict :
  collection_at h c cls names locked dict →
  h' !! c' = Some (Collection cls dict) →
  collection_at h' c' cls names locked dict.
Proof. intros Hca Hc'. ca_open Hca. by split. Qed.

Lemma collection_at_alloc h c cls names locked dict (o : object Expr) :
  collection_at h c cls names locked dict →
  collection_at (h ++ [o]) c cls names locked dict.
Proof.
  intros Hca. eapply collection_at_transfer; [done|].
  apply lookup_app_l_Some, Hca.
Qed.

Lemma carried_lookup dict (l : list string) name v :
  name ∈ l → dict !! name = Some v → carried dict l !! name = Some v.
Proof.
  intros Hin Hv. unfold carried.
  rewrite dict_of_pairs_lookup, decide_True by done. by rewrite Hv.
Qed.

(** What [generate_collection] leaves: a fresh, unlocked [LabeledCollection]
    over the selected names next to the untouched receiver. *)
Lemma generate_collection_fresh h c cls names locked dict mask :
  collection_at h c cls names locked dict →
  length mask = length names →
  let names' := select mask names in
  let dict' := init_dict names' (carried dict names') in
  let h' := h ++ [Collection LabeledCollection_cls dict'] in
  generate_collection c mask h = (h', Ok (length h))
  ∧ collection_at h' (length h) LabeledCollection_cls names' false dict'
  ∧ collection_at h' c cls names locked dict
  ∧ c ≠ length h.
Proof.
  intros Hca Hlen names' dict' h'.
  assert (Forall (λ name, plain_name name = true) names') as Hplain.
  { apply Forall_forall. intros name Hin%select_subseteq.
    by eapply collection_at_field. }
  split; [by eapply generate_collection_ok|]. split; [|split].
  - apply collection_at_init; [apply heap_lookup_fresh|done..].
  - by apply collection_at_alloc.
  - intros ->. pose proof (ca_obj _ _ _ _ _ _ Hca) as Hc.
    apply lookup_lt_Some in Hc. lia.
Qed.

(** C8: for a mask as long as the schema, [generate_collection] returns a new
    collection whose names are exactly those at the positions where the mask
    is true, each holding the value the source has at that name.  The result
    is a fresh object: an assignment through [__setitem__] on the result
    changes no slot of the source, and one on the source changes no slot of
    the result. *)
Theorem generated_collection_does_not_alias h c cls names locked mask :
  schema_of h c = Some (cls, names, locked) →
  length mask = length names →
  ∃ h' r,
    generate_collection c mask h = (h', Ok r)
    ∧ h !! r = None
    ∧ h' !! c = h !! c
    ∧ schema_of h' r = Some (LabeledCollection_cls, select mask names, false)
    ∧ (∀ name, name ∈ select mask names →
         ∃ v, __getitem__ c (KStr name) h = (h, Ok (Single v))
              ∧ __getitem__ r (KStr name) h' = (h', Ok (Single v)))
    ∧ (∀ name, name ∉ select mask names →
         __getitem__ r (KStr name) h' = (h', Raise KeyError))
    ∧ (∀ key x, (__setitem__ r key x h').1 !! c = h !! c)
    ∧ (∀ key x, (__setitem__ c key x h').1 !! r = h' !! r)
    ∧ (∀ name x, name ∈ select mask names →
         ∃ h'', __setitem__ r (KStr name) x h' = (h'', Ok tt)
                ∧ slot h'' r name = Some x
                ∧ h'' !! c = h !! c)
    ∧ (∀ name x, name ∈ names →
         ∃ h'', __setitem__ c (KStr name) x h' = (h'', Ok tt)
                ∧ slot h'' c name = Some x
                ∧ h'' !! r = h' !! r).
Proof.
  intros [dict Hca]%schema_of_unfold Hlen.
  destruct (generate_collection_fresh _ _ _ _ _ _ _ Hca Hlen)
    as (Hgen & Hca' & Hcah' & Hne).
  set (names' := select mask names) in *.
  set (dict' := init_dict names' (carried dict names')) in *.
  set (h' := h ++ [Collection LabeledCollection_cls dict']) in *.
  assert (Forall (λ name, plain_name name = true) names') as Hplain.
  { apply Forall_forall. intros name Hin%select_subseteq.
    by eapply collection_at_field. }
  assert (h' !! c = h !! c) as Hframe.
  { rewrite (ca_obj _ _ _ _ _ _ Hca). apply Hcah'. }
  exists h', (length h). repeat split.
  - done.
  - by apply lookup_ge_None_2.
  - done.
  - apply schema_of_unfold. by eexists.
  - intros name Hin. pose proof (select_subseteq _ _ _ Hin) as Hin'.
    destruct (collection_at_field _ _ _ _ _ _ _ Hca Hin') as [_ [v Hv]].
    exists v. split; cbn [__getitem__].
    + by mstep getitem_by_name_ok.
    + erewrite bind_ok; [done|].
      eapply getitem_by_name_ok; [done..|].
      unfold dict'. rewrite init_dict_field by done.
      by erewrite carried_lookup.
  - intros name Hin. cbn [__getitem__].
    erewrite bind_raise; [done|].
    by eapply (getitem_by_name_missing _ _ _ _ _ _ _ Hca').
  - intros key x. rewrite only_writes_setitem by done. done.
  - intros key x. by rewrite only_writes_setitem.
  - intros name x Hin.
    pose proof (setitem_by_name_ok _ _ _ _ _ _ _ x Hca' Hin) as Hset.
    eexists. split; [exact Hset|]. split.
    + unfold slot. rewrite heap_lookup_update; [apply lookup_insert_eq|].
      by rewrite (ca_obj _ _ _ _ _ _ Hca').
    + by rewrite heap_lookup_frame.
  - intros name x Hin.
    pose proof (setitem_by_name_ok _ _ _ _ _ _ _ x Hcah' Hin) as Hset.
    eexists. split; [exact Hset|]. split.
    + unfold slot. rewrite heap_lookup_update; [apply lookup_insert_eq|].
      by rewrite (ca_obj _ _ _ _ _ _ Hcah').
    + by rewrite heap_lookup_frame.
Qed.

Lemma list_comp_map {A B} h (l : list A) (body : A → M (option B)) (f : A → B) :
  (∀ a, a ∈ l → body a h = (h, Ok (Some (f a)))) →
  list_comp l body h = (h, Ok (f <$> l)).
Proof.
  induction l as [|a l IH]; intros Hbody; [done|].
  cbn [list_comp]. erewrite bind_ok; [|apply Hbody; by left]. cbn beta.
  erewrite bind_ok; [done|]. apply IH. intros a' Ha'. apply Hbody. by right.
Qed.

Lemma class_of_ok h c cls dict :
  h !! c = Some (Collection cls dict) → Virtual.class_of c h = (h, Ok cls).
Proof. intros Hc. unfold Virtual.class_of. by rewrite Hc. Qed.

Lemma carried_keys dict (l : list string) k :
  is_Some (carried dict l !! k) → k ∈ l.
Proof.
  intros [v Hk]. unfold carried in Hk. rewrite dict_of_pairs_lookup in Hk.
  by case_decide.
Qed.

(** [CollectionPG.copy] rebuilds a locked [CollectionPG] with the values of
    the receiver. *)
Lemma pg_copy_ok h c locked dict :
  collection_at h c CollectionPG_cls pg_field_names locked dict →
  CollectionPG.copy c h
  = (h ++ [Collection CollectionPG_cls
             (<["_is_locked" := PyBool true]>
                (init_dict pg_field_names (carried dict pg_field_names)))],
     Ok (length h)).
Proof.
  intros Hca. unfold CollectionPG.copy.
  mstep names_of_field_names.
  erewrite bind_ok.
  2:{ apply (list_comp_map h pg_field_names _
               (λ name, (name, default PyNone (dict !! name)))).
      intros name Hin.
      destruct (collection_at_field _ _ _ _ _ _ _ Hca Hin) as [_ [v Hv]].
      erewrite bind_ok; [|by eapply subscript_name_ok]. cbn beta.
      by rewrite Hv. }
  cbn beta. apply pg_new_ok. apply carried_keys.
Qed.

Lemma collection_at_pg_new h fields :
  collection_at
    (h ++ [Collection CollectionPG_cls
             (<["_is_locked" := PyBool true]> (init_dict pg_field_names fields))])
    (length h) CollectionPG_cls pg_field_names true
    (<["_is_locked" := PyBool true]> (init_dict pg_field_names fields)).
Proof.
  eapply collection_at_transfer; [|apply heap_lookup_fresh].
  apply (collection_at_lock [Collection CollectionPG_cls
                               (init_dict pg_field_names fields)] 0
           CollectionPG_cls pg_field_names false
           (init_dict pg_field_names fields) true).
  apply collection_at_init; [done|apply pg_field_names_plain|done].
Qed.

(** C10: [generate_collection] on a locked [CollectionPG] returns a plain
    [LabeledCollection] that is not locked.  Any attribute with a plain name
    can then be assigned on the result, while the source refuses every
    attribute it does not have yet; [copy], in contrast, rebuilds a locked
    [CollectionPG], which refuses every plain name outside the schema. *)
Theorem generated_collection_is_unlocked h c mask :
  schema_of h c = Some (CollectionPG_cls, pg_field_names, true) →
  length mask = 21 →
  ∃ h1 r,
    generate_collection c mask h = (h1, Ok r)
    ∧ Virtual.class_of r h1 = (h1, Ok LabeledCollection_cls)
    ∧ schema_of h1 r
      = Some (LabeledCollection_cls, select mask pg_field_names, false)
    ∧ (∀ name x, plain_name name = true →
         ∃ h2, __setattr__ r name x h1 = (h2, Ok tt)
               ∧ getattr r name h2 = (h2, Ok x))
    ∧ (∀ name x, hasattr c name h1 = (h1, Ok false) →
         __setattr__ c name x h1 = (h1, Raise AttributeError))
    ∧ ∃ h3 c',
        Virtual.copy c h1 = (h3, Ok c')
        ∧ Virtual.class_of c' h3 = (h3, Ok CollectionPG_cls)
        ∧ schema_of h3 c' = Some (CollectionPG_cls, pg_field_names, true)
        ∧ (∀ name x, plain_name name = true → name ∉ pg_field_names →
             __setattr__ c' name x h3 = (h3, Raise AttributeError)).
Proof.
  intros [dict Hca]%schema_of_unfold Hlen.
  destruct (generate_collection_fresh _ _ _ _ _ _ mask Hca)
    as (Hgen & Hcar & Hca1 & _); [done|].
  set (names_r := select mask pg_field_names) in *.
  set (dict_r := init_dict names_r (carried dict names_r)) in *.
  set (h1 := h ++ [Collection LabeledCollection_cls dict_r]) in *.
  set (r := length h) in *.
  assert (schema_of h1 r = Some (LabeledCollection_cls, names_r, false))
    as Hsr.
  { apply schema_of_unfold. by eexists. }
  exists h1, r. split; [done|]. split; [|split; [done|]]; [|split; [|split]].
  - eapply class_of_ok, Hcar.
  - intros name x Hp. eexists. split.
    + eapply setattr_ok; [apply Hcar..| |by left].
      by apply plain_name_property_slot.
    + eapply getattr_dict;
        [apply heap_lookup_update; by rewrite (ca_obj _ _ _ _ _ _ Hcar)
        |by apply plain_name_property_slot|apply lookup_insert_eq].
  - intros name x Hhas. ca_open Hca1. unfold __setattr__, lock_guard.
    erewrite bind_raise; [done|].
    mstep hasattr_dict. mstep getattr_dict. cbn [truthy].
    by rewrite (bind_ok _ _ _ _ _ Hhas).
  - pose proof (collection_at_pg_new h1 (carried dict pg_field_names)) as Hca3.
    eexists _, (length h1). split; [|split; [|split]].
    + unfold Virtual.copy. erewrite bind_ok; [|eapply class_of_ok, Hca1].
      cbn beta iota. by eapply pg_copy_ok.
    + eapply class_of_ok, Hca3.
    + apply schema_of_unfold. by eexists.
    + intros name x Hp Hnot.
      eapply setattr_reject; [apply Hca3..| | |].
      * by apply plain_name_property_slot.
      * rewrite lookup_insert_ne.
        -- apply init_dict_absent; [done|]. intros Hb.
           destruct (plain_name_not_reserved name name Hp); [|done].
           unfold reserved_names. apply elem_of_app. by left.
        -- apply not_eq_sym. eapply plain_name_not_reserved; [done|].
           by apply (bool_decide_unpack _).
      * by apply plain_name_not_member.
Qed.

End SubSchema.

(** ** apply *)

Section Apply.
Context {Expr : Type} `{!EqDecision Expr}.
Local Abbreviation M := (M Expr).
Local Abbreviation pyval := (pyval Expr).
Implicit Types (h : heap Expr) (c r t : loc) (dict : gmap string pyval).
Implicit Types (names : list string) (func : option string → pyval → pyval).

Lemma assign_all_lookup (g : string → pyval) (l : list string) dict k :
  assign_all g l dict !! k = if decide (k ∈ l) then Some (g k) else dict !! k.
Proof.
  unfold assign_all. revert dict.
  induction l as [|a l IH]; intros dict; cbn [foldl].
  - rewrite decide_False; [done|]. apply not_elem_of_nil.
  - rewrite IH. destruct (decide (k ∈ l)) as [Hin|Hin].
    + rewrite decide_True; [done|]. by right.
    + destruct (decide (k = a)) as [->|Hne].
      * rewrite decide_True by left. by rewrite lookup_insert_eq.
      * rewrite decide_False; [by rewrite lookup_insert_ne|].
        rewrite elem_of_cons. tauto.
Qed.

Lemma py_range_seq (n : nat) : py_range (Z.of_nat n) = Z.of_nat <$> seq 0 n.
Proof.
  unfold py_range, seqZ. rewrite Nat2Z.id. apply list_fmap_ext.
  intros i x _. lia.
Qed.

Lemma py_index_of_nat {A} (l : list A) (i : nat) a :
  l !! i = Some a → py_index l (Z.of_nat i) = Some a.
Proof.
  intros Hi. apply lookup_lt_Some in Hi as Hlt. unfold py_index.
  rewrite decide_True by lia. by rewrite Nat2Z.id.
Qed.

(** One turn of the loop: the value read at position [i] of the source goes
    through [fun] into the same position of the target. *)
Lemma apply_item_ok h c t cls cls' names locked locked' dict dict'
    func metadata (i : nat) name v :
  collection_at h c cls names locked dict →
  collection_at h t cls' names locked' dict' →
  names !! i = Some name →
  dict !! name = Some v →
  LabeledCollection.apply_item c t func metadata (Z.of_nat i) h
  = (<[t := Collection cls'
        (<[name := func (if metadata then Some name else None) v]> dict')]> h,
     Ok tt).
Proof.
  intros Hc Ht Hi Hv. apply py_index_of_nat in Hi as Hidx.
  unfold LabeledCollection.apply_item. destruct metadata.
  - mstep names_of_field_names. unfold index_names. rewrite Hidx.
    rewrite bind_lift_ok. mstep subscript_idx_ok.
    cbn [LabeledCollection.__setitem__]. by eapply setitem_by_idx_ok.
  - mstep subscript_idx_ok.
    cbn [LabeledCollection.__setitem__]. by eapply setitem_by_idx_ok.
Qed.

(** The loop writing into another collection of the same schema. *)
Lemma apply_loop_other func metadata c t cls cls' names locked locked' dict :
  c ≠ t →
  ∀ m k h dict',
    k + m = length names →
    collection_at h c cls names locked dict →
    collection_at h t cls' names locked' dict' →
    for_each (Z.of_nat <$> seq k m)
      (LabeledCollection.apply_item c t func metadata) h
    = (<[t := Collection cls'
          (assign_all (applied func metadata dict) (take m (drop k names))
             dict')]> h,
       Ok tt).
Proof.
  intros Hne. induction m as [|m IH]; intros k h dict' Hlen Hc Ht.
  - cbn. rewrite list_insert_id; [done|]. apply Ht.
  - cbn [seq fmap list_fmap for_each].
    destruct (lookup_lt_is_Some_2 names k) as [name Hname]; [lia|].
    assert (name ∈ names) as Hin by (by eapply list_elem_of_lookup_2).
    destruct (collection_at_field _ _ _ _ _ _ _ Hc Hin) as [Hplain [v Hv]].
    erewrite bind_ok; [|by eapply apply_item_ok]. cbn beta.
    rewrite (drop_S _ _ _ Hname). cbn [take].
    erewrite (IH (S k)); [|lia| |].
    + rewrite list_insert_insert_eq. unfold assign_all at 2. cbn [foldl].
      unfold applied at 3. by rewrite Hv.
    + eapply collection_at_transfer; [done|].
      rewrite heap_lookup_frame by done. apply Hc.
    + by apply collection_at_store.
Qed.

(** The loop writing into the receiver itself: with distinct names, the
    fields still to visit hold their original values. *)
Lemma apply_loop_inplace func metadata c cls names locked dict :
  NoDup names →
  ∀ m k h dict',
    k + m = length names →
    collection_at h c cls names locked dict' →
    (∀ name, name ∈ drop k names → dict' !! name = dict !! name) →
    for_each (Z.of_nat <$> seq k m)
      (LabeledCollection.apply_item c c func metadata) h
    = (<[c := Collection cls
          (assign_all (applied func metadata dict) (take m (drop k names))
             dict')]> h,
       Ok tt).
Proof.
  intros Hnd. induction m as [|m IH]; intros k h dict' Hlen Hc Hsame.
  - cbn. rewrite list_insert_id; [done|]. apply Hc.
  - cbn [seq fmap list_fmap for_each].
    destruct (lookup_lt_is_Some_2 names k) as [name Hname]; [lia|].
    assert (name ∈ names) as Hin by (by eapply list_elem_of_lookup_2).
    destruct (collection_at_field _ _ _ _ _ _ _ Hc Hin) as [Hplain [v Hv]].
    pose proof (drop_S _ _ _ Hname) as Hdrop.
    assert (dict !! name = Some v) as Hv0.
    { rewrite <- Hsame; [done|]. rewrite Hdrop. by left. }
    erewrite bind_ok; [|by eapply apply_item_ok]. cbn beta.
    rewrite Hdrop. cbn [take].
    erewrite (IH (S k)); [|lia| |].
    + rewrite list_insert_insert_eq. unfold assign_all at 2. cbn [foldl].
      unfold applied at 3. by rewrite Hv0.
    + by apply collection_at_store.
    + intros name' Hin'. rewrite lookup_insert_ne; [apply Hsame|].
      * rewrite Hdrop. by right.
      * intros <-. rewrite <- (take_drop k names) in Hnd.
        apply NoDup_app in Hnd as (_ & _ & Hnd). rewrite Hdrop in Hnd.
        by apply NoDup_cons in Hnd as [? _].
Qed.

(** [self._new_obj()] allocates an empty collection of the receiver's class
    and schema. *)
Lemma virtual_new_obj_ok h c cls names locked dict :
  collection_at h c cls names locked dict →
  ∃ dict0 locked',
    Virtual._new_obj c h = (h ++ [Collection cls dict0], Ok (length h))
    ∧ collection_at (h ++ [Collection cls dict0]) (length h) cls names locked'
        dict0.
Proof.
  intros Hca. ca_open Hca. unfold Virtual._new_obj.
  assert (Forall (λ name, plain_name name = true) names) as Hplain.
  { eapply Forall_impl; [exact Hfields|]. by intros name [? _]. }
  destruct cls.
  - exists (init_dict names ∅), false. split.
    + mstep class_of_ok. unfold LabeledCollection._new_obj.
      mstep names_of_field_names. apply new_ok; [done|].
      intros k [v Hk]. by rewrite lookup_empty in Hk.
    + apply collection_at_init; [apply heap_lookup_fresh|done..].
  - rewrite (Hcls eq_refl) in *.
    exists (<["_is_locked" := PyBool true]> (init_dict pg_field_names ∅)), true.
    split.
    + mstep class_of_ok. unfold CollectionPG._new_obj. apply pg_new_ok.
      intros k [v Hk]. by rewrite lookup_empty in Hk.
    + apply collection_at_pg_new.
Qed.

(** C6: [apply] with [inplace=False] returns a new collection of the same
    class and schema whose value at every index is [func] of the receiver's
    value at that index, and leaves the receiver as it was; with
    [inplace=True], on a schema of distinct names, it returns the receiver
    itself with every slot replaced by [func] of its previous value.  With
    [metadata] set, [func] also receives the name of the field. *)
Theorem apply_maps_every_slot h c cls names locked
    (func : option string → pyval → pyval) (metadata : bool) :
  schema_of h c = Some (cls, names, locked) →
  (∃ h' r,
     Virtual.apply c func false metadata h = (h', Ok r)
     ∧ h !! r = None
     ∧ h' !! c = h !! c
     ∧ (∃ locked', schema_of h' r = Some (cls, names, locked'))
     ∧ ∀ (i : nat) name, names !! i = Some name →
         ∃ v,
           LabeledCollection.__getitem__ c (KInt (Z.of_nat i)) h
           = (h, Ok (Single v))
           ∧ LabeledCollection.__getitem__ c (KInt (Z.of_nat i)) h'
             = (h', Ok (Single v))
           ∧ LabeledCollection.__getitem__ r (KInt (Z.of_nat i)) h'
             = (h', Ok (Single (func (if metadata then Some name else None) v))))
  ∧ (NoDup names →
     ∃ h',
       Virtual.apply c func true metadata h = (h', Ok c)
       ∧ schema_of h' c = Some (cls, names, locked)
       ∧ ∀ (i : nat) name, names !! i = Some name →
           ∃ v,
             LabeledCollection.__getitem__ c (KInt (Z.of_nat i)) h
             = (h, Ok (Single v))
             ∧ LabeledCollection.__getitem__ c (KInt (Z.of_nat i)) h'
               = (h', Ok (Single (func (if metadata then Some name else None) v)))).
Proof.
  intros [dict Hca]%schema_of_unfold.
  assert (take (length names) (drop 0 names) = names) as Htake.
  { rewrite drop_0. by apply take_ge. }
  assert (∀ name, name ∈ names → plain_name name = true) as Hplain.
  { intros name Hin. by eapply collection_at_field. }
  split.
  - destruct (virtual_new_obj_ok _ _ _ _ _ _ Hca)
      as (dict0 & locked' & Hnew & Hcar).
    set (h1 := h ++ [Collection cls dict0]) in *.
    pose proof (collection_at_alloc _ _ _ _ _ _ (Collection cls dict0) Hca)
      as Hca1. fold h1 in Hca1.
    assert (c ≠ length h) as Hne.
    { intros ->. pose proof (ca_obj _ _ _ _ _ _ Hca) as Hc.
      apply lookup_lt_Some in Hc. lia. }
    set (dict' := assign_all (applied func metadata dict) names dict0).
    set (h' := <[length h := Collection cls dict']> h1).
    assert (collection_at h' (length h) cls names locked' dict') as Hcar'.
    { ca_open Hcar. destruct Hitn as [b4 ?], Hitf as [b5 ?], Hnit as [i6 ?].
      assert (∀ k, k ∈ reserved_names → dict' !! k = dict0 !! k) as Hres.
      { intros k Hk. unfold dict'. rewrite assign_all_lookup.
        rewrite decide_False; [done|]. intros Hin.
        by eapply (plain_name_not_reserved k k); [apply Hplain|..]. }
      split; try done; try eexists;
        try (rewrite Hres; [done|by apply (bool_decide_unpack _)]).
      - apply heap_lookup_update. by rewrite Hobj.
      - apply Forall_forall. intros name Hin. split; [by apply Hplain|].
        unfold dict'. rewrite assign_all_lookup, decide_True by done.
        by eexists. }
    assert (h' !! c = h !! c) as Hframe.
    { unfold h'. rewrite heap_lookup_frame by done.
      rewrite (ca_obj _ _ _ _ _ _ Hca). apply Hca1. }
    exists h', (length h). split; [|split; [|split; [|split]]].
    + unfold Virtual.apply, LabeledCollection.apply.
      rewrite (bind_ok _ _ _ _ _ Hnew). cbn beta.
      mstep int_of_n_fields. rewrite py_range_seq.
      erewrite bind_ok; [done|].
      erewrite (apply_loop_other func metadata c (length h));
        [|done|by rewrite Nat.add_0_l|done|done].
      by rewrite Htake.
    + by apply lookup_ge_None_2.
    + done.
    + exists locked'. apply schema_of_unfold. by eexists.
    + intros i name Hi.
      assert (name ∈ names) as Hin by (by eapply list_elem_of_lookup_2).
      destruct (collection_at_field _ _ _ _ _ _ _ Hca Hin) as [_ [v Hv]].
      apply py_index_of_nat in Hi as Hidx.
      exists v. split; [|split]; cbn [LabeledCollection.__getitem__].
      * by mstep getitem_by_idx_ok.
      * erewrite bind_ok; [done|].
        eapply getitem_by_idx_ok; [|done..].
        eapply collection_at_transfer; [done|].
        by rewrite Hframe, (ca_obj _ _ _ _ _ _ Hca).
      * erewrite bind_ok; [done|].
        eapply getitem_by_idx_ok; [done..|].
        unfold dict'. rewrite assign_all_lookup, decide_True by done.
        unfold applied. by rewrite Hv.
  - intros Hnd.
    set (dict' := assign_all (applied func metadata dict) names dict).
    set (h' := <[c := Collection cls dict']> h).
    assert (collection_at h' c cls names locked dict') as Hca'.
    { ca_open Hca. destruct Hitn as [b4 ?], Hitf as [b5 ?], Hnit as [i6 ?].
      assert (∀ k, k ∈ reserved_names → dict' !! k = dict !! k) as Hres.
      { intros k Hk. unfold dict'. rewrite assign_all_lookup.
        rewrite decide_False; [done|]. intros Hin.
        by eapply (plain_name_not_reserved k k); [apply Hplain|..]. }
      split; try done; try eexists;
        try (rewrite Hres; [done|by apply (bool_decide_unpack _)]).
      - apply heap_lookup_update. by rewrite Hobj.
      - apply Forall_forall. intros name Hin. split; [by apply Hplain|].
        unfold dict'. rewrite assign_all_lookup, decide_True by done.
        by eexists. }
    exists h'. split; [|split].
    + unfold Virtual.apply, LabeledCollection.apply.
      rewrite bind_ret. mstep int_of_n_fields. rewrite py_range_seq.
      erewrite bind_ok; [done|].
      erewrite (apply_loop_inplace func metadata c);
        [|done|by rewrite Nat.add_0_l|done|done].
      by rewrite Htake.
    + apply schema_of_unfold. by eexists.
    + intros i name Hi.
      assert (name ∈ names) as Hin by (by eapply list_elem_of_lookup_2).
      destruct (collection_at_field _ _ _ _ _ _ _ Hca Hin) as [_ [v Hv]].
      apply py_index_of_nat in Hi as Hidx.
      exists v. split; cbn [LabeledCollection.__getitem__].
      * by mstep getitem_by_idx_ok.
      * erewrite bind_ok; [done|].
        eapply getitem_by_idx_ok; [done..|].
        unfold dict'. rewrite assign_all_lookup, decide_True by done.
        unfold applied. by rewrite Hv.
Qed.

End Apply.

(** ** Dictionaries keyed by values *)

Section Dicts.
Context {Expr : Type} `{!EqDecision Expr}.
Local Abbreviation M := (M Expr).
Local Abbreviation pyval := (pyval Expr).
Local Abbreviation pydict := (list (pyval * pyval)).
Implicit Types (h : heap Expr) (d : pydict) (k v : pyval).
Implicit Types (kvs : list (pyval * pyval)).

Lemma py_eq_refl k : py_eq k k = true.
Proof.
  destruct k; cbn; try done; try (by apply bool_decide_eq_true);
    try apply Z.eqb_refl.
Qed.

Lemma py_eq_sym k k' : py_eq k k' = py_eq k' k.
Proof.
  destruct k, k'; cbn; try done; try apply Z.eqb_sym;
    apply bool_decide_ext; intuition congruence.
Qed.

Lemma py_eq_trans k1 k2 k3 :
  py_eq k1 k2 = true → py_eq k2 k3 = true → py_eq k1 k3 = true.
Proof.
  destruct k1, k2, k3; cbn; try done;
    rewrite ?bool_decide_eq_true, ?Z.eqb_eq;
    try (intros; subst; done); try (intros; congruence).
  - intros H1 H2. destruct b, b0; simpl in *; lia.
  - intros [-> ->] [-> ->]. done.
Qed.

(** Equal keys are interchangeable in a comparison. *)
Lemma py_eq_congr k1 k2 k3 : py_eq k1 k2 = true → py_eq k1 k3 = py_eq k2 k3.
Proof.
  intros H12. destruct (py_eq k2 k3) eqn:H23.
  - by eapply py_eq_trans.
  - destruct (py_eq k1 k3) eqn:H13; [|done].
    rewrite <- H23. symmetry. eapply py_eq_trans; [|done].
    by rewrite py_eq_sym.
Qed.

Lemma dict_get_set d k v k' :
  dict_get (dict_set d k v) k'
  = if py_eq k k' then Some v else dict_get d k'.
Proof.
  induction d as [|[k0 v0] d IH]; cbn [dict_set dict_get].
  - done.
  - destruct (py_eq k0 k) eqn:H0; cbn [dict_get].
    + rewrite (py_eq_congr _ _ k' H0). by destruct (py_eq k k').
    + rewrite IH. destruct (py_eq k0 k') eqn:H0'; [|done].
      destruct (py_eq k k') eqn:Hk; [|done].
      rewrite (py_eq_sym k k') in Hk.
      pose proof (py_eq_trans _ _ _ H0' Hk). congruence.
Qed.

Lemma of_pairs_snoc kvs k v :
  of_pairs (kvs ++ [(k, v)]) = dict_set (of_pairs kvs) k v.
Proof. unfold of_pairs. by rewrite foldl_app. Qed.

Lemma last_value_snoc kvs k v k' :
  last_value (kvs ++ [(k, v)]) k'
  = if py_eq k k' then Some v else last_value kvs k'.
Proof.
  induction kvs as [|[k0 v0] kvs IH]; cbn [app last_value].
  - done.
  - rewrite IH. by destruct (py_eq k k').
Qed.

(** A lookup finds the value of the last pair with an equal key. *)
Lemma dict_get_of_pairs kvs k : dict_get (of_pairs kvs) k = last_value kvs k.
Proof.
  induction kvs as [|[k0 v0] kvs IH] using rev_ind; [done|].
  by rewrite of_pairs_snoc, dict_get_set, last_value_snoc, IH.
Qed.

Lemma dict_set_keys d k v :
  (dict_set d k v).*1 = d.*1 ∧ Exists (λ k0, py_eq k0 k = true) d.*1
  ∨ (dict_set d k v).*1 = d.*1 ++ [k] ∧ Forall (λ k0, py_eq k0 k = false) d.*1.
Proof.
  induction d as [|[k0 v0] d IH]; cbn [dict_set fmap list_fmap fst].
  - right. by split.
  - destruct (py_eq k0 k) eqn:H0; cbn [fmap list_fmap fst].
    + left. split; [done|]. by left.
    + destruct IH as [[-> Hex]|[-> Hall]].
      * left. split; [done|]. by right.
      * right. split; [done|]. by constructor.
Qed.

Lemma keys_distinct_snoc (ks : list pyval) k :
  keys_distinct ks → Forall (λ k0, py_eq k0 k = false) ks →
  keys_distinct (ks ++ [k]).
Proof.
  induction ks as [|k0 ks IH]; cbn [app keys_distinct].
  - by intros _ _.
  - intros [Hall Hd] [H0 Hrest]%Forall_cons. split.
    + apply Forall_app. split; [done|]. by constructor.
    + by apply IH.
Qed.

(** One entry per key, up to [==]. *)
Lemma keys_distinct_of_pairs kvs : keys_distinct (of_pairs kvs).*1.
Proof.
  induction kvs as [|[k0 v0] kvs IH] using rev_ind; [done|].
  rewrite of_pairs_snoc.
  destruct (dict_set_keys (of_pairs kvs) k0 v0) as [[-> _]|[-> Hall]];
    [done|]. by apply keys_distinct_snoc.
Qed.

Lemma keys_of_pairs kvs k : k ∈ (of_pairs kvs).*1 → k ∈ kvs.*1.
Proof.
  induction kvs as [|[k0 v0] kvs IH] using rev_ind; [done|].
  rewrite of_pairs_snoc, fmap_app.
  destruct (dict_set_keys (of_pairs kvs) k0 v0) as [[-> _]|[-> _]].
  - intros Hin. apply elem_of_app. left. by apply IH.
  - rewrite !elem_of_app. intros [Hin|Hin]; [left; by apply IH|by right].
Qed.

Lemma length_of_pairs kvs : length (of_pairs kvs) ≤ length kvs.
Proof.
  induction kvs as [|[k0 v0] kvs IH] using rev_ind; [done|].
  rewrite of_pairs_snoc, length_app. cbn [length].
  rewrite <- (length_fmap fst (dict_set _ _ _)).
  destruct (dict_set_keys (of_pairs kvs) k0 v0) as [[-> _]|[-> _]];
    rewrite ?length_app, !length_fmap; cbn [length]; lia.
Qed.

(** With pairwise different keys nothing is merged: the dictionary is the
    list of pairs. *)
Lemma of_pairs_distinct kvs : keys_distinct kvs.*1 → of_pairs kvs = kvs.
Proof.
  unfold of_pairs.
  assert (∀ d, keys_distinct (d ++ kvs).*1 →
            foldl (λ d kv, dict_set d kv.1 kv.2) d kvs = d ++ kvs) as Hgen.
  { induction kvs as [|[k0 v0] kvs IH]; intros d Hd; cbn [foldl fst snd].
    - by rewrite app_nil_r.
    - assert (dict_set d k0 v0 = d ++ [(k0, v0)]) as ->.
      { clear IH. induction d as [|[k1 v1] d IHd]; [done|].
        cbn [dict_set]. cbn in Hd. destruct Hd as [Hall Hd].
        rewrite fmap_app in Hall. apply Forall_app in Hall as [_ Hall].
        apply Forall_cons in Hall as [Hk _]. cbn [fst] in Hk. rewrite Hk.
        cbn. f_equal. by apply IHd. }
      rewrite IH; rewrite <- app_assoc; done. }
  intros Hd. by apply (Hgen []).
Qed.

(** A comprehension whose keys and values are read without effect. *)
Lemma dict_comp_ok {A} h (l : list A) (body : A → M (pyval * pyval))
    (f : A → pyval * pyval) d :
  (∀ a, a ∈ l → body a h = (h, Ok (f a))) →
  (∀ a, a ∈ l → hashable (f a).1 = true) →
  dict_comp l body d h
  = (h, Ok (foldl (λ d kv, dict_set d kv.1 kv.2) d (f <$> l))).
Proof.
  revert d. induction l as [|a l IH]; intros d Hbody Hhash; [done|].
  cbn [dict_comp fmap list_fmap foldl].
  erewrite bind_ok; [|apply Hbody; by left]. cbn beta.
  unfold dict_setitem. rewrite Hhash by left. rewrite bind_lift_ok.
  apply IH; intros a' Ha'; [apply Hbody|apply Hhash]; by right.
Qed.

(** The comprehension stops at the first element whose key or value raises. *)
Lemma dict_comp_raises {A} h (l1 l2 : list A) (x : A)
    (body : A → M (pyval * pyval)) (f : A → pyval * pyval) d e :
  (∀ a, a ∈ l1 → body a h = (h, Ok (f a))) →
  (∀ a, a ∈ l1 → hashable (f a).1 = true) →
  body x h = (h, Raise e) →
  dict_comp (l1 ++ x :: l2) body d h = (h, Raise e).
Proof.
  revert d. induction l1 as [|a l1 IH]; intros d Hbody Hhash Hx.
  - cbn [app dict_comp]. by erewrite bind_raise.
  - cbn [app dict_comp].
    erewrite bind_ok; [|apply Hbody; by left]. cbn beta.
    unfold dict_setitem. rewrite Hhash by left. rewrite bind_lift_ok.
    apply IH; [| |done]; intros a' Ha'; [apply Hbody|apply Hhash]; by right.
Qed.

(** It stops with [TypeError] at the first element whose key cannot be
    hashed, after the key and the value have been read. *)
Lemma dict_comp_unhashable {A} h (l1 l2 : list A) (x : A)
    (body : A → M (pyval * pyval)) (f : A → pyval * pyval) d kv :
  (∀ a, a ∈ l1 → body a h = (h, Ok (f a))) →
  (∀ a, a ∈ l1 → hashable (f a).1 = true) →
  body x h = (h, Ok kv) →
  hashable kv.1 = false →
  dict_comp (l1 ++ x :: l2) body d h = (h, Raise TypeError).
Proof.
  revert d. induction l1 as [|a l1 IH]; intros d Hbody Hhash Hx Hkey.
  - cbn [app dict_comp]. rewrite (bind_ok _ _ _ _ _ Hx). cbn beta.
    unfold dict_setitem. by rewrite Hkey.
  - cbn [app dict_comp].
    erewrite bind_ok; [|apply Hbody; by left]. cbn beta.
    unfold dict_setitem. rewrite Hhash by left. rewrite bind_lift_ok.
    apply IH; [| |done|done]; intros a' Ha'; [apply Hbody|apply Hhash];
      by right.
Qed.

End Dicts.

(** ** The mapping functions *)

Section Mapping.
Context {Expr : Type} `{!EqDecision Expr}.
Local Abbreviation M := (M Expr).
Local Abbreviation pyval := (pyval Expr).
Implicit Types (h : heap Expr) (a b : loc) (k v : pyval).
Implicit Types (names : list string).

Lemma slot_collection_at h c cls names locked dict name :
  collection_at h c cls names locked dict → slot h c name = dict !! name.
Proof. intros Hca. unfold slot. by rewrite (ca_obj _ _ _ _ _ _ Hca). Qed.

(** The last pair with a key equal to [k0] decides. *)
Lemma last_value_at (kvs : list (pyval * pyval)) (i : nat) k v k0 :
  kvs !! i = Some (k, v) →
  py_eq k k0 = true →
  (∀ j k' v', i < j → kvs !! j = Some (k', v') → py_eq k' k0 = false) →
  last_value kvs k0 = Some v.
Proof.
  revert i. induction kvs as [|[k1 v1] kvs IH]; intros i Hi Hk Hlater.
  - done.
  - cbn [last_value]. destruct i as [|i].
    + injection Hi as -> ->.
      assert (last_value kvs k0 = None) as ->; [|by rewrite Hk].
      clear IH. assert (∀ j k' v', kvs !! j = Some (k', v') →
        py_eq k' k0 = false) as Hall.
      { intros j k' v' Hj. apply (Hlater (S j) k' v'); [lia|done]. }
      clear Hlater. induction kvs as [|[k2 v2] kvs IH2]; [done|].
      cbn [last_value]. rewrite IH2.
      * by rewrite (Hall 0 k2 v2).
      * intros j k' v' Hj. by apply (Hall (S j) k' v').
    + erewrite (IH i); [done|done|done|].
      intros j k' v' Hlt Hj. apply (Hlater (S j) k' v'); [lia|done].
Qed.

Lemma last_value_is_Some (kvs : list (pyval * pyval)) k :
  k ∈ kvs.*1 → is_Some (last_value kvs k).
Proof.
  induction kvs as [|[k1 v1] kvs IH]; [by intros ?%elem_of_nil|].
  cbn [fmap list_fmap fst last_value]. intros [Heq|Hin]%elem_of_cons.
  - subst k1. destruct (last_value kvs k); [by eexists|].
    rewrite py_eq_refl. by eexists.
  - destruct (IH Hin) as [v ->]. by eexists.
Qed.

(** C5, as the code has it: [map_collection] fails with [AssertionError],
    the exception behind a schema mismatch, whenever the two lists of names
    differ.  When they are the same and every value of the source can be a
    dictionary key, it returns a dictionary that maps every value of the
    source to the value the target holds at the same name; when several
    names of the source hold equal values there is one entry for them, with
    the target's value at the last such name.  When they are the same and a
    value of the source cannot be a key, it raises [TypeError] at the first
    such value in the order of the names. *)
Theorem map_collection_by_name h a b cls_a cls_b names_a names_b
    locked_a locked_b :
  schema_of h a = Some (cls_a, names_a, locked_a) →
  schema_of h b = Some (cls_b, names_b, locked_b) →
  (names_a ≠ names_b → map_collection a b h = (h, Raise AssertionError))
  ∧ (names_a = names_b →
     (∀ name v, name ∈ names_a → slot h a name = Some v → hashable v = true) →
     ∃ d,
       map_collection a b h = (h, Ok d)
       ∧ (∀ k, dict_get d k
               = last_value (zip (values_along h a names_a)
                                 (values_along h b names_a)) k)
       ∧ (∀ (i : nat) name va vb,
            names_a !! i = Some name →
            slot h a name = Some va → slot h b name = Some vb →
            (∀ (j : nat) name' va', i < j → names_a !! j = Some name' →
               slot h a name' = Some va' → py_eq va' va = false) →
            dict_get d va = Some vb)
       ∧ (∀ name va, name ∈ names_a → slot h a name = Some va →
            is_Some (dict_get d va))
       ∧ keys_distinct d.*1
       ∧ (∀ k, k ∈ d.*1 → ∃ name, name ∈ names_a ∧ slot h a name = Some k))
  ∧ (names_a = names_b →
     ∀ (i : nat) name v,
       names_a !! i = Some name → slot h a name = Some v →
       hashable v = false →
       (∀ (j : nat) name' v', j < i → names_a !! j = Some name' →
          slot h a name' = Some v' → hashable v' = true) →
       map_collection a b h = (h, Raise TypeError)).
Proof.
  intros [dict_a Ha]%schema_of_unfold [dict_b Hb]%schema_of_unfold.
  assert (getattr_names : ∀ c cls names locked dict,
    collection_at h c cls names locked dict →
    LabeledCollection.getattr c "_field_names" h = (h, Ok (PyStrList names))).
  { intros c cls names locked dict Hca. ca_open Hca. by eapply getattr_dict. }
  set (f := λ name : string,
         (default PyNone (slot h a name), default PyNone (slot h b name))).
  assert (names_a = names_b → ∀ name, name ∈ names_a →
            ∃ va vb, slot h a name = Some va ∧ slot h b name = Some vb)
    as Hvals.
  { intros <- name Hin.
    destruct (collection_at_field _ _ _ _ _ _ _ Ha Hin) as [_ [va Hva]].
    destruct (collection_at_field _ _ _ _ _ _ _ Hb Hin) as [_ [vb Hvb]].
    exists va, vb. by erewrite !slot_collection_at. }
  assert (names_a = names_b → ∀ name, name ∈ names_a →
            (k <- LabeledCollection.subscript a (KStr name);;
             v <- LabeledCollection.subscript b (KStr name);;
             ret (k, v)) h = (h, Ok (f name))) as Hbody.
  { intros Heq name Hin.
    destruct (Hvals Heq name Hin) as (va & vb & Hva & Hvb). subst names_b.
    erewrite slot_collection_at in Hva, Hvb by done.
    erewrite bind_ok; [|by eapply subscript_name_ok]. cbn beta.
    erewrite bind_ok; [|by eapply subscript_name_ok]. cbn beta.
    unfold f. erewrite !slot_collection_at by done. by rewrite Hva, Hvb. }
  split; [|split].
  - intros Hne. unfold map_collection.
    mstep getattr_names. mstep getattr_names. cbn [py_eq].
    by rewrite bool_decide_eq_false_2.
  - intros Heq Hhash. specialize (Hvals Heq). specialize (Hbody Heq).
    subst names_b.
    set (pairs := zip (values_along h a names_a) (values_along h b names_a)).
    assert (pairs = f <$> names_a) as Hpairs.
    { unfold pairs, values_along. clear.
      induction names_a as [|name names IH]; [done|]. cbn. by rewrite IH. }
    exists (of_pairs pairs). split; [|split; [|split; [|split; [|split]]]].
    + unfold map_collection.
      mstep getattr_names. mstep getattr_names. cbn [py_eq].
      rewrite bool_decide_eq_true_2 by done.
      mstep names_of_field_names.
      erewrite (dict_comp_ok h names_a _ f); [by rewrite Hpairs| |].
      * done.
      * intros name Hin. destruct (Hvals name Hin) as (va & vb & Hva & Hvb).
        unfold f. cbn [fst]. rewrite Hva. by eapply Hhash.
    + intros k. apply dict_get_of_pairs.
    + intros i name va vb Hi Hva Hvb Hlast.
      rewrite dict_get_of_pairs. eapply (last_value_at _ i va vb).
      * rewrite Hpairs, list_lookup_fmap, Hi. unfold f. cbn.
        by rewrite Hva, Hvb.
      * apply py_eq_refl.
      * intros j k' v' Hlt. rewrite Hpairs, list_lookup_fmap.
        destruct (names_a !! j) as [name'|] eqn:Hj; [|done].
        cbn. intros [= <- <-].
        destruct (Hvals name') as (va' & vb' & Hva' & Hvb');
          [by eapply list_elem_of_lookup_2|].
        rewrite Hva'. cbn. by eapply Hlast.
    + intros name va Hin Hva. rewrite dict_get_of_pairs.
      apply last_value_is_Some. rewrite Hpairs, <- list_fmap_compose.
      apply list_elem_of_fmap. exists name. split; [|done].
      cbn. by rewrite Hva.
    + apply keys_distinct_of_pairs.
    + intros k Hk%keys_of_pairs. rewrite Hpairs, <- list_fmap_compose in Hk.
      apply list_elem_of_fmap in Hk as [name [-> Hin]].
      exists name. split; [done|]. cbn.
      destruct (Hvals name Hin) as (va & vb & Hva & Hvb). by rewrite Hva.
  - intros Heq i name v Hi Hv Hkey Hearlier.
    specialize (Hvals Heq). specialize (Hbody Heq). subst names_b.
    unfold map_collection.
    mstep getattr_names. mstep getattr_names. cbn [py_eq].
    rewrite bool_decide_eq_true_2 by done.
    mstep names_of_field_names.
    rewrite <- (take_drop_middle names_a i name Hi).
    eapply (dict_comp_unhashable h _ _ _ _ f _ (f name)).
    + intros name' [j [Hj _]]%elem_of_take. apply Hbody.
      by eapply list_elem_of_lookup_2.
    + intros name' [j [Hj Hlt]]%elem_of_take.
      destruct (Hvals name') as (va & vb & Hva & Hvb);
        [by eapply list_elem_of_lookup_2|].
      unfold f. cbn [fst]. rewrite Hva. by eapply Hearlier.
    + apply Hbody. by eapply list_elem_of_lookup_2.
    + unfold f. cbn [fst]. by rewrite Hv.
Qed.

Lemma subscript_idx_out_of_range h c cls names locked dict (i : nat) :
  collection_at h c cls names locked dict →
  length names ≤ i →
  LabeledCollection.subscript c (KInt (Z.of_nat i)) h = (h, Raise IndexError).
Proof.
  intros Hca Hi. unfold LabeledCollection.subscript.
  cbn [LabeledCollection.__getitem__].
  erewrite bind_raise; [done|]. erewrite bind_raise; [done|].
  unfold LabeledCollection._getitem_by_idx.
  mstep names_of_field_names. unfold index_names, py_index.
  rewrite decide_False by lia. by rewrite decide_False by lia.
Qed.

(** C3, as the code has it: [map_PG_fields] checks no schema and pairs the
    value at position [i] of the source with the value at position [i] of
    the target for [i] from 0 up to the length of the source, and stops at
    the first position that fails.  When no position fails -- the target is
    at least as long and every value of the source can be a dictionary key
    -- it does not raise, whatever the two schemas are, and returns a
    dictionary with one entry per distinct value of the source, mapped to
    the target's value at the last position that holds it: at most as many
    entries as the shorter length, and exactly the positional pairs when the
    values of the source are pairwise different.  When the target is shorter
    and the values of the source at the positions of the target can be keys,
    it raises [IndexError] at the first position the target lacks.  When a
    value of the source at a position of the target cannot be a key, it
    raises [TypeError] at the first such position. *)
Theorem map_PG_fields_by_position h a b cls_a cls_b names_a names_b
    locked_a locked_b :
  schema_of h a = Some (cls_a, names_a, locked_a) →
  schema_of h b = Some (cls_b, names_b, locked_b) →
  let vals_a := values_along h a names_a in
  let pairs := zip (values_along h a names_a) (values_along h b names_b) in
  (length names_a ≤ length names_b →
   (∀ name v, name ∈ names_a → slot h a name = Some v → hashable v = true) →
   ∃ d,
     map_PG_fields a b h = (h, Ok d)
     ∧ (∀ k, dict_get d k = last_value pairs k)
     ∧ keys_distinct d.*1
     ∧ (∀ k, k ∈ d.*1 → k ∈ values_along h a names_a)
     ∧ length d ≤ length names_a `min` length names_b
     ∧ (keys_distinct (values_along h a names_a) →
          d = pairs ∧ length d = length names_a `min` length names_b))
  ∧ (length names_b < length names_a →
     (∀ (j : nat) v, j < length names_b → vals_a !! j = Some v →
        hashable v = true) →
     map_PG_fields a b h = (h, Raise IndexError))
  ∧ (∀ (i : nat) v,
       i < length names_b → vals_a !! i = Some v → hashable v = false →
       (∀ (j : nat) v', j < i → vals_a !! j = Some v' → hashable v' = true) →
       map_PG_fields a b h = (h, Raise TypeError)).
Proof.
  intros [dict_a Ha]%schema_of_unfold [dict_b Hb]%schema_of_unfold
    vals_a pairs.
  set (f := λ z : Z,
         (default PyNone (names_a !! Z.to_nat z ≫= slot h a),
          default PyNone (names_b !! Z.to_nat z ≫= slot h b))).
  assert (∀ i : nat, i < length names_a → i < length names_b →
            LabeledCollection.subscript a (KInt (Z.of_nat i)) h
            = (h, Ok (f (Z.of_nat i)).1)
            ∧ LabeledCollection.subscript b (KInt (Z.of_nat i)) h
              = (h, Ok (f (Z.of_nat i)).2)) as Hbody.
  { intros i Hia Hib.
    destruct (lookup_lt_is_Some_2 names_a i Hia) as [na Hna].
    destruct (lookup_lt_is_Some_2 names_b i Hib) as [nb Hnb].
    apply list_elem_of_lookup_2 in Hna as Hina.
    apply list_elem_of_lookup_2 in Hnb as Hinb.
    destruct (collection_at_field _ _ _ _ _ _ _ Ha Hina) as [_ [va Hva]].
    destruct (collection_at_field _ _ _ _ _ _ _ Hb Hinb) as [_ [vb Hvb]].
    unfold f. cbn [fst snd]. rewrite Nat2Z.id, Hna, Hnb. cbn.
    erewrite !slot_collection_at by done. rewrite Hva, Hvb. cbn.
    split; eapply subscript_idx_ok; try done; by apply py_index_of_nat. }
  assert (∀ i : nat, i < length names_a →
            vals_a !! i = Some (f (Z.of_nat i)).1) as Hfval.
  { intros i Hia.
    destruct (lookup_lt_is_Some_2 names_a i Hia) as [na Hna].
    unfold vals_a, values_along, f. cbn [fst].
    by rewrite list_lookup_fmap, Nat2Z.id, Hna. }
  assert (∀ i : nat, i < length names_a → i < length names_b →
            (k <- LabeledCollection.subscript a (KInt (Z.of_nat i));;
             v <- LabeledCollection.subscript b (KInt (Z.of_nat i));;
             ret (k, v)) h = (h, Ok (f (Z.of_nat i)))) as Hpair.
  { intros i Hia Hib. destruct (Hbody i) as [Hka Hkb]; [lia..|].
    rewrite (bind_ok _ _ _ _ _ Hka). cbn beta.
    rewrite (bind_ok _ _ _ _ _ Hkb). cbn beta. by destruct (f _). }
  split; [|split].
  - intros Hle Hhash.
    assert (∀ i : nat, i < length names_a →
              hashable (f (Z.of_nat i)).1 = true) as Hfhash.
    { intros i Hia.
      destruct (lookup_lt_is_Some_2 names_a i Hia) as [na Hna].
      apply list_elem_of_lookup_2 in Hna as Hina.
      destruct (collection_at_field _ _ _ _ _ _ _ Ha Hina) as [_ [va Hva]].
      unfold f. cbn [fst]. rewrite Nat2Z.id, Hna. cbn.
      erewrite slot_collection_at by done. rewrite Hva. cbn.
      eapply Hhash; [done|]. by erewrite slot_collection_at. }
    assert (f <$> (Z.of_nat <$> seq 0 (length names_a)) = pairs) as Hpairs.
    { apply list_eq. intros i. unfold pairs, values_along.
      rewrite !list_lookup_fmap, lookup_zip_with, !list_lookup_fmap.
      destruct (decide (i < length names_a)) as [Hlt|Hge].
      - rewrite lookup_seq_lt by done.
        destruct (lookup_lt_is_Some_2 names_a i Hlt) as [na Hna].
        destruct (lookup_lt_is_Some_2 names_b i) as [nb Hnb]; [lia|].
        cbn. unfold f. rewrite Nat2Z.id, Hna, Hnb. done.
      - rewrite lookup_seq_ge by lia.
        rewrite (lookup_ge_None_2 names_a) by lia. done. }
    exists (of_pairs pairs).
    split; [|split; [|split; [|split; [|split]]]].
    + unfold map_PG_fields. mstep int_of_n_fields. rewrite py_range_seq.
      erewrite (dict_comp_ok h _ _ f); [by rewrite Hpairs| |].
      * intros z [i [-> Hi%elem_of_seq]]%list_elem_of_fmap.
        destruct (Hbody i) as [Hka Hkb]; [lia..|].
        rewrite (bind_ok _ _ _ _ _ Hka). cbn beta.
        rewrite (bind_ok _ _ _ _ _ Hkb). cbn beta. by destruct (f _).
      * intros z [i [-> Hi%elem_of_seq]]%list_elem_of_fmap.
        apply Hfhash. lia.
    + intros k. apply dict_get_of_pairs.
    + apply keys_distinct_of_pairs.
    + intros k Hk%keys_of_pairs. unfold pairs in Hk.
      apply list_elem_of_fmap in Hk as [[k1 v1] [-> Hin]].
      by apply elem_of_zip_l in Hin.
    + etrans; [apply length_of_pairs|].
      unfold pairs, values_along. by rewrite length_zip, !length_fmap.
    + intros Hd.
      assert (pairs.*1 = values_along h a names_a) as Hfst.
      { unfold pairs. apply fst_zip. unfold values_along.
        rewrite !length_fmap. lia. }
      rewrite of_pairs_distinct by (by rewrite Hfst).
      split; [done|]. unfold pairs, values_along.
      by rewrite length_zip, !length_fmap.
  - intros Hlt Hhash. unfold map_PG_fields. mstep int_of_n_fields.
    rewrite py_range_seq.
    replace (length names_a)
      with (length names_b + S (length names_a - S (length names_b))) by lia.
    rewrite seq_app, fmap_app. cbn [seq fmap list_fmap].
    eapply (dict_comp_raises h _ _ _ _ f).
    + intros z [i [-> Hi%elem_of_seq]]%list_elem_of_fmap.
      apply Hpair; lia.
    + intros z [i [-> Hi%elem_of_seq]]%list_elem_of_fmap.
      apply (Hhash i); [lia|]. apply Hfval. lia.
    + rewrite Nat.add_0_l.
      destruct (lookup_lt_is_Some_2 names_a (length names_b) Hlt) as [na Hna].
      apply list_elem_of_lookup_2 in Hna as Hina.
      destruct (collection_at_field _ _ _ _ _ _ _ Ha Hina) as [_ [va Hva]].
      erewrite bind_ok;
        [|eapply subscript_idx_ok; [done|by apply py_index_of_nat|done]].
      cbn beta. erewrite bind_raise; [done|].
      by eapply subscript_idx_out_of_range.
  - intros i v Hib Hv Hkey Hearlier.
    assert (i < length names_a) as Hia.
    { apply lookup_lt_Some in Hv. unfold vals_a, values_along in Hv.
      by rewrite length_fmap in Hv. }
    unfold map_PG_fields. mstep int_of_n_fields. rewrite py_range_seq.
    replace (length names_a) with (i + S (length names_a - S i)) by lia.
    rewrite seq_app, fmap_app. cbn [seq fmap list_fmap].
    change (0 + i) with i.
    eapply (dict_comp_unhashable h _ _ _ _ f _ (f (Z.of_nat i))).
    + intros z [j [-> Hj%elem_of_seq]]%list_elem_of_fmap. apply Hpair; lia.
    + intros z [j [-> Hj%elem_of_seq]]%list_elem_of_fmap.
      apply (Hearlier j); [lia|]. apply Hfval. lia.
    + apply Hpair; lia.
    + rewrite (Hfval i Hia) in Hv. by injection Hv as <-.
Qed.

End Mapping.

(** ** Where well-formed collections and views come from *)

Section Reachable.
Context {Expr : Type} `{!EqDecision Expr}.
Local Abbreviation M := (M Expr).
Local Abbreviation pyval := (pyval Expr).
Implicit Types (h : heap Expr) (c v : loc) (dict : gmap string pyval).
Implicit Types (names : list string) (fields : gmap string pyval).

(** The constructor of [LabeledCollection], given plain names and keywords
    among them, returns a well-formed collection that holds the supplied
    values and [None] elsewhere. *)
Lemma new_schema h names fields :
  Forall (λ name, plain_name name = true) names →
  (∀ k, is_Some (fields !! k) → k ∈ names) →
  ∃ h',
    LabeledCollection.new names fields h = (h', Ok (length h))
    ∧ schema_of h' (length h) = Some (LabeledCollection_cls, names, false)
    ∧ ∀ name, name ∈ names →
        slot h' (length h) name = Some (default PyNone (fields !! name)).
Proof.
  intros Hp Hkeys. eexists. split; [by apply new_ok|]. split.
  - apply schema_of_unfold. eexists.
    apply collection_at_init; [apply heap_lookup_fresh|done..].
  - intros name Hin. unfold slot. rewrite heap_lookup_fresh.
    by apply init_dict_field.
Qed.

(** The constructor of [CollectionPG] returns a well-formed, locked
    collection over the 21 names. *)
Lemma pg_new_schema h fields :
  (∀ k, is_Some (fields !! k) → k ∈ pg_field_names) →
  ∃ h',
    CollectionPG.new fields h = (h', Ok (length h))
    ∧ schema_of h' (length h) = Some (CollectionPG_cls, pg_field_names, true).
Proof.
  intros Hkeys. eexists. split; [by apply pg_new_ok|].
  apply schema_of_unfold. eexists. apply collection_at_pg_new.
Qed.

(** An assignment to a field keeps the schema. *)
Lemma setitem_schema h c cls names locked name x :
  schema_of h c = Some (cls, names, locked) →
  name ∈ names →
  ∃ h',
    LabeledCollection.__setitem__ c (KStr name) x h = (h', Ok tt)
    ∧ schema_of h' c = Some (cls, names, locked)
    ∧ slot h' c name = Some x.
Proof.
  intros [dict Hca]%schema_of_unfold Hin.
  destruct (collection_at_field _ _ _ _ _ _ _ Hca Hin) as [Hplain _].
  pose proof (collection_at_store _ _ _ _ _ _ _ x Hca Hplain) as Hca'.
  eexists. split; [by eapply setitem_by_name_ok|]. split.
  - apply schema_of_unfold. by eexists.
  - erewrite slot_collection_at by done. apply lookup_insert_eq.
Qed.

(** [_extract_subset] allocates a view of the receiver over the range. *)
Lemma extract_subset_view h c cls names locked start stop :
  schema_of h c = Some (cls, names, locked) →
  ∃ s,
    _extract_subset c start stop h = (h ++ [View s], Ok (length h))
    ∧ base_collection s = c
    ∧ _sub_names s = py_slice names start stop
    ∧ n_fields s = Z.of_nat (length (_sub_names s))
    ∧ schema_of (h ++ [View s]) c = Some (cls, names, locked).
Proof.
  intros [dict Hca]%schema_of_unfold. eexists. split; [|split; [|split; [|split]]].
  - unfold _extract_subset, LabeledSubCollection.new.
    mstep int_of_n_fields. mstep names_of_field_names. reflexivity.
  - done.
  - done.
  - done.
  - apply schema_of_unfold. eexists. by apply collection_at_alloc.
Qed.

End Reachable.

(** ** Iteration with names *)

Section Iteration.
Context {Expr : Type} `{!EqDecision Expr}.
Local Abbreviation M := (M Expr).
Local Abbreviation pyval := (pyval Expr).
Implicit Types (h : heap Expr) (c v : loc) (dict : gmap string pyval).
Implicit Types (names : list string).
Import LabeledCollection.

Lemma next_loop_yields depth c h h' y :
  next_step depth c h = (h', Ok (Some y)) → next_loop depth c h = (h', Ok y).
Proof. intros Hs. destruct depth; cbn [next_loop]; by rewrite (bind_ok _ _ _ _ _ Hs). Qed.

Lemma next_loop_raises depth c h h' e :
  next_step depth c h = (h', Raise e) → next_loop depth c h = (h', Raise e).
Proof. intros Hs. destruct depth; cbn [next_loop]; by rewrite (bind_raise _ _ _ _ _ Hs). Qed.

(** With [iter_name] set and no filter, the step at cursor [i] yields the
    value of field [i] under the name of field [i + 1], and raises
    [IndexError] when field [i] is the last one: the name is looked up after
    the cursor has moved.  The step nests the two calls that read the
    item. *)
Lemma next_names_the_following_field h c cls names locked dict (i : nat)
    name val (frames : nat) :
  2 ≤ frames →
  collection_at h c cls names locked dict →
  dict !! "_iter_name" = Some (PyBool true) →
  dict !! "_iter_filter" = Some (PyBool false) →
  dict !! "n_iter" = Some (PyInt (Z.of_nat i)) →
  names !! i = Some name →
  dict !! name = Some val →
  __next__ frames c h
  = (<[c := Collection cls (<["n_iter" := PyInt (Z.of_nat i + 1)]> dict)]> h,
     match names !! S i with
     | Some following => Ok (Named following val)
     | None => Raise IndexError
     end).
Proof.
  intros Hframes Hca Hname Hfilter Hiter Hi Hval. ca_open Hca.
  destruct frames as [|[|frames]]; [lia..|].
  apply lookup_lt_Some in Hi as Hlt. apply py_index_of_nat in Hi as Hidx.
  assert (int_of c "n_iter" h = (h, Ok (Z.of_nat i))) as Hni.
  { unfold int_of. by mstep getattr_dict. }
  set (dict' := <["n_iter" := PyInt (Z.of_nat i + 1)]> dict).
  set (h' := <[c := Collection cls dict']> h).
  assert (h' !! c = Some (Collection cls dict')) as Hobj'.
  { apply heap_lookup_update. by rewrite Hobj. }
  assert (next_step (S (S frames)) c h
          = (h', match names !! S i with
                 | Some following => Ok (Some (Named following val))
                 | None => Raise IndexError
                 end)) as Hstep.
  { unfold next_step. rewrite (bind_ok _ _ _ _ _ Hni). cbn beta.
    mstep int_of_n_fields.
    assert ((Z.of_nat i <? Z.of_nat (length names))%Z = true) as ->
      by (apply Z.ltb_lt; lia).
    cbn [_getitem_by_idx_within].
    mstep getitem_by_idx_ok. rewrite (bind_ok _ _ _ _ _ Hni). cbn beta.
    erewrite bind_ok; [|eapply setattr_ok; [done..|right; by eexists]].
    cbn beta. fold dict' h'.
    erewrite bind_ok; [|eapply getattr_dict; [done|done|]];
      [|unfold dict'; by rewrite lookup_insert_ne].
    cbn beta. cbn [truthy andb].
    erewrite bind_ok; [|eapply getattr_dict; [done|done|]];
      [|unfold dict'; by rewrite lookup_insert_ne].
    cbn beta. cbn [truthy].
    erewrite bind_ok; [|eapply names_of_ok; [done|done|]];
      [|unfold dict'; by rewrite lookup_insert_ne].
    cbn beta.
    erewrite bind_ok; [|unfold int_of; erewrite bind_ok;
      [|eapply getattr_dict; [done|done|apply lookup_insert_eq]]; done].
    cbn beta. unfold index_names, py_index.
    replace (Z.of_nat i + 1)%Z with (Z.of_nat (S i)) by lia.
    destruct (names !! S i) as [following|] eqn:Hnext.
    - apply lookup_lt_Some in Hnext as Hlt'.
      rewrite decide_True by lia. by rewrite Nat2Z.id, Hnext.
    - apply lookup_ge_None in Hnext.
      rewrite decide_False by lia. rewrite decide_False by lia. done. }
  unfold __next__.
  destruct (names !! S i);
    [by apply next_loop_yields|by apply next_loop_raises].
Qed.

Lemma view_next_loop_raises depth v h h' e :
  LabeledSubCollection.next_step depth v h = (h', Raise e) →
  LabeledSubCollection.next_loop depth v h = (h', Raise e).
Proof.
  intros Hs. destruct depth; cbn [LabeledSubCollection.next_loop];
    by rewrite (bind_raise _ _ _ _ _ Hs).
Qed.

(** On a view with [iter_name] set, a step that has a value to yield raises
    [AttributeError]: it reads [self._field_names]. *)
Lemma view_next_with_name_raises h v s cls names locked dict (i : nat)
    name val (frames : nat) :
  2 ≤ frames →
  h !! v = Some (View s) →
  collection_at h (base_collection s) cls names locked dict →
  _iter_name s = true →
  n_iter s = Some (Z.of_nat i) →
  (Z.of_nat i < n_fields s)%Z →
  _sub_names s !! i = Some name →
  name ∈ names →
  dict !! name = Some val →
  _iter_filter s = false ∨ val ≠ PyNone →
  ∃ h', LabeledSubCollection.__next__ frames v h = (h', Raise AttributeError).
Proof.
  intros Hframes Hv Hca Hname Hiter Hlt Hi Hin Hval Hfilter.
  destruct frames as [|[|frames]]; [lia..|].
  apply py_index_of_nat in Hi as Hidx.
  assert (LabeledSubCollection.get_n_iter v h = (h, Ok (Z.of_nat i))) as Hni.
  { unfold LabeledSubCollection.get_n_iter. mstep view_of_ok. by rewrite Hiter. }
  set (s' := {| base_collection := base_collection s;
                _sub_names := _sub_names s; _sub_idx := _sub_idx s;
                n_fields := n_fields s; _iter_name := _iter_name s;
                _iter_filter := _iter_filter s;
                n_iter := Some (Z.of_nat i + 1)%Z |}).
  set (h' := <[v := View s']> h).
  assert (h' !! v = Some (View s')) as Hv'.
  { apply heap_lookup_update. by rewrite Hv. }
  assert (LabeledSubCollection.next_step (S (S frames)) v h
          = (h', Raise AttributeError))
    as Hstep.
  { unfold LabeledSubCollection.next_step.
    rewrite (bind_ok _ _ _ _ _ Hni). cbn beta. mstep view_of_ok.
    assert ((Z.of_nat i <? n_fields s)%Z = true) as -> by (by apply Z.ltb_lt).
    cbn [LabeledSubCollection._getitem_by_idx_within].
    erewrite bind_ok;
      [|erewrite view_getitem_by_idx by done; by eapply getitem_by_name_ok].
    cbn beta. rewrite (bind_ok _ _ _ _ _ Hni). cbn beta.
    erewrite bind_ok;
      [|unfold LabeledSubCollection.set_n_iter; mstep view_of_ok;
        unfold LabeledSubCollection.put_view; by rewrite Hv].
    cbn beta. fold s' h'. mstep view_of_ok. cbn [_iter_filter _iter_name s'].
    rewrite Hname.
    destruct Hfilter as [->|Hval']; [done|].
    destruct val; try done; by destruct (_iter_filter s). }
  exists h'. unfold LabeledSubCollection.__next__.
  by apply view_next_loop_raises.
Qed.

End Iteration.

(** ** The scenarios, evaluated *)

Section Scenarios.
Import LabeledCollection.

(** C2: with [iter_name] set, a step does not yield the name of the slot whose
    value it yields.  On the collection with fields [a = x1] and [b = x2] the
    first step yields [x1] under the name [b], because the name is read after
    the cursor has advanced, and the second step raises [IndexError] instead
    of yielding [x2]; on a view of the same collection the first step raises
    [AttributeError], because the step reads [_field_names], which a view
    does not have.  Without [iter_name] both yield [x1], then [x2]. *)
Theorem iteration_pairs_value_with_next_name :
  (iterate 0 true 1 ab_heap).2 = Ok [Named "b" (sym "x1")]
  ∧ (iterate 0 true 2 ab_heap).2 = Raise IndexError
  ∧ (iterate_view 2 true 1 ab_heap).2 = Raise AttributeError
  ∧ (iterate 0 false 2 ab_heap).2 = Ok [Bare (sym "x1"); Bare (sym "x2")]
  ∧ (iterate_view 2 false 2 ab_heap).2 = Ok [Bare (sym "x1"); Bare (sym "x2")]
  ∧ (iterate 0 false 3 ab_heap).2 = Raise StopIteration.
Proof. repeat split; vm_compute; reflexivity. Qed.

(** C3 fails as stated: with a source of two fields and a target of one,
    [map_PG_fields] raises [IndexError] instead of returning one entry; and
    with two collections of three fields, where two fields of the source hold
    the same value, it returns two entries, not three. *)
Lemma map_PG_fields_counterexample :
  schema_of ab_heap 0 = Some (LabeledCollection_cls, ["a"; "b"], false)
  ∧ schema_of ab_heap 1 = Some (LabeledCollection_cls, ["p"], false)
  ∧ (map_PG_fields 0 1 ab_heap).2 = Raise IndexError
  ∧ ¬ (∃ d, (map_PG_fields 0 1 ab_heap).2 = Ok d ∧ length d = 2 `min` 1)
  ∧ (map_PG_fields 0 1 uvw_heap).2
    = Ok [(sym "x", sym "t3"); (sym "y", sym "t2")]
  ∧ ¬ (∃ d, (map_PG_fields 0 1 uvw_heap).2 = Ok d ∧ length d = 3 `min` 3).
Proof.
  repeat split; try (vm_compute; reflexivity).
  - intros [d [Hd _]]. vm_compute in Hd. discriminate.
  - intros [d [Hd Hlen]]. vm_compute in Hd. injection Hd as <-. discriminate.
Qed.

(** C5 fails as stated: on two collections with the same names, where a
    value of the source is a list, [map_collection] raises [TypeError]
    instead of returning a dictionary. *)
Lemma map_collection_counterexample :
  schema_of list_heap 0 = Some (LabeledCollection_cls, ["u"; "v"], false)
  ∧ schema_of list_heap 1 = Some (LabeledCollection_cls, ["u"; "v"], false)
  ∧ map_collection 0 1 list_heap = (list_heap, Raise TypeError)
  ∧ ¬ (∃ d, (map_collection 0 1 list_heap).2 = Ok d).
Proof.
  repeat split; try (vm_compute; reflexivity).
  intros [d Hd]. vm_compute in Hd. discriminate.
Qed.

(** Membership in, and distinctness of, a list of literals. *)
Ltac by_decision := apply (bool_decide_unpack _); vm_compute; exact I.

(** Every value of a concrete collection is hashable: one case per name. *)
Ltac hashable_values :=
  let name := fresh "name" in
  let v := fresh "v" in
  let Hin := fresh "Hin" in
  let Hs := fresh "Hs" in
  intros name v Hin Hs;
  repeat (apply elem_of_cons in Hin as [->|Hin];
          [vm_compute in Hs; injection Hs as <-; reflexivity|]);
  by apply elem_of_nil in Hin.

(** The scenario of the design document: a write at index 0 of the moments
    view is read back at [Mss] on the collection. *)
Lemma view_shares_storage_with_base_witness :
  ∃ h', LabeledSubCollection.__setitem__ 1 (KInt 0) (sym "x9") pg_heap
        = (h', Ok tt)
        ∧ __getitem__ 0 (KStr "Mss") h' = (h', Ok (Single (sym "x9"))).
Proof.
  destruct (view_shares_storage_with_base pg_heap 0 CollectionPG_cls
              pg_field_names true 1
              {| base_collection := 0;
                 _sub_names := ["Mss"; "Mpp"; "Msp"; "Msz"; "Mpz"; "zMss";
                                "zMpp"; "zMsp"];
                 _sub_idx := [1; 2; 3; 4; 5; 6; 7; 8]%Z;
                 n_fields := 8;
                 _iter_name := false;
                 _iter_filter := false;
                 n_iter := None |}
              (Some 1%Z) (Some 9%Z) "Mss" (sym "x9"))
    as (h' & _ & _ & _ & Hidx & Hget & _).
  - vm_compute; reflexivity.
  - vm_compute; reflexivity.
  - reflexivity.
  - vm_compute; reflexivity.
  - by_decision.
  - exists h'. split; [|exact Hget]. apply Hidx. vm_compute; reflexivity.
Defined.

Lemma negative_index_counts_from_end_witness :
  (∃ val, __getitem__ 0 (KInt (-1)) ab_heap = (ab_heap, Ok (Single val))
          ∧ __getitem__ 0 (KInt 1) ab_heap = (ab_heap, Ok (Single val)))
  ∧ (∃ val, LabeledSubCollection.__getitem__ 1 (KInt (-8)) pg_heap
            = (pg_heap, Ok (Single val))
            ∧ LabeledSubCollection.__getitem__ 1 (KInt 0) pg_heap
              = (pg_heap, Ok (Single val))).
Proof.
  destruct (negative_index_counts_from_end (Expr := string)) as [Hbase Hview].
  split.
  - destruct (Hbase ab_heap 0 LabeledCollection_cls ["a"; "b"] false (-1)%Z
                PyNone) as (name & val & h' & _ & _ & Hk & Hpos & _).
    + vm_compute; reflexivity.
    + cbn; lia.
    + exists val. split; [exact Hk|exact Hpos].
  - destruct (Hview pg_heap 1
                {| base_collection := 0;
                   _sub_names := ["Mss"; "Mpp"; "Msp"; "Msz"; "Mpz"; "zMss";
                                  "zMpp"; "zMsp"];
                   _sub_idx := [1; 2; 3; 4; 5; 6; 7; 8]%Z;
                   n_fields := 8;
                   _iter_name := false;
                   _iter_filter := false;
                   n_iter := None |}
                CollectionPG_cls pg_field_names true (Some 1%Z) (Some 9%Z)
                (-8)%Z PyNone) as (name & val & h' & _ & _ & Hk & Hpos & _).
    + vm_compute; reflexivity.
    + vm_compute; reflexivity.
    + vm_compute; reflexivity.
    + reflexivity.
    + cbn; lia.
    + exists val. split; [exact Hk|exact Hpos].
Defined.

Lemma unknown_field_key_is_rejected_witness :
  (∃ h', new ["a"; "b"] (<["c" := sym "x"]> ab_fields) [] = (h', Raise TypeError))
  ∧ (∃ h', CollectionPG.new (<["Bogus" := sym "x"]> pg_fields) []
           = (h', Raise TypeError)).
Proof.
  destruct (unknown_field_key_is_rejected (Expr := string)) as [Hlc Hpg].
  split.
  - apply (Hlc [] ["a"; "b"] (<["c" := sym "x"]> ab_fields) "c").
    + vm_compute. eexists. reflexivity.
    + by_decision.
  - apply (Hpg [] (<["Bogus" := sym "x"]> pg_fields) "Bogus").
    + vm_compute. eexists. reflexivity.
    + by_decision.
Defined.

Lemma generated_collection_does_not_alias_witness :
  ∃ h' r,
    generate_collection 0 first_14 pg_heap = (h', Ok r)
    ∧ schema_of h' r
      = Some (LabeledCollection_cls, select first_14 pg_field_names, false)
    ∧ (∀ key x, (__setitem__ r key x h').1 !! 0 = pg_heap !! 0).
Proof.
  destruct (generated_collection_does_not_alias pg_heap 0 CollectionPG_cls
              pg_field_names true first_14)
    as (h' & r & Hgen & _ & _ & Hs & _ & _ & Hframe & _).
  - vm_compute; reflexivity.
  - reflexivity.
  - exists h', r. split; [exact Hgen|]. split; [exact Hs|exact Hframe].
Defined.

Lemma generated_collection_is_unlocked_witness :
  ∃ h1 r,
    generate_collection 0 first_14 pg_heap = (h1, Ok r)
    ∧ (∃ h2, __setattr__ r "extra" (sym "x") h1 = (h2, Ok tt))
    ∧ __setattr__ 0 "extra" (sym "x") h1 = (h1, Raise AttributeError).
Proof.
  destruct (generated_collection_is_unlocked pg_heap 0 first_14)
    as (h1 & r & Hgen & _ & _ & Hadd & Hrej & _).
  - vm_compute; reflexivity.
  - reflexivity.
  - exists h1, r. split; [exact Hgen|]. split.
    + destruct (Hadd "extra" (sym "x")) as [h2 [Hset _]];
        [vm_compute; reflexivity|]. exists h2. exact Hset.
    + apply Hrej. apply (f_equal fst) in Hgen. cbn [fst] in Hgen. subst h1.
      vm_compute; reflexivity.
Defined.

Lemma apply_maps_every_slot_witness :
  (∃ h' r, Virtual.apply 0 prime false false ab_heap = (h', Ok r)
           ∧ __getitem__ r (KInt 0) h' = (h', Ok (Single (sym "x1'")))
           ∧ __getitem__ 0 (KInt 0) h' = (h', Ok (Single (sym "x1"))))
  ∧ (∃ h', Virtual.apply 0 prime true false ab_heap = (h', Ok 0)
           ∧ __getitem__ 0 (KInt 0) h' = (h', Ok (Single (sym "x1'")))).
Proof.
  destruct (apply_maps_every_slot ab_heap 0 LabeledCollection_cls ["a"; "b"]
              false prime false) as [Hnew Hin].
  - vm_compute; reflexivity.
  - split.
    + destruct Hnew as (h' & r & Happ & _ & _ & _ & Hslots).
      destruct (Hslots 0 "a") as (v & Hv & Hc & Hr); [reflexivity|].
      vm_compute in Hv. injection Hv as <-.
      exists h', r. split; [exact Happ|]. split; [exact Hr|exact Hc].
    + destruct Hin as (h' & Happ & _ & Hslots); [by_decision|].
      destruct (Hslots 0 "a") as (v & Hv & Hc); [reflexivity|].
      vm_compute in Hv. injection Hv as <-.
      exists h'. split; [exact Happ|exact Hc].
Defined.

Lemma map_collection_by_name_witness :
  (∃ d, map_collection 0 1 uvw_heap = (uvw_heap, Ok d)
        ∧ dict_get d (sym "x") = Some (sym "t3")
        ∧ dict_get d (sym "y") = Some (sym "t2"))
  ∧ map_collection 0 1 list_heap = (list_heap, Raise TypeError).
Proof.
  split.
  - destruct (map_collection_by_name uvw_heap 0 1 LabeledCollection_cls
                LabeledCollection_cls ["u"; "v"; "w"] ["u"; "v"; "w"]
                false false) as (_ & Hsame & _).
    + vm_compute; reflexivity.
    + vm_compute; reflexivity.
    + destruct Hsame as (d & Hmap & _ & Hlast & _);
        [reflexivity|hashable_values|].
      exists d. split; [exact Hmap|]. split.
      * apply (Hlast 2 "w"); try (vm_compute; reflexivity).
        intros [|[|[|j]]] name' va' Hlt Hj; try lia. discriminate Hj.
      * apply (Hlast 1 "v"); try (vm_compute; reflexivity).
        intros [|[|[|j]]] name' va' Hlt Hj Hva; try lia; [|discriminate Hj].
        vm_compute in Hj. injection Hj as <-.
        vm_compute in Hva. injection Hva as <-. vm_compute; reflexivity.
  - destruct (map_collection_by_name list_heap 0 1 LabeledCollection_cls
                LabeledCollection_cls ["u"; "v"] ["u"; "v"] false false)
      as (_ & _ & Hlist).
    + vm_compute; reflexivity.
    + vm_compute; reflexivity.
    + apply (Hlist eq_refl 1 "v" (PyStrList ["p"; "q"]));
        try (vm_compute; reflexivity).
      intros [|j] name' v' Hlt Hj Hv; [|lia].
      vm_compute in Hj. injection Hj as <-.
      vm_compute in Hv. injection Hv as <-. reflexivity.
Defined.

Lemma map_PG_fields_by_position_witness :
  (∃ d, map_PG_fields 1 0 ab_heap = (ab_heap, Ok d)
        ∧ d = [(sym "y1", sym "x1")])
  ∧ map_PG_fields 0 1 ab_heap = (ab_heap, Raise IndexError)
  ∧ map_PG_fields 0 1 list_heap = (list_heap, Raise TypeError).
Proof.
  split; [|split].
  - destruct (map_PG_fields_by_position ab_heap 1 0 LabeledCollection_cls
                LabeledCollection_cls ["p"] ["a"; "b"] false false)
      as (Hshort & _ & _).
    + vm_compute; reflexivity.
    + vm_compute; reflexivity.
    + destruct Hshort as (d & Hmap & _ & _ & _ & _ & Hd);
        [cbn; lia|hashable_values|].
      exists d. split; [exact Hmap|]. destruct Hd as [-> _].
      * vm_compute. split; [constructor|exact I].
      * vm_compute; reflexivity.
  - destruct (map_PG_fields_by_position ab_heap 0 1 LabeledCollection_cls
                LabeledCollection_cls ["a"; "b"] ["p"] false false)
      as (_ & Hlong & _).
    + vm_compute; reflexivity.
    + vm_compute; reflexivity.
    + apply Hlong; [cbn; lia|].
      intros [|j] v Hlt Hj; [|cbn in Hlt; lia].
      vm_compute in Hj. injection Hj as <-. reflexivity.
  - destruct (map_PG_fields_by_position list_heap 0 1 LabeledCollection_cls
                LabeledCollection_cls ["u"; "v"] ["u"; "v"] false false)
      as (_ & _ & Htype).
    + vm_compute; reflexivity.
    + vm_compute; reflexivity.
    + apply (Htype 1 (PyStrList ["p"; "q"]));
        [cbn; lia|vm_compute; reflexivity|reflexivity|].
      intros [|j] v' Hlt Hj; [|lia].
      vm_compute in Hj. injection Hj as <-. reflexivity.
Defined.

End Scenarios.

(** * Further properties of the code *)

(** ** Construction and access *)

Section Access.
Context {Expr : Type} `{!EqDecision Expr}.
Local Abbreviation M := (M Expr).
Local Abbreviation pyval := (pyval Expr).
Implicit Types (h : heap Expr) (c v : loc) (dict : gmap string pyval).
Implicit Types (names : list string) (fields : gmap string pyval).
Import LabeledCollection.

Lemma len_ok h c cls names locked dict :
  collection_at h c cls names locked dict →
  __len__ c h = (h, Ok (PyInt (Z.of_nat (length names)))).
Proof. intros Hca. ca_open Hca. unfold __len__. by eapply getattr_dict. Qed.

Lemma getitem_name_ok h c cls names locked dict name val :
  collection_at h c cls names locked dict →
  name ∈ names →
  dict !! name = Some val →
  __getitem__ c (KStr name) h = (h, Ok (Single val)).
Proof.
  intros Hca Hin Hv. cbn [__getitem__]. by mstep getitem_by_name_ok.
Qed.

Lemma getitem_idx_ok h c cls names locked dict idx name val :
  collection_at h c cls names locked dict →
  py_index names idx = Some name →
  dict !! name = Some val →
  __getitem__ c (KInt idx) h = (h, Ok (Single val)).
Proof.
  intros Hca Hi Hv. cbn [__getitem__]. by mstep getitem_by_idx_ok.
Qed.

(** X1: the constructor of [LabeledCollection], called with names that are
    plain and keywords that are among them, allocates a new, unlocked
    collection over exactly these names and leaves the objects of the heap as
    they are.  Its length is the number of names, and reading a name returns
    the value supplied for it, or [None] when none was supplied. *)
Theorem new_collection_holds_fields h names fields :
  Forall (λ name, plain_name name = true) names →
  (∀ k, is_Some (fields !! k) → k ∈ names) →
  ∃ h' c,
    new names fields h = (h', Ok c)
    ∧ h !! c = None
    ∧ (∀ c', is_Some (h !! c') → h' !! c' = h !! c')
    ∧ schema_of h' c = Some (LabeledCollection_cls, names, false)
    ∧ __len__ c h' = (h', Ok (PyInt (Z.of_nat (length names))))
    ∧ (∀ name, name ∈ names →
         __getitem__ c (KStr name) h'
         = (h', Ok (Single (default PyNone (fields !! name))))).
Proof.
  intros Hp Hkeys.
  set (dict := init_dict names fields).
  set (h' := h ++ [Collection LabeledCollection_cls dict]).
  assert (collection_at h' (length h) LabeledCollection_cls names false dict)
    as Hca.
  { apply collection_at_init; [apply heap_lookup_fresh|done..]. }
  exists h', (length h). split; [by apply new_ok|]. split; [|split; [|split; [|split]]].
  - by apply lookup_ge_None_2.
  - intros c' [o Hc']. unfold h'. by erewrite lookup_app_l_Some.
  - apply schema_of_unfold. by eexists.
  - by eapply len_ok.
  - intros name Hin. eapply getitem_name_ok; [done..|].
    by apply init_dict_field.
Qed.

(** X2: the constructor of [CollectionPG], called with keywords among the 21
    names, allocates a new collection of class [CollectionPG] over the 21
    names that is locked from the start; reading a name returns the value
    supplied for it, or [None], and an attribute that is not there yet can no
    longer be created. *)
Theorem new_pg_collection_is_locked h fields :
  (∀ k, is_Some (fields !! k) → k ∈ pg_field_names) →
  ∃ h' c,
    CollectionPG.new fields h = (h', Ok c)
    ∧ h !! c = None
    ∧ (∀ c', is_Some (h !! c') → h' !! c' = h !! c')
    ∧ schema_of h' c = Some (CollectionPG_cls, pg_field_names, true)
    ∧ __len__ c h' = (h', Ok (PyInt 21))
    ∧ (∀ name, name ∈ pg_field_names →
         __getitem__ c (KStr name) h'
         = (h', Ok (Single (default PyNone (fields !! name)))))
    ∧ (∀ name x, plain_name name = true → name ∉ pg_field_names →
         __setattr__ c name x h' = (h', Raise AttributeError)).
Proof.
  intros Hkeys.
  set (dict := <["_is_locked" := PyBool true]> (init_dict pg_field_names fields)).
  set (h' := h ++ [Collection CollectionPG_cls dict]).
  pose proof (collection_at_pg_new h fields) as Hca. fold dict h' in Hca.
  exists h', (length h).
  split; [by apply pg_new_ok|]. split; [|split; [|split; [|split; [|split]]]].
  - by apply lookup_ge_None_2.
  - intros c' [o Hc']. unfold h'. by erewrite lookup_app_l_Some.
  - apply schema_of_unfold. by eexists.
  - by eapply (len_ok _ _ _ pg_field_names).
  - intros name Hin. eapply getitem_name_ok; [done..|].
    unfold dict. rewrite lookup_insert_ne.
    + apply init_dict_field; [apply pg_field_names_plain|done].
    + pose proof (pg_field_names_plain) as Hpl. rewrite Forall_forall in Hpl.
      eapply not_eq_sym, plain_name_not_reserved;
        [by apply Hpl|by apply (bool_decide_unpack _)].
  - intros name x Hp Hnot.
    eapply setattr_reject; [apply Hca..| | |].
    + by apply plain_name_property_slot.
    + unfold dict. rewrite lookup_insert_ne.
      * apply init_dict_absent; [done|]. intros Hb.
        destruct (plain_name_not_reserved name name Hp); [|done].
        unfold reserved_names. apply elem_of_app. by left.
      * apply not_eq_sym. eapply plain_name_not_reserved; [done|].
        by apply (bool_decide_unpack _).
    + by apply plain_name_not_member.
Qed.

(** X3: [vorticity()] is the field [Psi]: on every [CollectionPG] it returns
    what [self["Psi"]] and [self[0]] return, also after [Psi] has been
    assigned. *)
Theorem vorticity_is_psi h c locked :
  schema_of h c = Some (CollectionPG_cls, pg_field_names, locked) →
  ∃ val,
    CollectionPG.vorticity c h = (h, Ok val)
    ∧ __getitem__ c (KStr "Psi") h = (h, Ok (Single val))
    ∧ __getitem__ c (KInt 0) h = (h, Ok (Single val))
    ∧ ∀ x, ∃ h',
        __setitem__ c (KStr "Psi") x h = (h', Ok tt)
        ∧ CollectionPG.vorticity c h' = (h', Ok x).
Proof.
  intros [dict Hca]%schema_of_unfold.
  assert ("Psi" ∈ pg_field_names) as Hin by (by apply (bool_decide_unpack _)).
  destruct (collection_at_field _ _ _ _ _ _ _ Hca Hin) as [Hplain [val Hval]].
  exists val. split; [|split; [|split]].
  - unfold CollectionPG.vorticity. eapply getattr_dict; [apply Hca|done..].
  - by eapply getitem_name_ok.
  - by eapply getitem_idx_ok.
  - intros x. eexists. split.
    + cbn [__setitem__]. by eapply setitem_by_name_ok.
    + unfold CollectionPG.vorticity.
      eapply getattr_dict;
        [apply heap_lookup_update; by rewrite (ca_obj _ _ _ _ _ _ Hca)
        |done|apply lookup_insert_eq].
Qed.

(** X4: a key outside the schema is an error and changes nothing.  A name
    that is not a field raises [KeyError] on reading and on writing, even
    when it is an attribute of the object such as [n_fields]; an integer
    below [-n] or from [n] on raises [IndexError]. *)
Theorem access_outside_schema_fails h c cls names locked :
  schema_of h c = Some (cls, names, locked) →
  (∀ name x, name ∉ names →
     __getitem__ c (KStr name) h = (h, Raise KeyError)
     ∧ __setitem__ c (KStr name) x h = (h, Raise KeyError))
  ∧ (∀ (i : Z) x,
       (i < - Z.of_nat (length names) ∨ Z.of_nat (length names) ≤ i)%Z →
       __getitem__ c (KInt i) h = (h, Raise IndexError)
       ∧ __setitem__ c (KInt i) x h = (h, Raise IndexError)).
Proof.
  intros [dict Hca]%schema_of_unfold. split.
  - intros name x Hnot. split.
    + cbn [__getitem__]. erewrite bind_raise; [done|].
      by eapply getitem_by_name_missing.
    + cbn [__setitem__]. by eapply setitem_by_name_missing.
  - intros i x Hi.
    assert (py_index names i = None) as Hidx.
    { unfold py_index. rewrite decide_False by lia.
      by rewrite decide_False by lia. }
    split.
    + cbn [__getitem__]. erewrite bind_raise; [done|].
      unfold _getitem_by_idx. mstep names_of_field_names.
      unfold index_names. by rewrite Hidx.
    + cbn [__setitem__]. unfold _setitem_by_idx.
      mstep names_of_field_names. unfold index_names. by rewrite Hidx.
Qed.

(** X5: writing a field and reading it back.  On a collection, locked or
    not, [self[name] = x] for a field [name] succeeds and keeps the schema;
    afterwards [self[name]] is [x], every other field reads as before, and no
    other object of the heap has changed. *)
Theorem setitem_then_getitem h c cls names locked name x :
  schema_of h c = Some (cls, names, locked) →
  name ∈ names →
  ∃ h',
    __setitem__ c (KStr name) x h = (h', Ok tt)
    ∧ schema_of h' c = Some (cls, names, locked)
    ∧ __getitem__ c (KStr name) h' = (h', Ok (Single x))
    ∧ (∀ other, other ∈ names → other ≠ name →
         ∃ val, __getitem__ c (KStr other) h = (h, Ok (Single val))
                ∧ __getitem__ c (KStr other) h' = (h', Ok (Single val)))
    ∧ (∀ c', c' ≠ c → h' !! c' = h !! c').
Proof.
  intros [dict Hca]%schema_of_unfold Hin.
  destruct (collection_at_field _ _ _ _ _ _ _ Hca Hin) as [Hplain _].
  pose proof (collection_at_store _ _ _ _ _ _ _ x Hca Hplain) as Hca'.
  eexists. split; [|split; [|split; [|split]]].
  - cbn [__setitem__]. by eapply setitem_by_name_ok.
  - apply schema_of_unfold. by eexists.
  - eapply getitem_name_ok; [done..|]. apply lookup_insert_eq.
  - intros other Hother Hne.
    destruct (collection_at_field _ _ _ _ _ _ _ Hca Hother) as [_ [val Hval]].
    exists val. split; [by eapply getitem_name_ok|].
    eapply getitem_name_ok; [done..|]. by rewrite lookup_insert_ne.
  - intros c' Hne. by apply heap_lookup_frame.
Qed.

(** X6: the three ways to reach a field agree.  For the field [name] at
    position [i], reading by index, by name and as an attribute return the
    same value, and writing by index, by name and as an attribute are the
    same update. *)
Theorem index_name_attribute_agree h c cls names locked (i : nat) name :
  schema_of h c = Some (cls, names, locked) →
  names !! i = Some name →
  (∃ val,
     __getitem__ c (KInt (Z.of_nat i)) h = (h, Ok (Single val))
     ∧ __getitem__ c (KStr name) h = (h, Ok (Single val))
     ∧ getattr c name h = (h, Ok val))
  ∧ ∀ x, ∃ h',
      __setitem__ c (KInt (Z.of_nat i)) x h = (h', Ok tt)
      ∧ __setitem__ c (KStr name) x h = (h', Ok tt)
      ∧ __setattr__ c name x h = (h', Ok tt).
Proof.
  intros [dict Hca]%schema_of_unfold Hi.
  apply py_index_of_nat in Hi as Hidx.
  assert (name ∈ names) as Hin by (by eapply list_elem_of_lookup_2).
  destruct (collection_at_field _ _ _ _ _ _ _ Hca Hin) as [Hplain [val Hval]].
  apply plain_name_property_slot in Hplain as Hslot. split.
  - exists val. split; [by eapply getitem_idx_ok|].
    split; [by eapply getitem_name_ok|].
    eapply getattr_dict; [apply Hca|done..].
  - intros x. eexists. split; [|split].
    + cbn [__setitem__]. by eapply setitem_by_idx_ok.
    + cbn [__setitem__]. by eapply setitem_by_name_ok.
    + eapply setattr_ok; [apply Hca..|done|right; by eexists].
Qed.

End Access.

(** ** Iterating over the values *)

Section IterationOrder.
Context {Expr : Type} `{!EqDecision Expr}.
Local Abbreviation M := (M Expr).
Local Abbreviation pyval := (pyval Expr).
Implicit Types (h : heap Expr) (c v : loc) (dict : gmap string pyval).
Implicit Types (names : list string).
Import LabeledCollection.



(** The iteration of a collection is followed through the heaps that differ
    from a given one in the cursor [n_iter] only. *)
Section Cursor.
Variables (h0 : heap Expr) (c : loc) (cls : pyclass) (names : list string).
Variables (locked flt : bool) (dict0 : gmap string pyval).
Hypothesis Hca0 : collection_at h0 c cls names locked dict0.
Hypothesis Hname0 : dict0 !! "_iter_name" = Some (PyBool false).
Hypothesis Hfilter0 : dict0 !! "_iter_filter" = Some (PyBool flt).












End Cursor.


End IterationOrder.

(** ** Iterating over a view *)

Section ViewIteration.
Context {Expr : Type} `{!EqDecision Expr}.
Local Abbreviation M := (M Expr).
Local Abbreviation pyval := (pyval Expr).
Implicit Types (h : heap Expr) (c v : loc) (dict : gmap string pyval).
Implicit Types (names : list string) (s : subcollection).


Section Cursor.
Variables (h0 : heap Expr) (v : loc) (s0 : subcollection).
Variables (cls : pyclass) (names : list string) (locked : bool).
Variable (dict : gmap string pyval).
Hypothesis Hv0 : h0 !! v = Some (View s0).
Hypothesis Hbase0 : collection_at h0 (base_collection s0) cls names locked dict.
Hypothesis Hsub0 : ∀ name, name ∈ _sub_names s0 → name ∈ names.
Hypothesis Hn0 : n_fields s0 = Z.of_nat (length (_sub_names s0)).
Hypothesis Hname0 : _iter_name s0 = false.













End Cursor.


(** X9: a view has no cursor until [iter] is called on it.  On the view
    [_extract_subset] returns, [next] raises [AttributeError] and changes
    nothing, because [__init__] does not create [n_iter]; [iter] then
    succeeds and returns the view itself. *)
Theorem fresh_view_has_no_cursor h c cls names locked start stop :
  schema_of h c = Some (cls, names, locked) →
  ∃ h1 v,
    _extract_subset c start stop h = (h1, Ok v)
    ∧ (∀ frames,
         LabeledSubCollection.__next__ frames v h1
         = (h1, Raise AttributeError))
    ∧ ∃ h2, LabeledSubCollection.__iter__ v h1 = (h2, Ok v)
            ∧ LabeledSubCollection.get_n_iter v h2 = (h2, Ok 0%Z).
Proof.
  intros [dict Hca]%schema_of_unfold.
  eexists _, (length h). split; [|split].
  - unfold _extract_subset, LabeledSubCollection.new.
    mstep int_of_n_fields. mstep names_of_field_names. reflexivity.
  - intros frames. unfold LabeledSubCollection.__next__.
    apply view_next_loop_raises.
    unfold LabeledSubCollection.next_step, LabeledSubCollection.get_n_iter.
    erewrite bind_raise; [done|].
    erewrite bind_ok; [|apply view_of_ok, heap_lookup_fresh]. done.
  - eexists. split.
    + unfold LabeledSubCollection.__iter__, LabeledSubCollection.set_n_iter.
      erewrite bind_ok; [done|].
      erewrite bind_ok; [|apply view_of_ok, heap_lookup_fresh]. cbn beta.
      unfold LabeledSubCollection.put_view. by rewrite heap_lookup_fresh.
    + unfold LabeledSubCollection.get_n_iter.
      erewrite bind_ok; [|apply view_of_ok; rewrite heap_update_fresh;
                          apply heap_lookup_fresh].
      done.
Qed.

End ViewIteration.

(** ** Slices, views and their limits *)

Section Ranges.
Context {Expr : Type} `{!EqDecision Expr}.
Local Abbreviation M := (M Expr).
Local Abbreviation pyval := (pyval Expr).
Implicit Types (h : heap Expr) (c v : loc) (dict : gmap string pyval).
Implicit Types (names : list string) (s : subcollection).

Lemma py_slice_all {A} (l : list A) : py_slice l None None = l.
Proof.
  unfold py_slice, slice_bound. rewrite Z.sub_0_r, Nat2Z.id. cbn [Z.to_nat].
  rewrite drop_0. by apply take_ge.
Qed.

(** Position [k] of a slice is position [a + k] of the list, for the start
    [a] the bounds give. *)
Lemma py_slice_lookup {A} (l : list A) start stop (k : nat) (x : A) :
  py_slice l start stop !! k = Some x →
  l !! (Z.to_nat (slice_bound (Z.of_nat (length l)) 0 start) + k) = Some x
  ∧ k < Z.to_nat (slice_bound (Z.of_nat (length l)) (Z.of_nat (length l)) stop
                  - slice_bound (Z.of_nat (length l)) 0 start).
Proof.
  unfold py_slice. intros [Hk Hlt]%lookup_take_Some.
  by rewrite lookup_drop in Hk.
Qed.

Lemma py_slice_lookup_lt {A} (l : list A) start stop (k : nat) :
  k < Z.to_nat (slice_bound (Z.of_nat (length l)) (Z.of_nat (length l)) stop
                - slice_bound (Z.of_nat (length l)) 0 start) →
  py_slice l start stop !! k
  = l !! (Z.to_nat (slice_bound (Z.of_nat (length l)) 0 start) + k).
Proof.
  intros Hlt. unfold py_slice. rewrite lookup_take_lt by done.
  by rewrite lookup_drop.
Qed.

Lemma values_along_dict h c cls names locked dict (l : list string) :
  collection_at h c cls names locked dict →
  values_along h c l = (λ name, default PyNone (dict !! name)) <$> l.
Proof.
  intros Hca. unfold values_along. apply list_fmap_ext. intros i name _.
  by erewrite slot_collection_at.
Qed.

Lemma read_names_ok h c cls names locked dict (l : list string) :
  collection_at h c cls names locked dict →
  (∀ name, name ∈ l → name ∈ names) →
  list_comp l (λ name,
    val <- LabeledCollection._getitem_by_name c name;; ret (Some val)) h
  = (h, Ok (values_along h c l)).
Proof.
  intros Hca Hl. erewrite values_along_dict by done.
  apply list_comp_map. intros name Hin.
  destruct (collection_at_field _ _ _ _ _ _ _ Hca (Hl _ Hin)) as [_ [val Hval]].
  erewrite bind_ok;
    [|eapply getitem_by_name_ok; [exact Hca|by apply Hl|exact Hval]].
  cbn beta. by rewrite Hval.
Qed.

(** X10: reading a slice never fails.  [self[start:stop]] returns the values
    of the names in that range of the schema, in schema order, whatever the
    bounds are (they are clamped as Python clamps them); each of them is what
    reading the name returns, and [self[:]] returns every value. *)
Theorem getitem_slice_reads_range h c cls names locked start stop :
  schema_of h c = Some (cls, names, locked) →
  LabeledCollection.__getitem__ c (KSlice start stop) h
  = (h, Ok (Many (values_along h c (py_slice names start stop))))
  ∧ LabeledCollection.__getitem__ c (KSlice None None) h
    = (h, Ok (Many (values_along h c names)))
  ∧ length (values_along h c (py_slice names start stop)) ≤ length names
  ∧ ∀ (k : nat) name,
      py_slice names start stop !! k = Some name →
      ∃ val,
        values_along h c (py_slice names start stop) !! k = Some val
        ∧ LabeledCollection.__getitem__ c (KStr name) h = (h, Ok (Single val)).
Proof.
  intros [dict Hca]%schema_of_unfold.
  assert (∀ start stop,
    LabeledCollection.__getitem__ c (KSlice start stop) h
    = (h, Ok (Many (values_along h c (py_slice names start stop))))) as Hslice.
  { intros a b. cbn [LabeledCollection.__getitem__].
    erewrite bind_ok; [done|]. unfold LabeledCollection._getitem_by_slice.
    mstep names_of_field_names. eapply read_names_ok; [done|].
    intros name. apply py_slice_subseteq. }
  split; [apply Hslice|]. split; [|split].
  - pose proof (Hslice None None) as Hall. by rewrite py_slice_all in Hall.
  - unfold values_along, py_slice. rewrite length_fmap, length_take, length_drop.
    lia.
  - intros k name Hk.
    assert (name ∈ names) as Hin.
    { eapply py_slice_subseteq. by eapply list_elem_of_lookup_2. }
    destruct (collection_at_field _ _ _ _ _ _ _ Hca Hin) as [_ [val Hval]].
    exists val. split.
    + erewrite values_along_dict by done.
      by rewrite list_lookup_fmap, Hk; cbn; rewrite Hval.
    + by eapply getitem_name_ok.
Qed.

(** X11: a view answers for its own names only.  A name outside the view
    raises [KeyError] on reading and on writing through the view, even when
    the base has a field of that name, and an integer outside the view's own
    range raises [IndexError]; neither changes anything. *)
Theorem view_access_outside_view_fails h v s :
  h !! v = Some (View s) →
  (∀ name x, name ∉ _sub_names s →
     LabeledSubCollection.__getitem__ v (KStr name) h = (h, Raise KeyError)
     ∧ LabeledSubCollection.__setitem__ v (KStr name) x h
       = (h, Raise KeyError))
  ∧ (∀ (i : Z) x,
       (i < - Z.of_nat (length (_sub_names s))
        ∨ Z.of_nat (length (_sub_names s)) ≤ i)%Z →
       LabeledSubCollection.__getitem__ v (KInt i) h = (h, Raise IndexError)
       ∧ LabeledSubCollection.__setitem__ v (KInt i) x h
         = (h, Raise IndexError)).
Proof.
  intros Hv. split.
  - intros name x Hnot. split.
    + cbn [LabeledSubCollection.__getitem__]. erewrite bind_raise; [done|].
      unfold LabeledSubCollection._getitem_by_name.
      mstep view_of_ok. by rewrite decide_False.
    + cbn [LabeledSubCollection.__setitem__].
      unfold LabeledSubCollection._setitem_by_name.
      mstep view_of_ok. by rewrite decide_False.
  - intros i x Hi.
    assert (py_index (_sub_names s) i = None) as Hidx.
    { unfold py_index. rewrite decide_False by lia.
      by rewrite decide_False by lia. }
    split.
    + cbn [LabeledSubCollection.__getitem__]. erewrite bind_raise; [done|].
      unfold LabeledSubCollection._getitem_by_idx.
      mstep view_of_ok. unfold index_names. by rewrite Hidx.
    + cbn [LabeledSubCollection.__setitem__].
      unfold LabeledSubCollection._setitem_by_idx.
      mstep view_of_ok. unfold index_names. by rewrite Hidx.
Qed.

(** X12: reading a slice of a view returns the base's values at the names in
    that range of the view, in the order of the view. *)
Theorem view_slice_reads_base_values h v s cls names locked
    start stop start' stop' :
  h !! v = Some (View s) →
  schema_of h (base_collection s) = Some (cls, names, locked) →
  _sub_names s = py_slice names start stop →
  LabeledSubCollection.__getitem__ v (KSlice start' stop') h
  = (h, Ok (Many (values_along h (base_collection s)
                    (py_slice (_sub_names s) start' stop'))))
  ∧ ∀ (k : nat) name,
      py_slice (_sub_names s) start' stop' !! k = Some name →
      ∃ val,
        values_along h (base_collection s)
          (py_slice (_sub_names s) start' stop') !! k = Some val
        ∧ LabeledCollection.__getitem__ (base_collection s) (KStr name) h
          = (h, Ok (Single val)).
Proof.
  intros Hv [dict Hca]%schema_of_unfold Hsub.
  assert (∀ name, name ∈ py_slice (_sub_names s) start' stop' → name ∈ names)
    as Hin.
  { intros name Hname%py_slice_subseteq. rewrite Hsub in Hname.
    by eapply py_slice_subseteq. }
  split.
  - cbn [LabeledSubCollection.__getitem__]. erewrite bind_ok; [done|].
    unfold LabeledSubCollection._getitem_by_slice.
    mstep view_of_ok. by eapply read_names_ok.
  - intros k name Hk.
    assert (name ∈ names) as Hname.
    { apply Hin. by eapply list_elem_of_lookup_2. }
    destruct (collection_at_field _ _ _ _ _ _ _ Hca Hname) as [_ [val Hval]].
    exists val. split.
    + erewrite values_along_dict by done.
      by rewrite list_lookup_fmap, Hk; cbn; rewrite Hval.
    + by eapply getitem_name_ok.
Qed.

(** X13: the two lists a view captures are aligned.  In the view
    [_extract_subset] returns, [_sub_idx] and [_sub_names] have the length
    [n_fields]; position [j] of [_sub_idx] is the position in the base of
    the name at position [j] of [_sub_names], and reading the view at [j]
    is reading the base at that index. *)
Theorem view_indices_match_names h c cls names locked start stop :
  schema_of h c = Some (cls, names, locked) →
  ∃ h1 v s,
    _extract_subset c start stop h = (h1, Ok v)
    ∧ h1 !! v = Some (View s)
    ∧ base_collection s = c
    ∧ _sub_names s = py_slice names start stop
    ∧ n_fields s = Z.of_nat (length (_sub_names s))
    ∧ length (_sub_idx s) = length (_sub_names s)
    ∧ ∀ (j : nat) name,
        _sub_names s !! j = Some name →
        ∃ (i : nat) val,
          _sub_idx s !! j = Some (Z.of_nat i)
          ∧ names !! i = Some name
          ∧ LabeledSubCollection.__getitem__ v (KInt (Z.of_nat j)) h1
            = (h1, Ok (Single val))
          ∧ LabeledCollection.__getitem__ c (KInt (Z.of_nat i)) h1
            = (h1, Ok (Single val)).
Proof.
  intros [dict Hca]%schema_of_unfold.
  set (s := {| base_collection := c;
               _sub_names := py_slice names start stop;
               _sub_idx := py_slice (py_range (Z.of_nat (length names)))
                             start stop;
               n_fields := Z.of_nat (length (py_slice names start stop));
               _iter_name := false; _iter_filter := false;
               n_iter := None |}).
  assert (length (py_range (Z.of_nat (length names))) = length names) as Hlen.
  { unfold py_range. rewrite length_seqZ. lia. }
  pose proof (collection_at_alloc _ _ _ _ _ _ (View s) Hca) as Hca1.
  exists (h ++ [View s]), (length h), s.
  split; [|split; [|split; [|split; [|split; [|split]]]]]; try done.
  - unfold _extract_subset, LabeledSubCollection.new.
    mstep int_of_n_fields. mstep names_of_field_names. reflexivity.
  - apply heap_lookup_fresh.
  - cbn [_sub_idx _sub_names s]. unfold py_slice.
    rewrite !length_take, !length_drop, Hlen. done.
  - intros j name Hj. cbn [_sub_names s] in Hj.
    destruct (py_slice_lookup _ _ _ _ _ Hj) as [Hi Hlt].
    set (i := Z.to_nat (slice_bound (Z.of_nat (length names)) 0 start) + j)
      in *.
    assert (name ∈ names) as Hin by (by eapply list_elem_of_lookup_2).
    destruct (collection_at_field _ _ _ _ _ _ _ Hca Hin) as [_ [val Hval]].
    exists i, val. split; [|split; [done|split]].
    + cbn [_sub_idx s]. rewrite py_slice_lookup_lt by (by rewrite Hlen).
      rewrite Hlen. fold i. unfold py_range.
      apply lookup_lt_Some in Hi. rewrite lookup_seqZ_lt by lia.
      reflexivity.
    + cbn [LabeledSubCollection.__getitem__]. erewrite bind_ok; [done|].
      erewrite view_getitem_by_idx;
        [|apply heap_lookup_fresh|by apply py_index_of_nat].
      by eapply getitem_by_name_ok.
    + eapply getitem_idx_ok; [done|by apply py_index_of_nat|done].
Qed.

(** X14: two views of one base share its slots.  For a name that both views
    cover, a write through the first is read through the second, and both
    views stay as they were. *)
Theorem overlapping_views_share_slots h c cls names locked v1 s1 v2 s2 name x :
  schema_of h c = Some (cls, names, locked) →
  h !! v1 = Some (View s1) → base_collection s1 = c →
  h !! v2 = Some (View s2) → base_collection s2 = c →
  name ∈ names → name ∈ _sub_names s1 → name ∈ _sub_names s2 →
  ∃ h',
    LabeledSubCollection.__setitem__ v1 (KStr name) x h = (h', Ok tt)
    ∧ LabeledSubCollection.__getitem__ v2 (KStr name) h' = (h', Ok (Single x))
    ∧ LabeledSubCollection.__getitem__ v1 (KStr name) h' = (h', Ok (Single x))
    ∧ h' !! v1 = Some (View s1)
    ∧ h' !! v2 = Some (View s2)
    ∧ schema_of h' c = Some (cls, names, locked).
Proof.
  intros [dict Hca]%schema_of_unfold Hv1 Hb1 Hv2 Hb2 Hin Hin1 Hin2.
  destruct (collection_at_field _ _ _ _ _ _ _ Hca Hin) as [Hplain _].
  pose proof (setitem_by_name_ok _ _ _ _ _ _ _ x Hca Hin) as Hset.
  pose proof (collection_at_store _ _ _ _ _ _ _ x Hca Hplain) as Hca'.
  set (h' := <[c := Collection cls (<[name := x]> dict)]> h) in *.
  assert (h' !! v1 = Some (View s1)) as Hv1'.
  { eapply view_frame; [done|apply Hca]. }
  assert (h' !! v2 = Some (View s2)) as Hv2'.
  { eapply view_frame; [done|apply Hca]. }
  assert (LabeledCollection._getitem_by_name c name h' = (h', Ok x)) as Hget.
  { eapply getitem_by_name_ok; [done..|]. apply lookup_insert_eq. }
  exists h'. split; [|split; [|split; [|split; [|split]]]]; try done.
  - cbn [LabeledSubCollection.__setitem__].
    erewrite view_setitem_by_name by done. by rewrite Hb1.
  - cbn [LabeledSubCollection.__getitem__]. erewrite bind_ok; [done|].
    erewrite view_getitem_by_name by done. by rewrite Hb2.
  - cbn [LabeledSubCollection.__getitem__]. erewrite bind_ok; [done|].
    erewrite view_getitem_by_name by done. by rewrite Hb1.
  - apply schema_of_unfold. by eexists.
Qed.

End Ranges.

(** ** Copies and generated collections *)

Section Copies.
Context {Expr : Type} `{!EqDecision Expr}.
Local Abbreviation M := (M Expr).
Local Abbreviation pyval := (pyval Expr).
Implicit Types (h : heap Expr) (c r : loc) (dict : gmap string pyval).
Implicit Types (names : list string) (mask : list bool).
Import LabeledCollection.

Lemma collection_at_plain h c cls names locked dict :
  collection_at h c cls names locked dict →
  Forall (λ name, plain_name name = true) names.
Proof.
  intros Hca. eapply Forall_impl; [apply (ca_fields _ _ _ _ _ _ Hca)|].
  by intros name [? _].
Qed.

Lemma carried_comp h c cls names locked dict (l : list string) :
  collection_at h c cls names locked dict →
  (∀ name, name ∈ l → name ∈ names) →
  list_comp l (λ fname,
    v <- subscript c (KStr fname);; ret (Some (fname, v))) h
  = (h, Ok ((λ name, (name, default PyNone (dict !! name))) <$> l)).
Proof.
  intros Hca Hl. apply list_comp_map. intros name Hin.
  destruct (collection_at_field _ _ _ _ _ _ _ Hca (Hl _ Hin)) as [_ [v Hv]].
  erewrite bind_ok;
    [|eapply subscript_name_ok; [exact Hca|by apply Hl|exact Hv]].
  cbn beta. by rewrite Hv.
Qed.

(** [LabeledCollection.copy] rebuilds an unlocked [LabeledCollection] with
    the names and values of the receiver. *)
Lemma lc_copy_ok h c cls names locked dict :
  collection_at h c cls names locked dict →
  LabeledCollection.copy c h
  = (h ++ [Collection LabeledCollection_cls
             (init_dict names (carried dict names))],
     Ok (length h)).
Proof.
  intros Hca. unfold LabeledCollection.copy.
  mstep names_of_field_names. mstep names_of_field_names.
  erewrite bind_ok; [|by eapply carried_comp]. cbn beta.
  apply new_ok; [by eapply collection_at_plain|apply carried_keys].
Qed.

Lemma init_dict_carried dict names name v :
  Forall (λ name, plain_name name = true) names →
  name ∈ names → dict !! name = Some v →
  init_dict names (carried dict names) !! name = Some v.
Proof.
  intros Hp Hin Hv. rewrite init_dict_field by done.
  by erewrite carried_lookup.
Qed.

Lemma heap_fresh_ne h c : is_Some (h !! c) → c ≠ length h.
Proof. intros Hc%lookup_lt_is_Some ->. lia. Qed.

(** What [copy] leaves on either class. *)
Lemma copy_ok h c cls names locked dict :
  collection_at h c cls names locked dict →
  ∃ dict',
    Virtual.copy c h = (h ++ [Collection cls dict'], Ok (length h))
    ∧ collection_at (h ++ [Collection cls dict']) (length h) cls names
        (match cls with CollectionPG_cls => true | _ => false end) dict'
    ∧ (∀ name, name ∈ names → dict' !! name = dict !! name)
    ∧ dict' !! "_iter_name" = Some (PyBool false)
    ∧ dict' !! "_iter_filter" = Some (PyBool false).
Proof.
  intros Hca.
  pose proof (collection_at_plain _ _ _ _ _ _ Hca) as Hplain.
  pose proof (ca_obj _ _ _ _ _ _ Hca) as Hc.
  assert (∀ name, name ∈ names →
            init_dict names (carried dict names) !! name = dict !! name)
    as Hfld.
  { intros name Hin.
    destruct (collection_at_field _ _ _ _ _ _ _ Hca Hin) as [_ [v Hv]].
    by erewrite init_dict_carried, Hv. }
  destruct cls.
  - exists (init_dict names (carried dict names)).
    split; [|split; [|split; [done|split]]].
    + unfold Virtual.copy. erewrite bind_ok; [|by eapply class_of_ok].
      cbn beta iota. by eapply lc_copy_ok.
    + apply collection_at_init; [apply heap_lookup_fresh|done..].
    + rewrite init_dict_reserved; [done|done|by apply (bool_decide_unpack _)].
    + rewrite init_dict_reserved; [done|done|by apply (bool_decide_unpack _)].
  - pose proof (ca_class _ _ _ _ _ _ Hca eq_refl) as Hnames. subst names.
    exists (<["_is_locked" := PyBool true]>
              (init_dict pg_field_names (carried dict pg_field_names))).
    split; [|split; [|split; [|split]]].
    + unfold Virtual.copy. erewrite bind_ok; [|by eapply class_of_ok].
      cbn beta iota. by eapply pg_copy_ok.
    + exact (collection_at_pg_new h (carried dict pg_field_names)).
    + intros name Hin. rewrite lookup_insert_ne; [by apply Hfld|].
      apply not_eq_sym. rewrite Forall_forall in Hplain.
      eapply plain_name_not_reserved; [by apply Hplain|].
      by apply (bool_decide_unpack _).
    + rewrite lookup_insert_ne by done.
      rewrite init_dict_reserved; [done|done|by apply (bool_decide_unpack _)].
    + rewrite lookup_insert_ne by done.
      rewrite init_dict_reserved; [done|done|by apply (bool_decide_unpack _)].
Qed.

(** X15: [copy] returns an equal but independent collection.  The result is
    a new object of the receiver's class with the same names and the same
    value at each of them; it is locked exactly when it is a
    [CollectionPG], and its iteration options are the defaults, whatever the
    receiver's are.  No other object changes, and an assignment to an item
    of either one leaves the other as it is. *)
Theorem copy_is_equal_and_independent h c cls names locked :
  schema_of h c = Some (cls, names, locked) →
  ∃ h' r,
    Virtual.copy c h = (h', Ok r)
    ∧ h !! r = None
    ∧ (∀ c', is_Some (h !! c') → h' !! c' = h !! c')
    ∧ schema_of h' r
      = Some (cls, names,
              match cls with CollectionPG_cls => true | _ => false end)
    ∧ values_along h' r names = values_along h c names
    ∧ slot h' r "_iter_name" = Some (PyBool false)
    ∧ slot h' r "_iter_filter" = Some (PyBool false)
    ∧ (∀ key x, (__setitem__ r key x h').1 !! c = h !! c)
    ∧ (∀ key x, (__setitem__ c key x h').1 !! r = h' !! r).
Proof.
  intros [dict Hca]%schema_of_unfold.
  pose proof (ca_obj _ _ _ _ _ _ Hca) as Hc.
  assert (c ≠ length h) as Hne by (apply heap_fresh_ne; by rewrite Hc).
  destruct (copy_ok _ _ _ _ _ _ Hca) as (dict' & Hcopy & Hca' & Hfld & Hn & Hf).
  exists (h ++ [Collection cls dict']), (length h).
  split; [done|].
  split; [|split; [|split; [|split; [|split; [|split; [|split]]]]]].
  - by apply lookup_ge_None_2.
  - intros c' [o Ho]. by rewrite (lookup_app_l_Some _ _ _ _ Ho).
  - apply schema_of_unfold. by eexists.
  - unfold values_along. apply list_fmap_ext. intros i name Hi.
    assert (name ∈ names) as Hin by (by eapply list_elem_of_lookup_2).
    erewrite !slot_collection_at by done. by rewrite Hfld.
  - by erewrite slot_collection_at.
  - by erewrite slot_collection_at.
  - intros key x. rewrite only_writes_setitem by done.
    by rewrite (lookup_app_l_Some _ _ _ _ Hc).
  - intros key x. by rewrite only_writes_setitem.
Qed.

End Copies.

(** ** Masks *)

Section Masks.
Context {Expr : Type} `{!EqDecision Expr}.
Local Abbreviation M := (M Expr).
Local Abbreviation pyval := (pyval Expr).
Implicit Types (h : heap Expr) (c r : loc) (dict : gmap string pyval).
Implicit Types (names : list string) (mask : list bool).
Import LabeledCollection.

Lemma select_all_false {A} (n : nat) (l : list A) :
  select (replicate n false) l = [].
Proof.
  revert l. induction n as [|n IH]; intros [|a l]; cbn [replicate select];
    auto.
Qed.

Lemma select_prefix_mask {A} (l : list A) (k : nat) :
  select (prefix_mask (length l) k) l = take k l.
Proof.
  unfold prefix_mask. revert k. induction l as [|a l IH]; intros k.
  - cbn [length]. rewrite Nat.min_0_r. cbn. by rewrite take_nil.
  - destruct k as [|k].
    + cbn [length Nat.min Nat.sub replicate app take].
      apply (select_all_false (S (length l)) (a :: l)).
    + cbn [length Nat.min Nat.sub replicate app take select].
      by rewrite IH.
Qed.

Lemma py_slice_prefix {A} (l : list A) (k : nat) :
  py_slice l None (Some (Z.of_nat k)) = take k l.
Proof.
  unfold py_slice, slice_bound.
  assert ((Z.of_nat k <? 0)%Z = false) as -> by (apply Z.ltb_ge; lia).
  rewrite Z.sub_0_r. cbn [Z.to_nat]. rewrite drop_0.
  destruct (decide (k ≤ length l)) as [Hle|Hgt].
  - by rewrite Z.min_l, Nat2Z.id by lia.
  - rewrite Z.min_r, Nat2Z.id by lia. rewrite !take_ge; [done|lia..].
Qed.

(** X16: [generate_collection] accepts only a mask as long as the schema.
    With a mask of any other length -- shorter, or longer with the surplus
    entries false -- the assertion fails, and nothing is allocated or
    changed. *)
Theorem generate_collection_checks_mask_length h c cls names locked mask :
  schema_of h c = Some (cls, names, locked) →
  length mask ≠ length names →
  generate_collection c mask h = (h, Raise AssertionError)
  ∧ generate_collection c (replicate (length names) true ++ false :: mask) h
    = (h, Raise AssertionError).
Proof.
  intros [dict Hca]%schema_of_unfold Hlen. ca_open Hca.
  split; unfold generate_collection; mstep getattr_dict; cbn [py_eq].
  - by rewrite (proj2 (Z.eqb_neq _ _)) by lia.
  - rewrite length_app, length_replicate. cbn [length].
    by rewrite (proj2 (Z.eqb_neq _ _)) by lia.
Qed.

(** X17: with the mask that is true everywhere, [generate_collection] is
    [LabeledCollection.copy]: both allocate the same object, on a collection
    of either class. *)
Theorem generate_collection_all_true_is_copy h c cls names locked :
  schema_of h c = Some (cls, names, locked) →
  generate_collection c (replicate (length names) true) h
  = LabeledCollection.copy c h
  ∧ ∃ h',
      LabeledCollection.copy c h = (h', Ok (length h))
      ∧ schema_of h' (length h) = Some (LabeledCollection_cls, names, false)
      ∧ values_along h' (length h) names = values_along h c names.
Proof.
  intros [dict Hca]%schema_of_unfold.
  pose proof (collection_at_plain _ _ _ _ _ _ Hca) as Hplain.
  assert (length (replicate (length names) true) = length names) as Hlen
    by apply length_replicate.
  destruct (generate_collection_fresh _ _ _ _ _ _ _ Hca Hlen)
    as (Hgen & Hca' & _ & _).
  rewrite select_all in Hgen, Hca'.
  split; [by rewrite Hgen; erewrite lc_copy_ok|].
  eexists. split; [by eapply lc_copy_ok|]. split.
  - apply schema_of_unfold. by eexists.
  - unfold values_along. apply list_fmap_ext. intros i name Hi.
    assert (name ∈ names) as Hin by (by eapply list_elem_of_lookup_2).
    destruct (collection_at_field _ _ _ _ _ _ _ Hca Hin) as [_ [v Hv]].
    erewrite !slot_collection_at by done.
    by erewrite init_dict_carried, Hv.
Qed.

(** X18: the mask [expand_daria_malkus] builds -- false everywhere, then
    true on the first [k] positions -- selects the leading [k] fields.  The
    generated collection has the schema [names[:k]], so it lines up with a
    list of names sliced in the same way, and holds the receiver's values at
    these names. *)
Theorem prefix_mask_selects_leading_fields h c cls names locked (k : nat) :
  schema_of h c = Some (cls, names, locked) →
  ∃ h' r,
    generate_collection c (prefix_mask (length names) k) h = (h', Ok r)
    ∧ schema_of h' r
      = Some (LabeledCollection_cls,
              py_slice names None (Some (Z.of_nat k)), false)
    ∧ __len__ r h' = (h', Ok (PyInt (Z.of_nat (k `min` length names))))
    ∧ ∀ (i : nat) name,
        i < k → names !! i = Some name →
        ∃ val,
          __getitem__ r (KInt (Z.of_nat i)) h' = (h', Ok (Single val))
          ∧ __getitem__ c (KInt (Z.of_nat i)) h = (h, Ok (Single val)).
Proof.
  intros [dict Hca]%schema_of_unfold.
  pose proof (collection_at_plain _ _ _ _ _ _ Hca) as Hplain.
  assert (length (prefix_mask (length names) k) = length names) as Hlen.
  { unfold prefix_mask. rewrite length_app, !length_replicate. lia. }
  destruct (generate_collection_fresh _ _ _ _ _ _ _ Hca Hlen)
    as (Hgen & Hca' & _ & _).
  rewrite select_prefix_mask in Hgen, Hca'.
  assert (Forall (λ name, plain_name name = true) (take k names)) as Hplain'.
  { by apply Forall_take. }
  eexists _, _. split; [exact Hgen|]. split; [|split].
  - rewrite py_slice_prefix. apply schema_of_unfold. by eexists.
  - erewrite len_ok by done. by rewrite length_take.
  - intros i name Hi Hname.
    assert (name ∈ names) as Hin by (by eapply list_elem_of_lookup_2).
    destruct (collection_at_field _ _ _ _ _ _ _ Hca Hin) as [_ [val Hval]].
    assert (take k names !! i = Some name) as Hname'.
    { by rewrite lookup_take_lt. }
    exists val. split.
    + eapply getitem_idx_ok; [done|by apply py_index_of_nat|].
      rewrite init_dict_field; [|done|by eapply list_elem_of_lookup_2].
      erewrite carried_lookup; [done| |done].
      by eapply list_elem_of_lookup_2.
    + by eapply getitem_idx_ok; [|apply py_index_of_nat|].
Qed.

End Masks.

(** ** The two mapping functions against each other *)

Section MappingAgreement.
Context {Expr : Type} `{!EqDecision Expr}.
Local Abbreviation M := (M Expr).
Local Abbreviation pyval := (pyval Expr).
Implicit Types (h : heap Expr) (a b c : loc) (dict : gmap string pyval).
Implicit Types (names : list string).
Import LabeledCollection.

(** Two comprehensions whose bodies read the same pairs build the same
    dictionary, and fail at the same key. *)
Lemma dict_comp_agree {A B} h (l1 : list A) (l2 : list B)
    (body1 : A → M (pyval * pyval)) (body2 : B → M (pyval * pyval)) :
  Forall2 (λ x y, ∃ kv, body1 x h = (h, Ok kv) ∧ body2 y h = (h, Ok kv))
    l1 l2 →
  ∀ d, dict_comp l1 body1 d h = dict_comp l2 body2 d h.
Proof.
  induction 1 as [|x y l1 l2 (kv & H1 & H2) _ IH]; intros d; [done|].
  cbn [dict_comp].
  rewrite (bind_ok _ _ _ _ _ H1), (bind_ok _ _ _ _ _ H2). cbn beta.
  destruct (dict_setitem d kv.1 kv.2) as [d'|e] eqn:Hset.
  - rewrite !bind_lift_ok. apply IH.
  - done.
Qed.

(** X19: on two collections with the same list of names, [map_PG_fields],
    which pairs the values by position, and [map_collection], which pairs
    them by name, are the same computation: the same dictionary, or the same
    exception when a value of the source cannot be a key. *)
Theorem map_functions_agree_on_equal_schemas h a b cls_a cls_b names
    locked_a locked_b :
  schema_of h a = Some (cls_a, names, locked_a) →
  schema_of h b = Some (cls_b, names, locked_b) →
  map_PG_fields a b h = map_collection a b h.
Proof.
  intros [dict_a Ha]%schema_of_unfold [dict_b Hb]%schema_of_unfold.
  unfold map_PG_fields, map_collection.
  mstep int_of_n_fields.
  erewrite bind_ok;
    [|eapply getattr_dict; [apply Ha|done|apply Ha]]. cbn beta.
  erewrite bind_ok;
    [|eapply getattr_dict; [apply Hb|done|apply Hb]]. cbn beta.
  cbn [py_eq]. rewrite bool_decide_eq_true_2 by done.
  mstep names_of_field_names. rewrite py_range_seq.
  apply dict_comp_agree.
  assert (∀ m k, k + m = length names →
    Forall2 (λ (x : Z) (y : string), ∃ kv,
        (k0 <- subscript a (KInt x);; v <- subscript b (KInt x);; ret (k0, v)) h
        = (h, Ok kv)
        ∧ (k0 <- subscript a (KStr y);; v <- subscript b (KStr y);;
           ret (k0, v)) h = (h, Ok kv))
      (Z.of_nat <$> seq k m) (take m (drop k names))) as Hgen.
  { induction m as [|m IH]; intros k Hk; [by constructor|].
    destruct (lookup_lt_is_Some_2 names k) as [name Hname]; [lia|].
    rewrite (drop_S _ _ _ Hname). cbn [seq fmap list_fmap take].
    assert (name ∈ names) as Hin by (by eapply list_elem_of_lookup_2).
    destruct (collection_at_field _ _ _ _ _ _ _ Ha Hin) as [_ [va Hva]].
    destruct (collection_at_field _ _ _ _ _ _ _ Hb Hin) as [_ [vb Hvb]].
    constructor; [|apply IH; lia].
    exists (va, vb). split.
    - erewrite bind_ok;
        [|eapply subscript_idx_ok; [exact Ha|by apply py_index_of_nat|done]].
      cbn beta.
      erewrite bind_ok;
        [|eapply subscript_idx_ok; [exact Hb|by apply py_index_of_nat|done]].
      done.
    - erewrite bind_ok; [|eapply subscript_name_ok; [exact Ha|done|done]].
      cbn beta.
      erewrite bind_ok; [|eapply subscript_name_ok; [exact Hb|done|done]].
      done. }
  specialize (Hgen (length names) 0 eq_refl).
  by rewrite drop_0, firstn_all in Hgen.
Qed.

End MappingAgreement.

(** ** Attributes, the lock and the options *)

Section Locking.
Context {Expr : Type} `{!EqDecision Expr}.
Local Abbreviation M := (M Expr).
Local Abbreviation pyval := (pyval Expr).
Implicit Types (h : heap Expr) (c v : loc) (dict : gmap string pyval).
Implicit Types (names : list string).
Import LabeledCollection.

(** X20: an attribute added to an unlocked collection is not a field.  The
    assignment succeeds and the attribute can be read back, but the schema
    and the length stay as they were, the values of the fields are kept, and
    the name is refused as a key with [KeyError]. *)
Theorem added_attribute_is_not_a_field h c cls names name x :
  schema_of h c = Some (cls, names, false) →
  plain_name name = true →
  name ∉ names →
  ∃ h',
    __setattr__ c name x h = (h', Ok tt)
    ∧ getattr c name h' = (h', Ok x)
    ∧ schema_of h' c = Some (cls, names, false)
    ∧ __len__ c h' = (h', Ok (PyInt (Z.of_nat (length names))))
    ∧ values_along h' c names = values_along h c names
    ∧ __getitem__ c (KStr name) h' = (h', Raise KeyError)
    ∧ __setitem__ c (KStr name) x h' = (h', Raise KeyError).
Proof.
  intros [dict Hca]%schema_of_unfold Hp Hnot.
  pose proof (collection_at_store _ _ _ _ _ _ _ x Hca Hp) as Hca'.
  pose proof (plain_name_property_slot _ Hp) as Hslot.
  eexists. split; [|split; [|split; [|split; [|split; [|split]]]]].
  - eapply setattr_ok; [apply Hca..|done|by left].
  - eapply getattr_dict; [apply Hca'|done|apply lookup_insert_eq].
  - apply schema_of_unfold. by eexists.
  - by eapply len_ok.
  - unfold values_along. apply list_fmap_ext. intros i name' Hi.
    erewrite !slot_collection_at by done.
    rewrite lookup_insert_ne; [done|]. intros ->.
    apply Hnot. by eapply list_elem_of_lookup_2.
  - cbn [__getitem__]. erewrite bind_raise; [done|].
    by eapply getitem_by_name_missing.
  - cbn [__setitem__]. by eapply setitem_by_name_missing.
Qed.

(** X21: the lock guards new names only, and can be lifted and put back.
    On a locked collection a name it has no attribute for is refused with
    [AttributeError]; after [_enable_attribute_addition] the same assignment
    succeeds; after [_disable_attribute_addition] the collection is locked
    again with its schema intact, the added attribute is still there and
    can still be assigned, and a further new name is refused. *)
Theorem lock_can_be_lifted_and_restored h c cls names name name' x :
  schema_of h c = Some (cls, names, true) →
  plain_name name = true → slot h c name = None →
  plain_name name' = true → slot h c name' = None → name' ≠ name →
  __setattr__ c name x h = (h, Raise AttributeError)
  ∧ ∃ h1 h2 h3,
      _enable_attribute_addition c h = (h1, Ok tt)
      ∧ schema_of h1 c = Some (cls, names, false)
      ∧ __setattr__ c name x h1 = (h2, Ok tt)
      ∧ _disable_attribute_addition c h2 = (h3, Ok tt)
      ∧ schema_of h3 c = Some (cls, names, true)
      ∧ values_along h3 c names = values_along h c names
      ∧ getattr c name h3 = (h3, Ok x)
      ∧ (∀ y, ∃ h4, __setattr__ c name y h3 = (h4, Ok tt)
                    ∧ getattr c name h4 = (h4, Ok y))
      ∧ __setattr__ c name' x h3 = (h3, Raise AttributeError).
Proof.
  intros [dict Hca]%schema_of_unfold Hp Hnone Hp' Hnone' Hne.
  erewrite slot_collection_at in Hnone, Hnone' by done.
  pose proof (plain_name_property_slot _ Hp) as Hslot.
  pose proof (plain_name_property_slot _ Hp') as Hslot'.
  pose proof (collection_at_lock _ _ _ _ _ _ false Hca) as Hca1.
  pose proof (collection_at_store _ _ _ _ _ _ _ x Hca1 Hp) as Hca2.
  pose proof (collection_at_lock _ _ _ _ _ _ true Hca2) as Hca3.
  set (dict1 := <["_is_locked" := PyBool false]> dict) in *.
  set (h1 := <[c := Collection cls dict1]> h) in *.
  set (dict2 := <[name := x]> dict1) in *.
  set (h2 := <[c := Collection cls dict2]> h1) in *.
  set (dict3 := <["_is_locked" := PyBool true]> dict2) in *.
  set (h3 := <[c := Collection cls dict3]> h2) in *.
  assert (name ≠ "_is_locked") as Hnl.
  { eapply plain_name_not_reserved; [done|by apply (bool_decide_unpack _)]. }
  assert (name' ≠ "_is_locked") as Hnl'.
  { eapply plain_name_not_reserved; [done|by apply (bool_decide_unpack _)]. }
  assert (dict3 !! name = Some x) as Hx.
  { unfold dict3, dict2. rewrite lookup_insert_ne by done.
    apply lookup_insert_eq. }
  split.
  - eapply setattr_reject; [apply Hca..|done|done|].
    by apply plain_name_not_member.
  - exists h1, h2, h3.
    split; [|split; [|split; [|split; [|split; [|split; [|split; [|split]]]]]]].
    + unfold _enable_attribute_addition, object_setattr.
      change (property_slot "_is_locked") with (@None string).
      eapply store_ok, Hca.
    + apply schema_of_unfold. by eexists.
    + eapply setattr_ok; [apply Hca1..|done|by left].
    + unfold _disable_attribute_addition.
      eapply setattr_ok; [apply Hca2|apply Hca2|done|left; reflexivity].
    + apply schema_of_unfold. by eexists.
    + unfold values_along. apply list_fmap_ext. intros i fname Hi.
      assert (fname ∈ names) as Hin by (by eapply list_elem_of_lookup_2).
      destruct (collection_at_field _ _ _ _ _ _ _ Hca Hin) as [Hpf [v Hv]].
      erewrite !slot_collection_at by done.
      unfold dict3, dict2, dict1.
      rewrite lookup_insert_ne.
      2:{ apply not_eq_sym. eapply plain_name_not_reserved; [done|].
          by apply (bool_decide_unpack _). }
      rewrite lookup_insert_ne by (intros ->; by rewrite Hv in Hnone).
      rewrite lookup_insert_ne; [done|].
      apply not_eq_sym. eapply plain_name_not_reserved; [done|].
      by apply (bool_decide_unpack _).
    + eapply getattr_dict; [apply Hca3|done|done].
    + intros y. eexists. split.
      * eapply setattr_ok; [apply Hca3..|done|right; by eexists].
      * eapply getattr_dict;
          [apply heap_lookup_update; by rewrite (ca_obj _ _ _ _ _ _ Hca3)
          |done|apply lookup_insert_eq].
    + eapply setattr_reject; [apply Hca3..|done| |].
      * unfold dict3, dict2, dict1. rewrite !lookup_insert_ne by done. done.
      * by apply plain_name_not_member.
Qed.

End Locking.

(** ** The iteration options *)

Section Options.
Context {Expr : Type} `{!EqDecision Expr}.
Local Abbreviation M := (M Expr).
Local Abbreviation pyval := (pyval Expr).
Implicit Types (h : heap Expr) (c v : loc) (dict : gmap string pyval).
Implicit Types (names : list string).
Import LabeledCollection.

(** An assignment to one of the two properties runs its setter. *)
Lemma option_setattr h c cls dict locked opt private x b0 :
  h !! c = Some (Collection cls dict) →
  dict !! "_is_locked" = Some (PyBool locked) →
  property_slot opt = Some private →
  property_slot private = None →
  dict !! private = Some b0 →
  __setattr__ c opt x h
  = match x with
    | PyBool _ => (<[c := Collection cls (<[private := x]> dict)]> h, Ok tt)
    | _ => (h, Raise TypeError)
    end.
Proof.
  intros Hc Hl Hopt Hpriv Hb0.
  assert (lock_guard c opt h = (h, Ok tt)) as Hguard.
  { unfold lock_guard. mstep hasattr_dict. mstep getattr_dict.
    destruct locked; cbn [truthy]; [|done].
    assert (hasattr c opt h = (h, Ok true)) as Hhas.
    { unfold hasattr, getattr, lookup_attr. by rewrite Hopt, Hc, Hb0. }
    by rewrite (bind_ok _ _ _ _ _ Hhas). }
  unfold __setattr__. rewrite (bind_ok _ _ _ _ _ Hguard). cbn beta.
  unfold object_setattr. rewrite Hopt.
  destruct x; try done.
  erewrite bind_ok;
    [|eapply lock_guard_ok; [done..|right; by eexists]].
  by eapply store_ok.
Qed.

Lemma collection_at_option h c cls names locked dict private b :
  collection_at h c cls names locked dict →
  private = "_iter_name" ∨ private = "_iter_filter" →
  collection_at (<[c := Collection cls (<[private := PyBool b]> dict)]> h)
    c cls names locked (<[private := PyBool b]> dict).
Proof.
  intros Hca Hpriv. ca_open Hca.
  destruct Hitn as [b4 ?], Hitf as [b5 ?], Hnit as [i ?].
  assert (Forall (λ name, plain_name name = true
                          ∧ is_Some (<[private := PyBool b]> dict !! name))
            names) as Hf.
  { eapply Forall_impl; [exact Hfields|]. intros name [Hp Hs]. split; [done|].
    rewrite lookup_insert_ne; [done|]. apply not_eq_sym.
    eapply plain_name_not_reserved; [done|].
    destruct Hpriv as [-> | ->]; by apply (bool_decide_unpack _). }
  destruct Hpriv as [-> | ->].
  - split; try done; try (by rewrite lookup_insert_ne).
    + apply heap_lookup_update. by rewrite Hobj.
    + exists b. apply lookup_insert_eq.
    + exists b5. by rewrite lookup_insert_ne.
    + exists i. by rewrite lookup_insert_ne.
  - split; try done; try (by rewrite lookup_insert_ne).
    + apply heap_lookup_update. by rewrite Hobj.
    + exists b4. by rewrite lookup_insert_ne.
    + exists b. apply lookup_insert_eq.
    + exists i. by rewrite lookup_insert_ne.
Qed.

(** X22: the options [iter_name] and [iter_filter] take booleans only.
    Assigning a boolean succeeds on a collection, locked or not, and is
    read back, with the schema and the values of the fields kept; assigning
    anything else, an integer included, raises [TypeError] and changes
    nothing. *)
Theorem iter_options_accept_only_booleans h c cls names locked opt :
  schema_of h c = Some (cls, names, locked) →
  opt = "iter_name" ∨ opt = "iter_filter" →
  (∀ b, ∃ h',
     __setattr__ c opt (PyBool b) h = (h', Ok tt)
     ∧ getattr c opt h' = (h', Ok (PyBool b))
     ∧ slot h' c ("_" +:+ opt) = Some (PyBool b)
     ∧ schema_of h' c = Some (cls, names, locked)
     ∧ values_along h' c names = values_along h c names)
  ∧ (∀ x, (∀ b, x ≠ PyBool b) →
       __setattr__ c opt x h = (h, Raise TypeError)).
Proof.
  intros [dict Hca]%schema_of_unfold Hopt.
  set (private := "_" +:+ opt).
  assert (property_slot opt = Some private) as Hslot.
  { unfold private. by destruct Hopt as [-> | ->]. }
  assert (property_slot private = None) as Hpriv.
  { unfold private. by destruct Hopt as [-> | ->]. }
  assert (private = "_iter_name" ∨ private = "_iter_filter") as Hor.
  { unfold private. destruct Hopt as [-> | ->]; [by left|by right]. }
  assert (∃ b0, dict !! private = Some (PyBool b0)) as [b0 Hb0].
  { ca_open Hca. by destruct Hor as [-> | ->]. }
  pose proof (ca_obj _ _ _ _ _ _ Hca) as Hc.
  pose proof (ca_locked _ _ _ _ _ _ Hca) as Hl.
  split.
  - intros b.
    pose proof (collection_at_option _ _ _ _ _ _ private b Hca Hor) as Hca'.
    eexists. split; [|split; [|split; [|split]]].
    + by erewrite option_setattr.
    + unfold getattr, lookup_attr.
      rewrite Hslot, (ca_obj _ _ _ _ _ _ Hca'). by rewrite lookup_insert_eq.
    + erewrite slot_collection_at by done. apply lookup_insert_eq.
    + apply schema_of_unfold. by eexists.
    + unfold values_along. apply list_fmap_ext. intros i name Hi.
      assert (name ∈ names) as Hin by (by eapply list_elem_of_lookup_2).
      destruct (collection_at_field _ _ _ _ _ _ _ Hca Hin) as [Hp _].
      erewrite !slot_collection_at by done.
      rewrite lookup_insert_ne; [done|]. apply not_eq_sym.
      eapply plain_name_not_reserved; [done|].
      destruct Hor as [-> | ->]; by apply (bool_decide_unpack _).
  - intros x Hx. erewrite option_setattr by done.
    destruct x; try done. by destruct (Hx b).
Qed.

End Options.

(** ** Empty collections and repeated application *)

Section Applying.
Context {Expr : Type} `{!EqDecision Expr}.
Local Abbreviation M := (M Expr).
Local Abbreviation pyval := (pyval Expr).
Implicit Types (h : heap Expr) (c r : loc) (dict : gmap string pyval).
Implicit Types (names : list string) (f g : option string → pyval → pyval).
Import LabeledCollection.

(** X23: [_new_obj] returns an empty collection of the receiver's kind: a
    new object of the same class over the same names, locked exactly when
    it is a [CollectionPG], in which every field is [None]; no other object
    changes. *)
Theorem new_obj_is_empty_with_same_schema h c cls names locked :
  schema_of h c = Some (cls, names, locked) →
  ∃ h' r,
    Virtual._new_obj c h = (h', Ok r)
    ∧ h !! r = None
    ∧ (∀ c', is_Some (h !! c') → h' !! c' = h !! c')
    ∧ schema_of h' r
      = Some (cls, names,
              match cls with CollectionPG_cls => true | _ => false end)
    ∧ ∀ name, name ∈ names →
        __getitem__ r (KStr name) h' = (h', Ok (Single PyNone)).
Proof.
  intros [dict Hca]%schema_of_unfold.
  pose proof (collection_at_plain _ _ _ _ _ _ Hca) as Hplain.
  pose proof (ca_obj _ _ _ _ _ _ Hca) as Hc.
  assert (∀ k, is_Some ((∅ : gmap string pyval) !! k) → k ∈ names) as Hempty.
  { intros k [v Hk]. by rewrite lookup_empty in Hk. }
  assert (∀ name, name ∈ names →
            init_dict names (∅ : gmap string pyval) !! name = Some PyNone)
    as Hnone.
  { intros name Hin. by rewrite init_dict_field. }
  destruct cls.
  - set (h' := h ++ [Collection LabeledCollection_cls (init_dict names ∅)]).
    assert (collection_at h' (length h) LabeledCollection_cls names false
              (init_dict names ∅)) as Hca'.
    { apply collection_at_init; [apply heap_lookup_fresh|done..]. }
    exists h', (length h). split; [|split; [|split; [|split]]].
    + unfold Virtual._new_obj. erewrite bind_ok; [|by eapply class_of_ok].
      cbn beta iota. unfold LabeledCollection._new_obj.
      mstep names_of_field_names. by apply new_ok.
    + by apply lookup_ge_None_2.
    + intros c' [o Ho]. unfold h'. by rewrite (lookup_app_l_Some _ _ _ _ Ho).
    + apply schema_of_unfold. by eexists.
    + intros name Hin. eapply getitem_name_ok; [done..|by apply Hnone].
  - pose proof (ca_class _ _ _ _ _ _ Hca eq_refl) as Hnames. subst names.
    pose proof (collection_at_pg_new h (∅ : gmap string pyval)) as Hca'.
    eexists _, (length h). split; [|split; [|split; [|split]]].
    + unfold Virtual._new_obj. erewrite bind_ok; [|by eapply class_of_ok].
      cbn beta iota. unfold CollectionPG._new_obj. by apply pg_new_ok.
    + by apply lookup_ge_None_2.
    + intros c' [o Ho]. by rewrite (lookup_app_l_Some _ _ _ _ Ho).
    + apply schema_of_unfold. by eexists.
    + intros name Hin. eapply getitem_name_ok; [done..|].
      rewrite lookup_insert_ne; [by apply Hnone|].
      apply not_eq_sym. rewrite Forall_forall in Hplain.
      eapply plain_name_not_reserved; [by apply Hplain|].
      by apply (bool_decide_unpack _).
Qed.

(** [apply] in place, on a schema of distinct names. *)
Lemma apply_inplace_ok h c cls names locked dict f metadata :
  collection_at h c cls names locked dict →
  NoDup names →
  Virtual.apply c f true metadata h
  = (<[c := Collection cls (assign_all (applied f metadata dict) names dict)]> h,
     Ok c)
  ∧ collection_at
      (<[c := Collection cls (assign_all (applied f metadata dict) names dict)]> h)
      c cls names locked (assign_all (applied f metadata dict) names dict).
Proof.
  intros Hca Hnd.
  assert (take (length names) (drop 0 names) = names) as Htake.
  { rewrite drop_0. by apply take_ge. }
  assert (∀ name, name ∈ names → plain_name name = true) as Hplain.
  { intros name Hin. by eapply collection_at_field. }
  split.
  - unfold Virtual.apply, LabeledCollection.apply.
    rewrite bind_ret. mstep int_of_n_fields. rewrite py_range_seq.
    erewrite bind_ok; [done|].
    erewrite (apply_loop_inplace f metadata c);
      [|done|by rewrite Nat.add_0_l|done|done].
    by rewrite Htake.
  - ca_open Hca. destruct Hitn as [b4 ?], Hitf as [b5 ?], Hnit as [i6 ?].
    assert (∀ k, k ∈ reserved_names →
              assign_all (applied f metadata dict) names dict !! k = dict !! k)
      as Hres.
    { intros k Hk. rewrite assign_all_lookup.
      rewrite decide_False; [done|]. intros Hin.
      by eapply (plain_name_not_reserved k k); [apply Hplain|..]. }
    split; try done; try eexists;
      try (rewrite Hres; [done|by apply (bool_decide_unpack _)]).
    + apply heap_lookup_update. by rewrite Hobj.
    + apply Forall_forall. intros name Hin. split; [by apply Hplain|].
      rewrite assign_all_lookup, decide_True by done. by eexists.
Qed.

(** X24: applying in place twice is applying the composition once.  On a
    schema of distinct names, [c.apply(f, inplace=True)] followed by
    [c.apply(g, inplace=True)] leaves the heap that
    [c.apply(lambda x: g(f(x)), inplace=True)] leaves, and returns the
    receiver; with [metadata] set both functions get the name. *)
Theorem apply_in_place_composes h c cls names locked f g metadata :
  schema_of h c = Some (cls, names, locked) →
  NoDup names →
  (c1 <- Virtual.apply c f true metadata;;
   Virtual.apply c1 g true metadata) h
  = Virtual.apply c (λ name x, g name (f name x)) true metadata h.
Proof.
  intros [dict Hca]%schema_of_unfold Hnd.
  destruct (apply_inplace_ok _ _ _ _ _ _ f metadata Hca Hnd) as [Hf Hca1].
  destruct (apply_inplace_ok _ _ _ _ _ _ g metadata Hca1 Hnd) as [Hg _].
  destruct (apply_inplace_ok _ _ _ _ _ _ (λ name x, g name (f name x))
              metadata Hca Hnd) as [Hgf _].
  rewrite (bind_ok _ _ _ _ _ Hf). cbn beta. rewrite Hg, Hgf.
  rewrite list_insert_insert_eq. do 3 f_equal.
  apply map_eq. intros k. rewrite !assign_all_lookup.
  destruct (decide (k ∈ names)) as [Hin|Hin]; [|done].
  unfold applied. rewrite assign_all_lookup, decide_True by done.
  done.
Qed.

End Applying.

(** ** One cursor for every loop *)

Section SharedCursor.
Context {Expr : Type} `{!EqDecision Expr}.
Local Abbreviation M := (M Expr).
Local Abbreviation pyval := (pyval Expr).
Implicit Types (h : heap Expr) (c v : loc) (dict : gmap string pyval).
Implicit Types (names : list string).
Import LabeledCollection.


End SharedCursor.

(** ** The sub-collections of CollectionPG *)

Section Subsets.
Context {Expr : Type} `{!EqDecision Expr}.
Local Abbreviation M := (M Expr).
Local Abbreviation pyval := (pyval Expr).
Implicit Types (h : heap Expr) (c v : loc).

(** X26: the sub-collections of a [CollectionPG] divide its fields.  Each of
    the five [subset_] methods returns a new view of the receiver and leaves
    the receiver and every other object as they are; the moments,
    the equatorial fields and the boundary fields are disjoint and, with
    [Psi], make up the 21 fields in order; [subset_mag] is the three
    together, and [subset_B_bound_cyl] is the boundary fields without
    [Br_b]. *)
Theorem pg_subsets_partition_the_fields h c locked :
  schema_of h c = Some (CollectionPG_cls, pg_field_names, locked) →
  let moments := ["Mss"; "Mpp"; "Msp"; "Msz"; "Mpz"; "zMss"; "zMpp"; "zMsp"] in
  let equator := ["Bs_e"; "Bp_e"; "Bz_e"; "dBs_dz_e"; "dBp_dz_e"] in
  let bound_cyl := ["Bs_p"; "Bp_p"; "Bz_p"; "Bs_m"; "Bp_m"; "Bz_m"] in
  let returns (method : loc → M loc) (l : list string) :=
    ∃ h' v, method c h = (h', Ok v)
            ∧ h !! v = None
            ∧ view_schema h' v = Some (c, l)
            ∧ h' !! c = h !! c
            ∧ (∀ c', is_Some (h !! c') → h' !! c' = h !! c')
            ∧ schema_of h' c = schema_of h c in
  returns CollectionPG.subset_moments moments
  ∧ returns CollectionPG.subset_B_equator equator
  ∧ returns CollectionPG.subset_B_bound ("Br_b" :: bound_cyl)
  ∧ returns CollectionPG.subset_B_bound_cyl bound_cyl
  ∧ returns CollectionPG.subset_mag (moments ++ equator ++ "Br_b" :: bound_cyl)
  ∧ pg_field_names = "Psi" :: moments ++ equator ++ "Br_b" :: bound_cyl
  ∧ NoDup pg_field_names.
Proof.
  intros Hs moments equator bound_cyl returns.
  assert (∀ start stop l,
            py_slice pg_field_names start stop = l →
            returns (λ c, _extract_subset c start stop) l) as Hret.
  { intros start stop l Hl.
    destruct (extract_subset_view _ _ _ _ _ start stop Hs)
      as (s & Hex & Hbase & Hsub & _ & Hs').
    assert (∀ c', is_Some (h !! c') → (h ++ [View s]) !! c' = h !! c')
      as Hframe.
    { intros c' [o Ho]. by rewrite (lookup_app_l_Some _ _ _ _ Ho). }
    exists (h ++ [View s]), (length h).
    split; [done|]. split; [|split; [|split; [|split]]].
    - by apply lookup_ge_None_2.
    - unfold view_schema. rewrite heap_lookup_fresh. by rewrite Hbase, Hsub, Hl.
    - apply Hframe. apply schema_of_unfold in Hs as [dict Hca].
      by rewrite (ca_obj _ _ _ _ _ _ Hca).
    - done.
    - by rewrite Hs, Hs'. }
  split; [by apply Hret|]. split; [by apply Hret|]. split; [by apply Hret|].
  split; [by apply Hret|]. split; [by apply Hret|]. split; [done|].
  apply (bool_decide_unpack _). vm_compute. exact I.
Qed.

End Subsets.

(** ** The further properties on the scenarios *)

Section FurtherScenarios.
Import LabeledCollection.

Ltac literal := apply (bool_decide_unpack _); vm_compute; exact I.
Ltac evaluated := vm_compute; reflexivity.

Lemma new_collection_holds_fields_witness :
  ∃ h' c,
    new ["a"; "b"] (<["a" := sym "x1"]> ∅) [] = (h', Ok c)
    ∧ __getitem__ c (KStr "a") h' = (h', Ok (Single (sym "x1")))
    ∧ __getitem__ c (KStr "b") h' = (h', Ok (Single PyNone)).
Proof.
  destruct (new_collection_holds_fields (Expr := string) [] ["a"; "b"]
              (<["a" := sym "x1"]> ∅))
    as (h' & c & Hnew & _ & _ & _ & _ & Hget).
  - repeat constructor.
  - intros k [v Hk]. destruct (decide (k = "a")) as [->|Hne]; [literal|].
    rewrite lookup_insert_ne, lookup_empty in Hk by (apply not_eq_sym, Hne).
    discriminate Hk.
  - exists h', c. split; [exact Hnew|]. split.
    + rewrite (Hget "a") by literal. evaluated.
    + rewrite (Hget "b") by literal. evaluated.
Defined.

Lemma new_pg_collection_is_locked_witness :
  ∃ h' c,
    CollectionPG.new (<["Psi" := sym "x0"]> ∅) [] = (h', Ok c)
    ∧ schema_of h' c = Some (CollectionPG_cls, pg_field_names, true)
    ∧ __getitem__ c (KStr "Psi") h' = (h', Ok (Single (sym "x0")))
    ∧ __setattr__ c "extra" (sym "x") h' = (h', Raise AttributeError).
Proof.
  destruct (new_pg_collection_is_locked (Expr := string) []
              (<["Psi" := sym "x0"]> ∅))
    as (h' & c & Hnew & _ & _ & Hs & _ & Hget & Hrej).
  - intros k [v Hk]. destruct (decide (k = "Psi")) as [->|Hne]; [literal|].
    rewrite lookup_insert_ne, lookup_empty in Hk by (apply not_eq_sym, Hne).
    discriminate Hk.
  - exists h', c. split; [exact Hnew|]. split; [exact Hs|]. split.
    + rewrite (Hget "Psi") by literal. evaluated.
    + apply Hrej; [evaluated|literal].
Defined.

Lemma vorticity_is_psi_witness :
  ∃ val,
    CollectionPG.vorticity 0 pg_heap = (pg_heap, Ok val)
    ∧ __getitem__ 0 (KInt 0) pg_heap = (pg_heap, Ok (Single val)).
Proof.
  destruct (vorticity_is_psi pg_heap 0 true) as (val & Hv & _ & Hidx & _).
  - evaluated.
  - exists val. split; [exact Hv|exact Hidx].
Defined.

Lemma access_outside_schema_fails_witness :
  __getitem__ 0 (KStr "n_fields") ab_heap = (ab_heap, Raise KeyError)
  ∧ __getitem__ 0 (KInt 2) ab_heap = (ab_heap, Raise IndexError).
Proof.
  destruct (access_outside_schema_fails ab_heap 0 LabeledCollection_cls
              ["a"; "b"] false) as [Hname Hidx].
  - evaluated.
  - split.
    + apply (Hname "n_fields" PyNone). literal.
    + apply (Hidx 2%Z PyNone). right. cbn. lia.
Defined.

Lemma setitem_then_getitem_witness :
  ∃ h',
    __setitem__ 0 (KStr "a") (sym "z") ab_heap = (h', Ok tt)
    ∧ __getitem__ 0 (KStr "a") h' = (h', Ok (Single (sym "z"))).
Proof.
  destruct (setitem_then_getitem ab_heap 0 LabeledCollection_cls ["a"; "b"]
              false "a" (sym "z")) as (h' & Hset & _ & Hget & _).
  - evaluated.
  - literal.
  - exists h'. split; [exact Hset|exact Hget].
Defined.

Lemma index_name_attribute_agree_witness :
  ∃ val,
    __getitem__ 0 (KInt (Z.of_nat 1)) ab_heap = (ab_heap, Ok (Single val))
    ∧ getattr 0 "b" ab_heap = (ab_heap, Ok val).
Proof.
  destruct (index_name_attribute_agree ab_heap 0 LabeledCollection_cls
              ["a"; "b"] false 1 "b") as [(val & Hidx & _ & Hattr) _].
  - evaluated.
  - reflexivity.
  - exists val. split; [exact Hidx|exact Hattr].
Defined.



Lemma fresh_view_has_no_cursor_witness :
  ∃ h1 v,
    _extract_subset 0 (Some 0%Z) (Some 1%Z) ab_heap = (h1, Ok v)
    ∧ LabeledSubCollection.__next__ script_frames v h1
      = (h1, Raise AttributeError).
Proof.
  destruct (fresh_view_has_no_cursor ab_heap 0 LabeledCollection_cls
              ["a"; "b"] false (Some 0%Z) (Some 1%Z))
    as (h1 & v & Hex & Hnext & _).
  - evaluated.
  - exists h1, v. split; [exact Hex|exact (Hnext script_frames)].
Defined.

Lemma getitem_slice_reads_range_witness :
  __getitem__ 0 (KSlice (Some 0%Z) (Some 2%Z)) pg_heap
  = (pg_heap, Ok (Many [sym "x0"; sym "x1"])).
Proof.
  destruct (getitem_slice_reads_range pg_heap 0 CollectionPG_cls
              pg_field_names true (Some 0%Z) (Some 2%Z)) as [Hslice _].
  - evaluated.
  - rewrite Hslice. evaluated.
Defined.

Lemma view_access_outside_view_fails_witness :
  LabeledSubCollection.__getitem__ 1 (KStr "Psi") pg_heap
  = (pg_heap, Raise KeyError)
  ∧ LabeledSubCollection.__getitem__ 1 (KInt 8) pg_heap
    = (pg_heap, Raise IndexError).
Proof.
  destruct (view_access_outside_view_fails pg_heap 1 moments_view)
    as [Hname Hidx].
  - evaluated.
  - split.
    + apply (Hname "Psi" PyNone). literal.
    + apply (Hidx 8%Z PyNone). right. cbn. lia.
Defined.

Lemma view_slice_reads_base_values_witness :
  LabeledSubCollection.__getitem__ 1 (KSlice (Some 0%Z) (Some 2%Z)) pg_heap
  = (pg_heap, Ok (Many [sym "x1"; PyNone])).
Proof.
  destruct (view_slice_reads_base_values pg_heap 1 moments_view
              CollectionPG_cls pg_field_names true (Some 1%Z) (Some 9%Z)
              (Some 0%Z) (Some 2%Z)) as [Hslice _].
  - evaluated.
  - evaluated.
  - evaluated.
  - rewrite Hslice. evaluated.
Defined.

Lemma view_indices_match_names_witness :
  ∃ h1 v s,
    _extract_subset 0 (Some 1%Z) None ab_heap = (h1, Ok v)
    ∧ h1 !! v = Some (View s)
    ∧ length (_sub_idx s) = length (_sub_names s).
Proof.
  destruct (view_indices_match_names ab_heap 0 LabeledCollection_cls
              ["a"; "b"] false (Some 1%Z) None)
    as (h1 & v & s & Hex & Hv & _ & _ & _ & Hlen & _).
  - evaluated.
  - exists h1, v, s. split; [exact Hex|]. split; [exact Hv|exact Hlen].
Defined.

Lemma overlapping_views_share_slots_witness :
  ∃ h',
    LabeledSubCollection.__setitem__ 1 (KStr "Mss") (sym "z") mag_heap
    = (h', Ok tt)
    ∧ LabeledSubCollection.__getitem__ 2 (KStr "Mss") h'
      = (h', Ok (Single (sym "z"))).
Proof.
  destruct (overlapping_views_share_slots mag_heap 0 CollectionPG_cls
              pg_field_names true 1 moments_view 2 mag_view "Mss" (sym "z"))
    as (h' & Hset & Hget & _).
  - evaluated.
  - evaluated.
  - reflexivity.
  - evaluated.
  - reflexivity.
  - literal.
  - literal.
  - literal.
  - exists h'. split; [exact Hset|exact Hget].
Defined.

Lemma copy_is_equal_and_independent_witness :
  ∃ h' r,
    Virtual.copy 0 pg_heap = (h', Ok r)
    ∧ schema_of h' r = Some (CollectionPG_cls, pg_field_names, true)
    ∧ values_along h' r pg_field_names = values_along pg_heap 0 pg_field_names.
Proof.
  destruct (copy_is_equal_and_independent pg_heap 0 CollectionPG_cls
              pg_field_names true)
    as (h' & r & Hcopy & _ & _ & Hs & Hvals & _).
  - evaluated.
  - exists h', r. split; [exact Hcopy|]. split; [exact Hs|exact Hvals].
Defined.

Lemma generate_collection_checks_mask_length_witness :
  generate_collection 0 [true; false] pg_heap = (pg_heap, Raise AssertionError).
Proof.
  destruct (generate_collection_checks_mask_length pg_heap 0 CollectionPG_cls
              pg_field_names true [true; false]) as [Hshort _].
  - evaluated.
  - cbn. lia.
  - exact Hshort.
Defined.

Lemma generate_collection_all_true_is_copy_witness :
  generate_collection 0 (replicate 2 true) ab_heap = copy 0 ab_heap.
Proof.
  destruct (generate_collection_all_true_is_copy ab_heap 0
              LabeledCollection_cls ["a"; "b"] false) as [Hsame _].
  - evaluated.
  - exact Hsame.
Defined.

Lemma prefix_mask_selects_leading_fields_witness :
  ∃ h' r,
    generate_collection 0 (prefix_mask 21 14) pg_heap = (h', Ok r)
    ∧ schema_of h' r
      = Some (LabeledCollection_cls,
              py_slice pg_field_names None (Some (Z.of_nat 14)), false).
Proof.
  destruct (prefix_mask_selects_leading_fields pg_heap 0 CollectionPG_cls
              pg_field_names true 14) as (h' & r & Hgen & Hs & _).
  - evaluated.
  - exists h', r. split; [exact Hgen|exact Hs].
Defined.

Lemma map_functions_agree_on_equal_schemas_witness :
  map_PG_fields 0 1 uvw_heap = map_collection 0 1 uvw_heap.
Proof.
  apply (map_functions_agree_on_equal_schemas uvw_heap 0 1
           LabeledCollection_cls LabeledCollection_cls ["u"; "v"; "w"]
           false false).
  - evaluated.
  - evaluated.
Defined.

Lemma added_attribute_is_not_a_field_witness :
  ∃ h',
    __setattr__ 0 "extra" (sym "x") ab_heap = (h', Ok tt)
    ∧ getattr 0 "extra" h' = (h', Ok (sym "x"))
    ∧ __getitem__ 0 (KStr "extra") h' = (h', Raise KeyError).
Proof.
  destruct (added_attribute_is_not_a_field ab_heap 0 LabeledCollection_cls
              ["a"; "b"] "extra" (sym "x"))
    as (h' & Hset & Hattr & _ & _ & _ & Hkey & _).
  - evaluated.
  - evaluated.
  - literal.
  - exists h'. split; [exact Hset|]. split; [exact Hattr|exact Hkey].
Defined.

Lemma lock_can_be_lifted_and_restored_witness :
  __setattr__ 0 "extra" (sym "x") pg_heap = (pg_heap, Raise AttributeError)
  ∧ ∃ h1 h2 h3,
      _enable_attribute_addition 0 pg_heap = (h1, Ok tt)
      ∧ __setattr__ 0 "extra" (sym "x") h1 = (h2, Ok tt)
      ∧ _disable_attribute_addition 0 h2 = (h3, Ok tt)
      ∧ getattr 0 "extra" h3 = (h3, Ok (sym "x"))
      ∧ __setattr__ 0 "other" (sym "x") h3 = (h3, Raise AttributeError).
Proof.
  destruct (lock_can_be_lifted_and_restored pg_heap 0 CollectionPG_cls
              pg_field_names "extra" "other" (sym "x"))
    as (Hrej & h1 & h2 & h3 & Hen & _ & Hset & Hdis & _ & _ & Hget & _ & Hrej').
  - evaluated.
  - evaluated.
  - evaluated.
  - evaluated.
  - evaluated.
  - discriminate.
  - split; [exact Hrej|]. exists h1, h2, h3.
    split; [exact Hen|]. split; [exact Hset|]. split; [exact Hdis|].
    split; [exact Hget|exact Hrej'].
Defined.

Lemma iter_options_accept_only_booleans_witness :
  (∃ h', __setattr__ 0 "iter_filter" (PyBool true) ab_heap = (h', Ok tt)
         ∧ getattr 0 "iter_filter" h' = (h', Ok (PyBool true)))
  ∧ __setattr__ 0 "iter_filter" (PyInt 1) ab_heap = (ab_heap, Raise TypeError).
Proof.
  destruct (iter_options_accept_only_booleans ab_heap 0 LabeledCollection_cls
              ["a"; "b"] false "iter_filter") as [Hbool Hother].
  - evaluated.
  - right. reflexivity.
  - split.
    + destruct (Hbool true) as (h' & Hset & Hget & _).
      exists h'. split; [exact Hset|exact Hget].
    + apply Hother. intros b. discriminate.
Defined.

Lemma new_obj_is_empty_with_same_schema_witness :
  ∃ h' r,
    Virtual._new_obj 0 pg_heap = (h', Ok r)
    ∧ schema_of h' r = Some (CollectionPG_cls, pg_field_names, true)
    ∧ __getitem__ r (KStr "Psi") h' = (h', Ok (Single PyNone)).
Proof.
  destruct (new_obj_is_empty_with_same_schema pg_heap 0 CollectionPG_cls
              pg_field_names true) as (h' & r & Hnew & _ & _ & Hs & Hnone).
  - evaluated.
  - exists h', r. split; [exact Hnew|]. split; [exact Hs|].
    apply Hnone. literal.
Defined.

Lemma apply_in_place_composes_witness :
  (c1 <- Virtual.apply 0 prime true false;;
   Virtual.apply c1 prime true false) ab_heap
  = Virtual.apply 0 (λ name x, prime name (prime name x)) true false ab_heap.
Proof.
  apply (apply_in_place_composes ab_heap 0 LabeledCollection_cls ["a"; "b"]
           false prime prime false).
  - evaluated.
  - literal.
Defined.


Lemma pg_subsets_partition_the_fields_witness :
  ∃ h' v,
    CollectionPG.subset_B_bound_cyl 0 pg_heap = (h', Ok v)
    ∧ view_schema h' v
      = Some (0, ["Bs_p"; "Bp_p"; "Bz_p"; "Bs_m"; "Bp_m"; "Bz_m"]).
Proof.
  destruct (pg_subsets_partition_the_fields pg_heap 0 true)
    as (_ & _ & _ & (h' & v & Hcyl & _ & Hview & _) & _).
  - evaluated.
  - exists h', v. split; [exact Hcyl|exact Hview].
Defined.

End FurtherScenarios.
